(** * Leantime MCP proxy: the request/response bridging engine

    A shallow embedding of [src/proxy.ts] (class [LeantimeMcpProxy]) and the
    properties of its backoff calculator, response cache, error normalizer,
    SSE consumer, retry orchestrator and message loop, numbered C1 to C10.
    The command line of [src/config.ts] and the session handshake and tool
    listing of [src/server.ts] are embedded as well; the further properties
    of the code are numbered X3 to X29.

    Conventions of the embedding

    - A JavaScript value that comes out of [JSON.parse] is a [json] tree;
      [undefined] (the result of reading a missing property) is [None] of
      [option json].  A parsed number is an exact rational (every finite
      double is one; the rounding of a literal is not modelled) or one of
      the two infinities, which a literal beyond the range of the doubles
      parses to.  The properties of an object keep the order of the text.
    - The delays of the backoff calculator are IEEE 754 doubles, the
      primitive floats; the retry policy holds an integer [maxRetries] and
      finite delays, so a policy with a [NaN] in it (the HTTP front end
      passes on what [parseInt] gives) is not covered.
    - A JavaScript string is a [string]; its characters are the [ascii]
      elements, so the text covered is the one-byte-per-character text, and
      a chunk of a response is the string [chunk.toString()] gives.
    - Synchronous code that may throw returns a [completion]; a promise is
      described by how it settles ([settled]), including never.
    - The instance fields of the proxy, the object store holding the response
      objects, and the observable traffic (lines written to [process.stdout],
      bodies posted to the server, timers) form the record [proxy].
    - [JSON.parse], [Number.prototype.toString], the configuration, the
      remote server, [Date.now()] and [Math.random()] are parameters; one
      message is handled at a time. *)

From Stdlib Require Import Floats.
From Stdlib Require Import ZArith QArith String Ascii List Lia Bool.
From stdpp Require Import base option list strings pretty gmap.
From Equations Require Import Equations.

Set Warnings "-register-all".
Local Open Scope Z_scope.

(** ** JavaScript values *)

Inductive json : Type :=
| JNull
| JBool (b : bool)
| JNum (n : Q)
| JInfinity (negative : bool)
| JStr (s : string)
| JArr (items : list json)
| JObj (fields : list (string * json)).

(** An [Error] instance: [String(e)] is [name: message]. *)
Record js_error := JsError { err_name : string; err_message : string }.

Inductive completion (A : Type) : Type :=
| Normal (a : A)
| Throw (e : js_error).
Arguments Normal {A} a.
Arguments Throw {A} e.

Definition cbind {A B} (c : completion A) (k : A → completion B) : completion B :=
  match c with
  | Normal a => k a
  | Throw e => Throw e
  end.

(** How a promise ends: fulfilled, rejected, or never settled. *)
Inductive settled (A : Type) : Type :=
| Fulfilled (a : A)
| Rejected (e : js_error)
| Pending.
Arguments Fulfilled {A} a.
Arguments Rejected {A} e.
Arguments Pending {A}.

(** [resolve] and [reject] of a promise executor: only the first call counts. *)
Definition resolve {A} (v : A) (p : settled A) : settled A :=
  match p with
  | Pending => Fulfilled v
  | _ => p
  end.

Definition reject {A} (e : js_error) (p : settled A) : settled A :=
  match p with
  | Pending => Rejected e
  | _ => p
  end.

(** [ToBoolean] on parsed values. *)
Definition truthy (v : json) : bool :=
  match v with
  | JNull => false
  | JBool b => b
  | JNum n => negb (Qeq_bool n 0)
  | JInfinity _ => true
  | JStr s => negb (String.eqb s "")
  | JArr _ => true
  | JObj _ => true
  end.

(** [ToBoolean] on a value that may be [undefined]. *)
Definition truthy_opt (v : option json) : bool :=
  match v with
  | Some j => truthy j
  | None => false
  end.

(** [a || b] *)
Definition js_or (a : option json) (b : option json) : option json :=
  if truthy_opt a then a else b.

(** [typeof v === 'object'] *)
Definition typeof_object (v : json) : bool :=
  match v with
  | JNull | JArr _ | JObj _ => true
  | _ => false
  end.

(** [typeof v === 'string'] for a property value *)
Definition typeof_string (v : option json) : bool :=
  match v with
  | Some (JStr _) => true
  | _ => false
  end.

Definition Array_isArray (v : json) : bool :=
  match v with
  | JArr _ => true
  | _ => false
  end.

(** [v === "lit"] *)
Definition is_string_literal (lit : string) (v : option json) : bool :=
  match v with
  | Some (JStr s) => String.eqb s lit
  | _ => false
  end.

(** [v !== null] *)
Definition not_null (v : json) : bool :=
  match v with
  | JNull => false
  | _ => true
  end.

Fixpoint lookup_field (k : string) (fs : list (string * json)) : option json :=
  match fs with
  | [] => None
  | (k', v) :: fs' => if String.eqb k' k then Some v else lookup_field k fs'
  end.

(** Own-property read on a value that is not [null]: the names read by the
    proxy ([id], [method], [message], ...) exist on plain objects only. *)
Definition prop (v : json) (k : string) : option json :=
  match v with
  | JObj fs => lookup_field k fs
  | _ => None
  end.

(** [v.k]: reading a property of [null] throws a [TypeError]. *)
Definition member (v : json) (k : string) : completion (option json) :=
  match v with
  | JNull =>
      Throw (JsError "TypeError"
               ("Cannot read properties of null (reading '" +:+ k +:+ "')"))
  | _ => Normal (prop v k)
  end.

(** [o.k = v] on a plain object: an existing key keeps its place. *)
Fixpoint set_field (k : string) (v : json) (fs : list (string * json))
  : list (string * json) :=
  match fs with
  | [] => [(k, v)]
  | (k', v') :: fs' =>
      if String.eqb k' k then (k, v) :: fs' else (k', v') :: set_field k v fs'
  end.

Fixpoint index_fields (i : nat) (xs : list json) : list (string * json) :=
  match xs with
  | [] => []
  | x :: xs' => (pretty i, x) :: index_fields (S i) xs'
  end.

Fixpoint char_fields (i : nat) (s : string) : list (string * json) :=
  match s with
  | EmptyString => []
  | String c s' => (pretty i, JStr (String c "")) :: char_fields (S i) s'
  end.

(** The own enumerable properties copied by an object spread [{...v}]. *)
Definition spread (v : json) : list (string * json) :=
  match v with
  | JObj fs => fs
  | JArr xs => index_fields 0 xs
  | JStr s => char_fields 0 s
  | _ => []
  end.

(** [{...v, id: i}] *)
Definition spread_with_id (v : json) (i : json) : json :=
  JObj (set_field "id" i (spread v)).

(** ** Strings *)

Definition newline : ascii := "010"%char.

(** [s.substring(0, n)] *)
Definition substring_to (n : nat) (s : string) : string := String.substring 0 n s.

(** [s.substring(n)] *)
Fixpoint substring_from (n : nat) (s : string) : string :=
  match n, s with
  | O, _ => s
  | S n', String _ s' => substring_from n' s'
  | S _, EmptyString => EmptyString
  end.

(** [s.startsWith(p)] *)
Fixpoint startsWith (s p : string) {struct p} : bool :=
  match p with
  | EmptyString => true
  | String a p' =>
      match s with
      | String b s' => Ascii.eqb a b && startsWith s' p'
      | EmptyString => false
      end
  end.

Definition cons_head (c : ascii) (pieces : list string) : list string :=
  match pieces with
  | [] => [String c ""]
  | p :: ps => String c p :: ps
  end.

(** [s.split(sep)] for a non-empty separator: the occurrences are taken
    leftmost first and do not overlap.  [skip] counts the characters of a
    separator just matched that are still to be passed over. *)
Fixpoint split_from (sep : string) (skip : nat) (s : string) : list string :=
  match s with
  | EmptyString => [""]
  | String c r =>
      match skip with
      | S k => split_from sep k r
      | O =>
          if startsWith s sep
          then "" :: split_from sep (String.length sep - 1) r
          else cons_head c (split_from sep 0 r)
      end
  end.

Definition split (sep : string) (s : string) : list string := split_from sep 0 s.

Fixpoint trimStart (s : string) : string :=
  match s with
  | EmptyString => EmptyString
  | String c r => if Ascii.is_space c then trimStart r else s
  end.

Definition trimEnd (s : string) : string := String.rev (trimStart (String.rev s)).

(** [s.trim()] *)
Definition trim (s : string) : string := trimEnd (trimStart s).

(** Truthiness of a string: non-empty. *)
Definition nonempty (s : string) : bool := negb (String.eqb s "").

(** [xs.pop()] on the result of [split], and what is left in [xs]. *)
Definition pop_last (xs : list string) : option string := last xs.
Definition pop_rest (xs : list string) : list string := removelast xs.

(** ** Serialization *)

Definition hex_digit (n : N) : ascii :=
  match n with
  | 10 => "a" | 11 => "b" | 12 => "c" | 13 => "d" | 14 => "e" | 15 => "f"
  | _ => ascii_of_N (48 + n)
  end%N%char.

(** One character inside a JSON string literal, as [JSON.stringify] writes it. *)
Definition quote_char (c : ascii) : string :=
  match c with
  | "034"%char => String "\" (String "034" "")
  | "\"%char => "\\"
  | "008"%char => "\b"
  | "009"%char => "\t"
  | "010"%char => "\n"
  | "012"%char => "\f"
  | "013"%char => "\r"
  | _ =>
      if (N_of_ascii c <? 32)%N
      then "\u00" +:+ String (hex_digit (N_of_ascii c / 16))
                        (String (hex_digit (N_of_ascii c mod 16)) "")
      else String c ""
  end.

Fixpoint quote_chars (s : string) : string :=
  match s with
  | EmptyString => EmptyString
  | String c r => quote_char c +:+ quote_chars r
  end.

Definition quote (s : string) : string :=
  String "034" (quote_chars s +:+ String "034" "").

Fixpoint join (sep : string) (xs : list string) : string :=
  match xs with
  | [] => ""
  | [x] => x
  | x :: xs' => x +:+ sep +:+ join sep xs'
  end.

(** Whether the conversion of a parsed value to a primitive throws.  A
    parsed object with a property [toString] of its own has no callable
    [toString] (no parsed value is a function) and its inherited [valueOf]
    returns the object: a [TypeError].  [Array.prototype.toString] joins
    the elements, converting each one that is not [null]. *)
Fixpoint ToPrimitive_throws (v : json) : bool :=
  match v with
  | JArr xs => existsb ToPrimitive_throws xs
  | JObj fs => existsb (λ kv, String.eqb kv.1 "toString") fs
  | _ => false
  end.

Section Serialize.
(** [Number.prototype.toString]: the engine's shortest round-trip decimal. *)
Variable Number_toString : Q → string.

(** [JSON.stringify(v)]: a number that is not finite is written as [null]. *)
Fixpoint JSON_stringify (v : json) : string :=
  match v with
  | JNull => "null"
  | JBool true => "true"
  | JBool false => "false"
  | JNum n => Number_toString n
  | JInfinity _ => "null"
  | JStr s => quote s
  | JArr xs => "[" +:+ join "," (map JSON_stringify xs) +:+ "]"
  | JObj fs =>
      "{" +:+ join "," (map (λ kv, quote kv.1 +:+ ":" +:+ JSON_stringify kv.2) fs)
          +:+ "}"
  end.

(** The string [String(v)] gives when the conversion does not throw. *)
Fixpoint ToString (v : json) : string :=
  match v with
  | JNull => "null"
  | JBool true => "true"
  | JBool false => "false"
  | JNum n => Number_toString n
  | JInfinity false => "Infinity"
  | JInfinity true => "-Infinity"
  | JStr s => s
  | JArr xs =>
      join "," (map (λ x, match x with JNull => "" | _ => ToString x end) xs)
  | JObj _ => "[object Object]"
  end.

(** [`${v}`], the conversion a template literal applies. *)
Definition template (v : json) : completion string :=
  if ToPrimitive_throws v
  then Throw (JsError "TypeError" "Cannot convert object to primitive value")
  else Normal (ToString v).

Definition ToString_opt (v : option json) : string :=
  match v with
  | Some j => ToString j
  | None => "undefined"
  end.
End Serialize.

(** ** Configuration *)

(** [this.config.retry]: the values kept are the finite ones, [maxRetries]
    an integer and the delays the exact values of their doubles. *)
Record RetryConfig := {
  maxRetries : Z;
  baseDelay : Q;
  maxDelay : Q;
  jitter : bool
}.

Record ProxyConfig := {
  retry : option RetryConfig;
  disableCache : bool
}.

Definition default_retry : RetryConfig :=
  {| maxRetries := 3; baseDelay := 1000; maxDelay := 30000; jitter := true |}.

(** The constructor fills in the default retry policy. *)
Definition constructor (config : ProxyConfig) : ProxyConfig :=
  match retry config with
  | Some _ => config
  | None => {| retry := Some default_retry; disableCache := disableCache config |}
  end.

(** [this.config.retry!] *)
Definition retry_of (config : ProxyConfig) : RetryConfig :=
  default default_retry (retry config).

(** ** Backoff calculator *)

(** The double nearest to an integer (ties to even). *)
Definition double_of_Z (z : Z) : float :=
  SF2Prim (binary_normalize prec emax z 0 false).

(** The double a finite configuration value stands for. *)
Definition double_of_Q (q : Q) : float :=
  (double_of_Z (Qnum q) / double_of_Z (Z.pos (Qden q)))%float.

(** [Math.pow(2, n)] for an integer [n]: exact, [Infinity] from [n = 1024]. *)
Definition Math_pow2 (n : Z) : float := Z.ldexp 1 n.

(** [Math.min(x, y)]: [NaN] when an argument is, and [-0] below [+0]. *)
Definition Math_min (x y : float) : float :=
  if PrimFloat.is_nan x || PrimFloat.is_nan y then nan
  else if (x <? y)%float then x
  else if (y <? x)%float then y
  else if PrimFloat.get_sign x then x else y.

(** [Math.max(x, y)] *)
Definition Math_max (x y : float) : float :=
  if PrimFloat.is_nan x || PrimFloat.is_nan y then nan
  else if (y <? x)%float then x
  else if (x <? y)%float then y
  else if PrimFloat.get_sign x then y else x.

(** [calculateBackoffDelay(attempt)]; [random] is the value [Math.random()]
    returns when it is called (it is called only with jitter on). *)
Definition calculateBackoffDelay (rc : RetryConfig) (attempt : Z) (random : float)
  : float :=
  let delay := (double_of_Q (baseDelay rc) * Math_pow2 attempt)%float in
  let delay := Math_min delay (double_of_Q (maxDelay rc)) in
  let delay :=
    if jitter rc
    then
      let jitterAmount := (delay * 0.25)%float in
      (delay + (random * 2 - 1) * jitterAmount)%float
    else delay in
  Math_max delay 0.

(** ** Response cache, session state and the world around the proxy *)

Definition CACHE_TTL : Z := 5 * 60 * 1000.

(** The instance fields of [LeantimeMcpProxy] ([sessionId], [requestCounter],
    [toolCache], [cacheTimestamps]) together with what the instance acts on:
    [heap] holds the response objects ([toolCache] maps a key to the address
    of the object it retains), [stdout] the lines written, [posted] the
    request bodies sent to the server so far, [clock_reads] and
    [random_draws] how often [Date.now()] and [Math.random()] were called,
    [timers] the delays slept, [stderr] the errors logged by the SSE
    consumer.  The other diagnostics of [log]/[logError] are left out. *)
Record proxy := Proxy {
  sessionId : option string;
  requestCounter : nat;
  toolCache : gmap string nat;
  cacheTimestamps : gmap string Z;
  heap : list json;
  stdout : list string;
  posted : list json;
  clock_reads : nat;
  random_draws : nat;
  timers : list float;
  stderr : list string
}.

Definition set_sessionId (s : option string) (p : proxy) : proxy :=
  Proxy s (requestCounter p) (toolCache p) (cacheTimestamps p) (heap p)
    (stdout p) (posted p) (clock_reads p) (random_draws p) (timers p) (stderr p).

Definition set_requestCounter (n : nat) (p : proxy) : proxy :=
  Proxy (sessionId p) n (toolCache p) (cacheTimestamps p) (heap p)
    (stdout p) (posted p) (clock_reads p) (random_draws p) (timers p) (stderr p).

Definition set_cache (c : gmap string nat) (t : gmap string Z) (p : proxy) : proxy :=
  Proxy (sessionId p) (requestCounter p) c t (heap p)
    (stdout p) (posted p) (clock_reads p) (random_draws p) (timers p) (stderr p).

Definition set_heap (h : list json) (p : proxy) : proxy :=
  Proxy (sessionId p) (requestCounter p) (toolCache p) (cacheTimestamps p) h
    (stdout p) (posted p) (clock_reads p) (random_draws p) (timers p) (stderr p).

Definition set_stdout (o : list string) (p : proxy) : proxy :=
  Proxy (sessionId p) (requestCounter p) (toolCache p) (cacheTimestamps p) (heap p)
    o (posted p) (clock_reads p) (random_draws p) (timers p) (stderr p).

Definition set_posted (r : list json) (p : proxy) : proxy :=
  Proxy (sessionId p) (requestCounter p) (toolCache p) (cacheTimestamps p) (heap p)
    (stdout p) r (clock_reads p) (random_draws p) (timers p) (stderr p).

Definition set_clock_reads (n : nat) (p : proxy) : proxy :=
  Proxy (sessionId p) (requestCounter p) (toolCache p) (cacheTimestamps p) (heap p)
    (stdout p) (posted p) n (random_draws p) (timers p) (stderr p).

Definition set_random_draws (n : nat) (p : proxy) : proxy :=
  Proxy (sessionId p) (requestCounter p) (toolCache p) (cacheTimestamps p) (heap p)
    (stdout p) (posted p) (clock_reads p) n (timers p) (stderr p).

Definition set_timers (t : list float) (p : proxy) : proxy :=
  Proxy (sessionId p) (requestCounter p) (toolCache p) (cacheTimestamps p) (heap p)
    (stdout p) (posted p) (clock_reads p) (random_draws p) t (stderr p).

Definition set_stderr (e : list string) (p : proxy) : proxy :=
  Proxy (sessionId p) (requestCounter p) (toolCache p) (cacheTimestamps p) (heap p)
    (stdout p) (posted p) (clock_reads p) (random_draws p) (timers p) e.

(** A new proxy instance in a fresh process. *)
Definition new_proxy : proxy := Proxy None 0 ∅ ∅ [] [] [] 0 0 [] [].

(** [getCachedResponse(cacheKey)], [now] being what [Date.now()] returns
    when the method calls it, which it does for a key with a truthy
    timestamp only.  A cached entry is the address of the retained object;
    [None] is the [null] (or [undefined]) the method returns. *)
Definition getCachedResponse (now : Z) (cacheKey : string) (p : proxy)
  : option nat * proxy :=
  match cacheTimestamps p !! cacheKey with
  | Some timestamp =>
      if (timestamp =? 0) || (now - timestamp >? CACHE_TTL)
      then (None, set_cache (delete cacheKey (toolCache p))
                    (delete cacheKey (cacheTimestamps p)) p)
      else (toolCache p !! cacheKey, p)
  | None =>
      (None, set_cache (delete cacheKey (toolCache p))
               (delete cacheKey (cacheTimestamps p)) p)
  end.

(** [setCachedResponse(cacheKey, response)] *)
Definition setCachedResponse (now : Z) (cacheKey : string) (response : nat)
  (p : proxy) : proxy :=
  set_cache (<[cacheKey := response]> (toolCache p))
    (<[cacheKey := now]> (cacheTimestamps p)) p.

(** The object stored at an address. *)
Definition deref (l : nat) (p : proxy) : json := default JNull (heap p !! l).

(** A newly created object gets the next free address. *)
Definition alloc (v : json) (p : proxy) : nat * proxy :=
  (length (heap p), set_heap (heap p ++ [v]) p).

(** [o.id = v] on the object at address [l]. *)
Definition assign_id (l : nat) (v : json) (p : proxy) : proxy :=
  set_heap (<[l := JObj (set_field "id" v (spread (deref l p)))]> (heap p)) p.

(** [process.stdout.write(line)] *)
Definition write (line : string) (p : proxy) : proxy :=
  set_stdout (stdout p ++ [line]) p.

(** ** What the server may do with one POST *)

Inductive stream_end :=
| End
| StreamError (e : js_error).

Record http_response := {
  headers : list (string * string);
  chunks : list string;
  ending : stream_end
}.

Inductive exchange :=
| RequestError (e : js_error)
| RequestTimeout
| Response (res : http_response).

Fixpoint header (name : string) (hs : list (string * string)) : option string :=
  match hs with
  | [] => None
  | (k, v) :: hs' => if String.eqb k name then Some v else header name hs'
  end.

(** [s.includes(sub)] *)
Fixpoint includes (s sub : string) : bool :=
  startsWith s sub ||
  match s with
  | EmptyString => false
  | String _ r => includes r sub
  end.

(** [a || b] on header values *)
Definition or_header (a b : option string) : option string :=
  match a with
  | Some s => if nonempty s then a else b
  | None => b
  end.

(** [extractSessionId(headers)] *)
Definition extractSessionId (hs : list (string * string)) (p : proxy) : proxy :=
  let sessionId' :=
    or_header (header "mcp-session-id" hs)
      (or_header (header "Mcp-Session-Id" hs)
         (or_header (header "MCP-Session-ID" hs) (header "mcp_session_id" hs))) in
  match sessionId' with
  | Some s =>
      if nonempty s
      then
        match sessionId p with
        | None => set_sessionId (Some s) p
        | Some old => if String.eqb old s then p else set_sessionId (Some s) p
        end
      else p
  | None => p
  end.

(** ** Parsing *)

Inductive parse_result :=
| Parsed (v : json)
| SyntaxError (message : string).

Record SSEEvent := { type : string; data : string }.

(** [parseSSEEvent(data)] *)
Definition parseSSEEvent (block : string) : SSEEvent :=
  let lines := split (String newline "") block in
  foldl
    (λ ev line,
       if startsWith line "data: "
       then {| type := type ev; data := data ev +:+ substring_from 6 line |}
       else if startsWith line "event: "
       then {| type := substring_from 7 line; data := data ev |}
       else ev)
    {| type := ""; data := "" |} lines.

(** ** Error normalizer *)

Definition is_undefined (v : option json) : bool :=
  match v with
  | None => true
  | Some _ => false
  end.

(** [a || lit] where [lit] is a truthy literal *)
Definition or_literal (a : option json) (lit : json) : json :=
  match a with
  | Some v => if truthy v then v else lit
  | None => lit
  end.

Definition phpErrorFields : list string :=
  ["message"; "exception"; "file"; "line"; "trace"].

(** [isValidJsonRpcResponse(data)] *)
Definition isValidJsonRpcResponse (d : json) : bool :=
  if negb (truthy d) || negb (typeof_object d) then false
  else if negb (is_string_literal "2.0" (prop d "jsonrpc")) then false
  else if is_undefined (prop d "result") && is_undefined (prop d "error") then false
  else
    let hasPhpErrorFields :=
      existsb
        (λ field,
           negb (is_undefined (prop d field)) && typeof_string (prop d field)
           && negb (truthy_opt (prop d "result"))
           && negb (truthy_opt (prop d "error")))
        phpErrorFields in
    negb hasPhpErrorFields.

Definition error_envelope (requestId : json) (code : Z) (message : json)
  (payload : list (string * json)) : json :=
  JObj [("jsonrpc", JStr "2.0");
        ("id", requestId);
        ("error", JObj [("code", JNum (inject_Z code));
                        ("message", message);
                        ("data", JObj payload)])].

(** The [try] block of [convertServerErrorToJsonRpc]. *)
Definition convert_try (responseData : string) (parsed : json) : completion json :=
  cbind
    (if truthy parsed
     then cbind (member parsed "id") (λ i, Normal (default JNull i))
     else Normal JNull)
    (λ requestId,
       let generic :=
         error_envelope requestId (-32603) (JStr "Invalid server response")
           [("type", JStr "malformed_response");
            ("original", JStr (substring_to 200 responseData))] in
       if truthy parsed && typeof_object parsed
       then
         cbind (member parsed "message") (λ message,
         cbind (member parsed "exception") (λ exception,
           if truthy_opt message || truthy_opt exception
           then
             Normal
               (error_envelope requestId (-32603)
                  (or_literal message (JStr "Server internal error"))
                  [("type", JStr "server_error");
                   ("details",
                    or_literal (js_or exception message)
                      (JStr "Unknown server error"))])
           else if Array_isArray parsed
           then
             Normal
               (error_envelope requestId (-32600) (JStr "Server validation error")
                  [("type", JStr "validation_error"); ("details", parsed)])
           else Normal generic))
       else Normal generic).

(** The [catch] block of [convertServerErrorToJsonRpc]. *)
Definition convert_catch (responseData : string) : json :=
  error_envelope JNull (-32700) (JStr "Invalid JSON response from server")
    [("type", JStr "parse_error");
     ("original", JStr (substring_to 200 responseData))].

(** [convertServerErrorToJsonRpc(responseData, parsed)] *)
Definition convertServerErrorToJsonRpc (responseData : string) (parsed : json) : json :=
  match convert_try responseData parsed with
  | Normal v => v
  | Throw _ => convert_catch responseData
  end.

(** ** A reference [JSON.parse] and [Number.prototype.toString]

    The engine's parser and number printer are parameters of the development.
    The functions below implement them on the texts used by the examples:
    JSON as of RFC 8259 over one-byte characters (a [\u] escape must denote
    one), numbers within the range of the doubles read exactly, and
    integers printed in decimal. *)
Module Reference.

Definition is_json_space (c : ascii) : bool :=
  match c with
  | " " | "009" | "010" | "013" => true
  | _ => false
  end%char.

Fixpoint skip_space (s : string) : string :=
  match s with
  | String c r => if is_json_space c then skip_space r else s
  | EmptyString => EmptyString
  end.

Definition digit_of (c : ascii) : option Z :=
  let n := Z.of_N (N_of_ascii c) in
  if (48 <=? n) && (n <=? 57) then Some (n - 48) else None.

Definition hex_of (c : ascii) : option Z :=
  let n := Z.of_N (N_of_ascii c) in
  if (48 <=? n) && (n <=? 57) then Some (n - 48)
  else if (97 <=? n) && (n <=? 102) then Some (n - 87)
  else if (65 <=? n) && (n <=? 70) then Some (n - 55)
  else None.

(** A run of digits: its value continued from [acc], how many were read,
    and the rest of the text. *)
Fixpoint digits (acc : Z) (count : nat) (s : string) : Z * nat * string :=
  match s with
  | String c r =>
      match digit_of c with
      | Some d => digits (10 * acc + d) (S count) r
      | None => (acc, count, s)
      end
  | EmptyString => (acc, count, s)
  end.

Definition scale (m : Z) (e : Z) : Q :=
  if 0 <=? e
  then inject_Z (m * 10 ^ e)
  else Qred (m # Z.to_pos (10 ^ (- e))).

(** The number a literal of value [q] parses to: from half a unit in the
    last place above the largest double on, an infinity. *)
Definition parsed_number (q : Q) : json :=
  let bound := inject_Z (2 ^ 1024 - 2 ^ 970) in
  if Qle_bool bound q then JInfinity false
  else if Qle_bool q (- bound) then JInfinity true
  else JNum q.

Definition exponent (mantissa : Z) (shift : Z) (s : string) : option (json * string) :=
  match s with
  | String c r =>
      if (Ascii.eqb c "e" || Ascii.eqb c "E")%char
      then
        let '(neg, r) :=
          match r with
          | String "-" r' => (true, r')
          | String "+" r' => (false, r')
          | _ => (false, r)
          end%char in
        match digits 0 0 r with
        | (_, O, _) => None
        | (e, _, rest) =>
            Some (parsed_number (scale mantissa ((if neg then - e else e) - shift)),
                  rest)
        end
      else Some (parsed_number (scale mantissa (- shift)), s)
  | EmptyString => Some (parsed_number (scale mantissa (- shift)), s)
  end.

Definition fraction (sign : Z) (int : Z) (s : string) : option (json * string) :=
  match s with
  | String "." r =>
      match digits int 0 r with
      | (_, O, _) => None
      | (m, k, rest) => exponent (sign * m) (Z.of_nat k) rest
      end
  | _ => exponent (sign * int) 0 s
  end%char.

Definition number (s : string) : option (json * string) :=
  let '(sign, s) :=
    match s with
    | String "-" r => (-1, r)
    | _ => (1, s)
    end%char in
  match s with
  | String "0" r => fraction sign 0 r
  | _ =>
      match digits 0 0 s with
      | (_, O, _) => None
      | (n, _, rest) => fraction sign n rest
      end
  end%char.

(** The characters of a string literal after its opening quote. *)
Fixpoint chars (s : string) : option (string * string) :=
  match s with
  | EmptyString => None
  | String "034" r => Some (EmptyString, r)
  | String "\" (String "u" (String a (String b (String c (String d r))))) =>
      match hex_of a, hex_of b, hex_of c, hex_of d with
      | Some 0, Some 0, Some h, Some l =>
          match chars r with
          | Some (t, rest) => Some (String (ascii_of_N (Z.to_N (16 * h + l))) t, rest)
          | None => None
          end
      | _, _, _, _ => None
      end
  | String "\" (String e r) =>
      let unescaped :=
        match e with
        | "034" => Some "034" | "\" => Some "\" | "/" => Some "/"
        | "b" => Some "008" | "f" => Some "012" | "n" => Some "010"
        | "r" => Some "013" | "t" => Some "009"
        | _ => None
        end in
      match unescaped, chars r with
      | Some c, Some (t, rest) => Some (String c t, rest)
      | _, _ => None
      end
  | String c r =>
      if (N_of_ascii c <? 32)%N then None
      else
        match chars r with
        | Some (t, rest) => Some (String c t, rest)
        | None => None
        end
  end%char.

Definition keyword (k : string) (v : json) (s : string) : option (json * string) :=
  if startsWith s k then Some (v, substring_from (String.length k) s) else None.

Fixpoint value (fuel : nat) (s : string) : option (json * string) :=
  match fuel with
  | O => None
  | S fuel' =>
      match skip_space s with
      | String "n" _ => keyword "null" JNull (skip_space s)
      | String "t" _ => keyword "true" (JBool true) (skip_space s)
      | String "f" _ => keyword "false" (JBool false) (skip_space s)
      | String "034" r =>
          match chars r with
          | Some (t, rest) => Some (JStr t, rest)
          | None => None
          end
      | String "[" r =>
          match skip_space r with
          | String "]" rest => Some (JArr [], rest)
          | _ =>
              match elements fuel' r with
              | Some (xs, rest) => Some (JArr xs, rest)
              | None => None
              end
          end
      | String "{" r =>
          match skip_space r with
          | String "}" rest => Some (JObj [], rest)
          | _ =>
              match members fuel' [] r with
              | Some (fs, rest) => Some (JObj fs, rest)
              | None => None
              end
          end
      | other => number other
      end%char
  end
with elements (fuel : nat) (s : string) : option (list json * string) :=
  match fuel with
  | O => None
  | S fuel' =>
      match value fuel' s with
      | Some (x, rest) =>
          match skip_space rest with
          | String "," rest' =>
              match elements fuel' rest' with
              | Some (xs, rest'') => Some (x :: xs, rest'')
              | None => None
              end
          | String "]" rest' => Some ([x], rest')
          | _ => None
          end%char
      | None => None
      end
  end
with members (fuel : nat) (acc : list (string * json)) (s : string)
  : option (list (string * json) * string) :=
  match fuel with
  | O => None
  | S fuel' =>
      match skip_space s with
      | String "034" r =>
          match chars r with
          | Some (k, rest) =>
              match skip_space rest with
              | String ":" rest' =>
                  match value fuel' rest' with
                  | Some (v, rest'') =>
                      match skip_space rest'' with
                      | String "," rest3 => members fuel' (set_field k v acc) rest3
                      | String "}" rest3 => Some (set_field k v acc, rest3)
                      | _ => None
                      end
                  | None => None
                  end
              | _ => None
              end
          | None => None
          end
      | _ => None
      end%char
  end.

(** The reference [JSON.parse]. *)
Definition json_parse (s : string) : parse_result :=
  match value (2 * String.length s + 2) s with
  | Some (v, rest) =>
      match skip_space rest with
      | EmptyString => Parsed v
      | _ => SyntaxError "Unexpected non-whitespace character after JSON"
      end
  | None => SyntaxError "Unexpected token in JSON"
  end.

(** The reference [Number.prototype.toString]: decimal for an integer. *)
Definition number_toString (n : Q) : string :=
  let r := Qred n in
  match Qden r with
  | 1%positive => pretty (Qnum r)
  | d => pretty (Qnum r) +:+ "/" +:+ pretty (Zpos d)
  end.

End Reference.

(** ** Sample configurations, servers and messages *)
Module Sample.
Import Reference.

Definition config (maxRetries : Z) : ProxyConfig :=
  {| retry := Some {| maxRetries := maxRetries; baseDelay := 1000;
                      maxDelay := 30000; jitter := true |};
     disableCache := false |}.

Definition clock (n : nat) : Z := 1700000000000 + 1000 * Z.of_nat n.

Definition random (n : nat) : float := 0.75%float.

Definition plain (body : string) : exchange :=
  Response {| headers := [("content-type", "application/json")];
              chunks := [body]; ending := End |}.

Definition tools : json := JObj [("tools", JArr [])].

(** A server that is never reached. *)
Definition refusing (history : list json) : exchange :=
  RequestError (JsError "Error" "connect ECONNREFUSED").

(** A server that is reached at the third attempt. *)
Definition waking (history : list json) : exchange :=
  if (length history <? 3)%nat
  then RequestError (JsError "Error" "connect ECONNREFUSED")
  else plain (JSON_stringify number_toString
                (JObj [("jsonrpc", JStr "2.0"); ("id", JNull); ("result", tools)])).

(** A server that answers every request with the text [not json]. *)
Definition broken (history : list json) : exchange :=
  Response {| headers := [("content-type", "text/html")];
              chunks := ["not json"]; ending := End |}.

(** A server that answers every request with its [id] and a tool list. *)
Definition echoing (history : list json) : exchange :=
  match last history with
  | Some request =>
      plain (JSON_stringify number_toString
               (JObj [("jsonrpc", JStr "2.0");
                      ("id", default JNull (prop request "id"));
                      ("result", tools)]))
  | None => RequestTimeout
  end.

(** A server that answers with both [result] and [error]. *)
Definition ambiguous : json :=
  JObj [("jsonrpc", JStr "2.0"); ("id", JNum 1); ("result", JObj []);
        ("error", JObj [("code", JNum (-1)); ("message", JStr "failed")])].

Definition lf : string := String newline "".

(** An event stream cut into three chunks: a block with malformed data, a
    comment block, and an unterminated block whose data is [[1,2]]. *)
Definition stream : http_response :=
  {| headers := [("content-type", "text/event-stream")];
     chunks := ["event: message" +:+ lf +:+ "data: {oops" +:+ lf;
                lf +:+ ": keep-alive" +:+ lf +:+ lf +:+ "data: [1,";
                lf +:+ "data: 2]"];
     ending := End |}.

Definition streaming (history : list json) : exchange := Response stream.

Definition request (id : option json) (method : string) : json :=
  JObj (("jsonrpc", JStr "2.0")
          :: match id with Some i => [("id", i)] | None => [] end
          ++ [("method", JStr method)]).

Definition message (id : option json) (method : string) : string :=
  JSON_stringify number_toString (request id method).
End Sample.


(** ** Request headers *)

(** [this.config.auth] *)
Record AuthConfig := { method : string; token : string }.

(** [addAuthHeader(headers)]: the [switch] on the configured method. *)
Definition addAuthHeader (auth : AuthConfig) (headers : gmap string string)
  : gmap string string :=
  if String.eqb (method auth) "X-API-Key"
  then <["X-API-Key" := token auth]> headers
  else if String.eqb (method auth) "ApiKey"
  then <["Authorization" := "ApiKey " +:+ token auth]> headers
  else if String.eqb (method auth) "Token"
  then <["Authorization" := "Token " +:+ token auth]> headers
  else <["Authorization" := "Bearer " +:+ token auth]> headers.

(** The [headers] of the POST that [sendToServer] builds for the body
    [postData] while the instance holds [session] as its [sessionId];
    [Buffer.byteLength] is the length of the one-byte text. *)
Definition request_headers (auth : AuthConfig) (postData : string)
  (session : option string) : gmap string string :=
  let headers :=
    <["Content-Length" := pretty (String.length postData)]>
      (<["Accept" := "application/json, text/event-stream"]>
         (<["Content-Type" := "application/json"]> ∅)) in
  let headers := addAuthHeader auth headers in
  match session with
  | Some s => if nonempty s then <["Mcp-Session-Id" := s]> headers else headers
  | None => headers
  end.

(** ** Framing of the standard input ([startMessageLoop]) *)
Module Stdin.

(** The [buffer] of [startMessageLoop], and the messages passed to
    [handleIncomingMessage] so far, in the order of the calls. *)
Record loop := { buffer : string; handled : list string }.

(** One turn of the [while] loop of the ['readable'] handler, for the chunk
    [process.stdin.read()] returned. *)
Definition read (st : loop) (chunk : string) : loop :=
  let lines := split (String newline "") (buffer st +:+ chunk) in
  {| buffer := default "" (pop_last lines);
     handled :=
       foldl (λ calls line,
                if nonempty (trim line) then calls ++ [trim line] else calls)
         (handled st) (pop_rest lines) |}.

(** The messages handled when the standard input delivers [chunks] and
    then ends: the ['end'] handler exits the process and leaves the
    buffer alone. *)
Definition startMessageLoop (chunks : list string) : loop :=
  foldl read {| buffer := ""; handled := [] |} chunks.

End Stdin.

(** ** Command line ([src/config.ts]) *)
Module Config.

(** [parseInt(s, 10)]: leading white space, an optional sign, then the
    longest run of decimal digits; [None] is [NaN].  The integer is exact. *)
Definition parseInt (s : string) : option Z :=
  let s := trimStart s in
  let signed :=
    match s with
    | String "-" r => (-1, r)
    | String "+" r => (1, r)
    | _ => (1, s)
    end in
  match Reference.digits 0 0 signed.2 with
  | (_, O, _) => None
  | (n, _, _) => Some (signed.1 * n)
  end.

(** [parseInt(s, 10) || d] *)
Definition parseInt_or (s : string) (d : Z) : Z :=
  match parseInt s with
  | Some n => if n =? 0 then d else n
  | None => d
  end.

(** The configuration [parseArgs] returns: the fields read by the engine
    ([retry], [disableCache]) are those of [ProxyConfig]. *)
Record settings := {
  url : string;
  auth : AuthConfig;
  insecure : bool;
  protocol : option string;
  engine : ProxyConfig
}.

Definition build (serverUrl token authMethod : string) (skipSsl : bool)
  (protocolVersion : option string) (maxRetries baseDelay : Z)
  (disableCache : bool) : settings :=
  {| url := serverUrl;
     auth := {| method := authMethod; token := token |};
     insecure := skipSsl;
     protocol := protocolVersion;
     engine :=
       {| retry := Some (Build_RetryConfig maxRetries (inject_Z baseDelay) 30000 true);
          disableCache := disableCache |} |}.

(** The local variables of [parseArgs]. *)
Record locals := {
  serverUrl : string;
  token : string;
  authMethod : string;
  skipSsl : bool;
  protocolVersion : option string;
  maxRetries : Z;
  baseDelay : Z;
  disableCache : bool
}.

Definition initial : locals :=
  {| serverUrl := ""; token := ""; authMethod := "Bearer"; skipSsl := false;
     protocolVersion := None; maxRetries := 3; baseDelay := 1000;
     disableCache := false |}.

(** The assignment made for an option that takes a value. *)
Definition assign (flag nextArg : string) (v : locals) : locals :=
  if String.eqb flag "--token"
  then {| serverUrl := serverUrl v; token := nextArg; authMethod := authMethod v;
          skipSsl := skipSsl v; protocolVersion := protocolVersion v;
          maxRetries := maxRetries v; baseDelay := baseDelay v;
          disableCache := disableCache v |}
  else if String.eqb flag "--auth-method"
  then {| serverUrl := serverUrl v; token := token v; authMethod := nextArg;
          skipSsl := skipSsl v; protocolVersion := protocolVersion v;
          maxRetries := maxRetries v; baseDelay := baseDelay v;
          disableCache := disableCache v |}
  else if String.eqb flag "--protocol-version"
  then {| serverUrl := serverUrl v; token := token v; authMethod := authMethod v;
          skipSsl := skipSsl v; protocolVersion := Some nextArg;
          maxRetries := maxRetries v; baseDelay := baseDelay v;
          disableCache := disableCache v |}
  else if String.eqb flag "--max-retries"
  then {| serverUrl := serverUrl v; token := token v; authMethod := authMethod v;
          skipSsl := skipSsl v; protocolVersion := protocolVersion v;
          maxRetries := parseInt_or nextArg 3; baseDelay := baseDelay v;
          disableCache := disableCache v |}
  else {| serverUrl := serverUrl v; token := token v; authMethod := authMethod v;
          skipSsl := skipSsl v; protocolVersion := protocolVersion v;
          maxRetries := maxRetries v; baseDelay := parseInt_or nextArg 1000;
          disableCache := disableCache v |}.

Definition takes_value (arg : string) : bool :=
  existsb (String.eqb arg)
    ["--token"; "--auth-method"; "--protocol-version"; "--max-retries";
     "--retry-delay"].

(** The [for] loop over [process.argv.slice(2)]. *)
Fixpoint scan (args : list string) (v : locals) : locals :=
  match args with
  | [] => v
  | arg :: rest =>
      if takes_value arg
      then
        match rest with
        | nextArg :: rest' =>
            scan rest' (if nonempty nextArg then assign arg nextArg v else v)
        | [] => v
        end
      else if String.eqb arg "--insecure" || String.eqb arg "--skip-ssl"
      then scan rest
             {| serverUrl := serverUrl v; token := token v;
                authMethod := authMethod v; skipSsl := true;
                protocolVersion := protocolVersion v; maxRetries := maxRetries v;
                baseDelay := baseDelay v; disableCache := disableCache v |}
      else if String.eqb arg "--no-cache"
      then scan rest
             {| serverUrl := serverUrl v; token := token v;
                authMethod := authMethod v; skipSsl := skipSsl v;
                protocolVersion := protocolVersion v; maxRetries := maxRetries v;
                baseDelay := baseDelay v; disableCache := true |}
      else if negb (nonempty (serverUrl v)) && nonempty arg
      then scan rest
             {| serverUrl := arg; token := token v;
                authMethod := authMethod v; skipSsl := skipSsl v;
                protocolVersion := protocolVersion v; maxRetries := maxRetries v;
                baseDelay := baseDelay v; disableCache := disableCache v |}
      else scan rest v
  end.

(** [parseArgs()], for the arguments [process.argv.slice(2)] and the
    environment [process.env]; [None] is [process.exit(1)]. *)
Definition parseArgs (args : list string) (env : string → option string)
  : option settings :=
  let v := scan args initial in
  let serverUrl :=
    if nonempty (serverUrl v) then serverUrl v
    else
      match env "LEANTIME_SERVER_URL" with
      | Some s => s
      | None => ""
      end in
  let token :=
    if nonempty (token v) then token v
    else
      match env "LEANTIME_API_TOKEN" with
      | Some s => s
      | None => ""
      end in
  if negb (nonempty serverUrl) || negb (nonempty token) then None
  else
    Some (build serverUrl token (authMethod v) (skipSsl v) (protocolVersion v)
            (maxRetries v) (baseDelay v) (disableCache v)).

End Config.

(** ** Further sample configurations, servers and inputs *)
Module Scenario.

Definition no_jitter : RetryConfig :=
  {| maxRetries := 3; baseDelay := 1000; maxDelay := 30000; jitter := false |}.

(** An [id] with a property [toString] of its own. *)
Definition unprintable : json := JObj [("toString", JNum 1)].

(** A request whose [id] is a literal beyond the range of the doubles. *)
Definition overflowing : string :=
  "{" +:+ quote "jsonrpc" +:+ ":" +:+ quote "2.0" +:+ ","
  +:+ quote "id" +:+ ":1e400,"
  +:+ quote "method" +:+ ":" +:+ quote "tools/call" +:+ "}".

(** A clock that advances by 400000 ms from one reading to the next. *)
Definition slow_clock (n : nat) : Z := 1700000000000 + 400000 * Z.of_nat n.

(** The policy of the HTTP front end for [RETRY_DELAY=0] and
    [MAX_RETRIES=2000], and the same without jitter. *)
Definition zero_delay (jitter : bool) : RetryConfig :=
  {| maxRetries := 2000; baseDelay := 0; maxDelay := 30000; jitter := jitter |}.

(** The engine configuration [--no-cache] gives. *)
Definition no_cache : ProxyConfig :=
  {| retry := Some default_retry; disableCache := true |}.

Definition bearer : AuthConfig := {| method := "Bearer"; token := "abc123" |}.

(** A server that announces a session identifier. *)
Definition greeting (history : list json) : exchange :=
  Response {| headers := [("content-type", "application/json");
                          ("mcp-session-id", "session-1")];
              chunks := ["{}"]; ending := End |}.

(** A server whose event stream carries the payload [null]. *)
Definition nulling (history : list json) : exchange :=
  Response {| headers := [("content-type", "text/event-stream")];
              chunks := ["data: null" +:+ Sample.lf +:+ Sample.lf];
              ending := End |}.

(** An event stream that ends inside its second payload, none parsing. *)
Definition truncated : http_response :=
  {| headers := [("content-type", "text/event-stream")];
     chunks := ["data: {oops" +:+ Sample.lf +:+ Sample.lf; "data: [1,"];
     ending := End |}.

(** An event stream that breaks off after a complete block. *)
Definition interrupted : http_response :=
  {| headers := [("content-type", "text/event-stream")];
     chunks := ["data: [1,2]" +:+ Sample.lf; Sample.lf +:+ "data: [3"];
     ending := StreamError (JsError "Error" "read ECONNRESET") |}.

(** The stream of [Sample.stream] delivered in one chunk. *)
Definition unchunked : http_response :=
  {| headers := headers Sample.stream;
     chunks := [foldr String.append "" (chunks Sample.stream)];
     ending := End |}.

Definition command_line : list string :=
  ["https://leantime.example.com/mcp"; "--token"; "abc123"; "--max-retries"; "0";
   "https://other.example.com/mcp"].

Definition environment (name : string) : option string :=
  if String.eqb name "LEANTIME_SERVER_URL" then Some "https://env.example.com/mcp"
  else None.

(** A body of 250 characters that is not JSON. *)
Definition long_body : string :=
  foldr String.append "" (replicate 25 "<html>....").

End Scenario.

(** ** Asynchronous code over the proxy state

    An [async] method is a function from the state to the way its promise
    settles and the state it leaves; [await] is the bind: a rejection is
    rethrown, and a promise that never settles suspends the caller for good. *)

Definition M (A : Type) : Type := proxy → settled A * proxy.

Definition ret {A} (a : A) : M A := λ p, (Fulfilled a, p).

Definition bind {A B} (m : M A) (k : A → M B) : M B :=
  λ p,
    match m p with
    | (Fulfilled a, p') => k a p'
    | (Rejected e, p') => (Rejected e, p')
    | (Pending, p') => (Pending, p')
    end.

(** [try { m } catch (error) { h error }] *)
Definition try_catch {A} (m : M A) (h : js_error → M A) : M A :=
  λ p,
    match m p with
    | (Rejected e, p') => h e p'
    | r => r
    end.

Definition lift {A} (c : completion A) : M A :=
  λ p,
    match c with
    | Normal a => (Fulfilled a, p)
    | Throw e => (Rejected e, p)
    end.

Definition act (f : proxy → proxy) : M unit := λ p, (Fulfilled tt, f p).

Declare Scope async_scope.
Delimit Scope async_scope with async.
Notation "'do' x <- m ; k" := (bind m (λ x, k))
  (at level 10, x name, m at level 100, k at level 200) : async_scope.
Notation "m ;; k" := (bind m (λ _, k))
  (at level 100, k at level 200, right associativity) : async_scope.

Section Proxy.
(** [JSON.parse]: the parsed value, or the message of the [SyntaxError]. *)
Variable JSON_parse : string → parse_result.
Variable Number_toString : Q → string.
(** The configuration held by the instance, after the constructor. *)
Variable config : ProxyConfig.
(** The remote end: what happens to a POST, given every body posted so far
    (the last one being the request at hand). *)
Variable server : list json → exchange.
(** The value of the [n]-th call of [Date.now()] and of [Math.random()]. *)
Variable Date_now : nat → Z.
Variable Math_random : nat → float.

(** The handler of ['end'] in [handleJSONResponse]: the value resolved. *)
Definition handleJSONResponse_end (body : string) : json :=
  match JSON_parse body with
  | Parsed parsed =>
      if isValidJsonRpcResponse parsed
      then parsed
      else convertServerErrorToJsonRpc body parsed
  | SyntaxError _ => convertServerErrorToJsonRpc body JNull
  end.

(** [handleJSONResponse(res, resolve, reject)] *)
Definition handleJSONResponse (res : http_response) : settled json :=
  let body := foldl (λ acc chunk, acc +:+ chunk) "" (chunks res) in
  match ending res with
  | End => resolve (handleJSONResponse_end body) Pending
  | StreamError e => reject e Pending
  end.

(** The state of [handleSSEResponse]: its [buffer], the promise of
    [sendToServer], and the errors logged. *)
Record sse_state := {
  buffer : string;
  promise : settled json;
  logged : list string
}.

(** The body of [events.forEach] in the ['data'] handler. *)
Definition sse_event (st : sse_state) (eventData : string) : sse_state :=
  if nonempty (trim eventData)
  then
    let event := parseSSEEvent eventData in
    if nonempty (data event)
    then
      match JSON_parse (data event) with
      | Parsed parsed =>
          {| buffer := buffer st; promise := resolve parsed (promise st);
             logged := logged st |}
      | SyntaxError m =>
          {| buffer := buffer st; promise := promise st;
             logged := logged st ++ ["Invalid JSON in SSE: SyntaxError: " +:+ m] |}
      end
    else st
  else st.

(** The ['data'] handler. *)
Definition sse_data (st : sse_state) (chunk : string) : sse_state :=
  let events := split (String newline (String newline "")) (buffer st +:+ chunk) in
  foldl sse_event
    {| buffer := default "" (pop_last events); promise := promise st;
       logged := logged st |}
    (pop_rest events).

(** The ['end'] handler. *)
Definition sse_end (st : sse_state) : sse_state :=
  if nonempty (trim (buffer st))
  then
    let event := parseSSEEvent (buffer st) in
    if nonempty (data event)
    then
      match JSON_parse (data event) with
      | Parsed parsed =>
          {| buffer := buffer st; promise := resolve parsed (promise st);
             logged := logged st |}
      | SyntaxError m =>
          {| buffer := buffer st;
             promise :=
               reject (JsError "Error" ("Invalid JSON in final SSE: SyntaxError: " +:+ m))
                 (promise st);
             logged := logged st |}
      end
    else st
  else st.

(** [handleSSEResponse(res, resolve, reject)] *)
Definition handleSSEResponse (res : http_response) : sse_state :=
  let st :=
    foldl sse_data {| buffer := ""; promise := Pending; logged := [] |}
      (chunks res) in
  match ending res with
  | End => sse_end st
  | StreamError e =>
      {| buffer := buffer st; promise := reject e (promise st);
         logged := logged st |}
  end.

(** [sendToServer(request)] *)
Definition sendToServer (request : json) (p : proxy) : settled json * proxy :=
  let p := set_posted (posted p ++ [request]) p in
  match server (posted p) with
  | RequestError e => (Rejected e, p)
  | RequestTimeout => (Rejected (JsError "Error" "Request timeout"), p)
  | Response res =>
      let contentType := default "" (header "content-type" (headers res)) in
      let isSSE := includes contentType "text/event-stream" in
      let p := extractSessionId (headers res) p in
      if isSSE
      then
        let st := handleSSEResponse res in
        (promise st, set_stderr (stderr p ++ logged st) p)
      else (handleJSONResponse res, p)
  end.

(** The backoff delay of the retry at hand, drawing from [Math.random()]
    when jitter is on. *)
Definition backoff (attempt : Z) (p : proxy) : float * proxy :=
  let rc := retry_of config in
  if jitter rc
  then (calculateBackoffDelay rc attempt (Math_random (random_draws p)),
        set_random_draws (S (random_draws p)) p)
  else (calculateBackoffDelay rc attempt 0, p).

(** [sleep(ms)] *)
Definition sleep (ms : float) (p : proxy) : proxy := set_timers (timers p ++ [ms]) p.

(** [sendToServerWithRetry(request, attempt)], for the integer
    [maxRetries] of the retry policy: the retries end.  (Against a
    [maxRetries] that is [NaN], [attempt >= maxRetries] never holds.) *)
Equations? sendToServerWithRetry (request : json) (attempt : Z) (p : proxy)
  : settled json * proxy
  by wf (Z.to_nat (maxRetries (retry_of config) - attempt)) lt :=
  sendToServerWithRetry request attempt p with sendToServer request p => {
    | (Fulfilled response, p1) := (Fulfilled response, p1);
    | (Pending, p1) := (Pending, p1);
    | (Rejected error, p1) with Z_ge_lt_dec attempt (maxRetries (retry_of config)) => {
        | left _ := (Rejected error, p1);
        | right _ :=
            sendToServerWithRetry request (attempt + 1)
              (sleep (backoff attempt p1).1 (backoff attempt p1).2) } }.
Proof. lia. Qed.

Local Open Scope async_scope.

(** [getCacheKey(request)] *)
Definition getCacheKey (request : json) : string :=
  ToString_opt Number_toString (prop request "method") +:+ "_" +:+
  JSON_stringify Number_toString (or_literal (prop request "params") (JObj [])).

Definition cacheable_methods : list string :=
  ["tools/list"; "resources/list"; "prompts/list"].

(** [shouldCache(request)] *)
Definition shouldCache (request : json) : bool :=
  if disableCache config then false
  else
    match prop request "method" with
    | Some (JStr m) => existsb (String.eqb m) cacheable_methods
    | _ => false
    end.

(** [Date.now()] *)
Definition Date_now_read : M Z :=
  λ p, (Fulfilled (Date_now (clock_reads p)), set_clock_reads (S (clock_reads p)) p).

(** [parsed.method && parsed.method.startsWith('notifications/')] *)
Definition is_notification (method : option json) : completion bool :=
  match method with
  | Some (JStr m) => Normal (nonempty m && startsWith m "notifications/")
  | Some v =>
      if truthy v
      then Throw (JsError "TypeError" "parsed.method.startsWith is not a function")
      else Normal false
  | None => Normal false
  end.

(** [if (requestId !== null) { response = { ...response, id: requestId }; }] *)
Definition with_request_id (response requestId : json) : json :=
  if not_null requestId then spread_with_id response requestId else response.

Definition initNotification : json :=
  JObj [("jsonrpc", JStr "2.0");
        ("method", JStr "notifications/initialized");
        ("params", JObj [])].

(** The envelope built in a [catch] block from the error caught. *)
Definition internal_error (id : json) (error : js_error) : json :=
  JObj [("jsonrpc", JStr "2.0");
        ("id", id);
        ("error", JObj [("code", JNum (inject_Z (-32603)));
                        ("message", JStr "Internal error");
                        ("data", JStr (err_message error))])].

(** [process.stdout.write(JSON.stringify(v) + '\n')] *)
Definition write_line (v : json) : M unit :=
  act (write (JSON_stringify Number_toString v +:+ String newline "")).

(** The cache-hit arm of the cacheable branch. *)
Definition reply_from_cache (cached requestId : json) : M unit :=
  (* response = { ...cachedResponse }: a new object *)
  do response <- (λ p, let r := alloc (JObj (spread cached)) p in
                       (Fulfilled r.1, r.2));
  (if not_null requestId then act (assign_id response requestId) else ret tt);;
  do v <- (λ p, (Fulfilled (deref response p), p));
  write_line v.

(** The cache-miss arm of the cacheable branch. *)
Definition fetch_and_cache (parsed requestId : json) (cacheKey : string) : M unit :=
  do fetched <- sendToServerWithRetry parsed 0;
  (* the object the promise resolved with *)
  do response <- (λ p, let r := alloc fetched p in (Fulfilled r.1, r.2));
  do now <- Date_now_read;
  act (setCachedResponse now cacheKey response);;
  do out <- (if not_null requestId
             then (λ p, let r := alloc (spread_with_id (deref response p) requestId) p in
                        (Fulfilled r.1, r.2))
             else ret response);
  do v <- (λ p, (Fulfilled (deref out p), p));
  write_line v.

(** Whether [!timestamp] fails in [getCachedResponse], so that [Date.now()]
    is called. *)
Definition has_timestamp (cacheKey : string) (p : proxy) : bool :=
  match cacheTimestamps p !! cacheKey with
  | Some timestamp => negb (timestamp =? 0)
  | None => false
  end.

(** The call [this.getCachedResponse(cacheKey)]: the clock is read for a
    key with a truthy timestamp, and not otherwise. *)
Definition getCachedResponse_call (cacheKey : string) : M (option nat) :=
  λ p,
    let now := Date_now (clock_reads p) in
    let p := if has_timestamp cacheKey p
             then set_clock_reads (S (clock_reads p)) p
             else p in
    let r := getCachedResponse now cacheKey p in
    (Fulfilled r.1, r.2).

(** The cacheable branch of [handleIncomingMessage]. *)
Definition cached_branch (parsed requestId : json) : M unit :=
  let cacheKey := getCacheKey parsed in
  do cachedResponse <- getCachedResponse_call cacheKey;
  do hit <- (λ p, (Fulfilled
                     match cachedResponse with
                     | Some l => if truthy (deref l p) then Some (deref l p) else None
                     | None => None
                     end, p));
  match hit with
  | Some cached => reply_from_cache cached requestId
  | None => fetch_and_cache parsed requestId cacheKey
  end.

(** The argument of the first [this.log] of [handleIncomingMessage]:
    [`... ${parsed.method || 'unknown'} (id: ${requestId})`], after the
    counter, which is a number. *)
Definition request_log (method : option json) (requestId : json)
  : completion string :=
  cbind (template Number_toString (or_literal method (JStr "unknown")))
    (λ m,
       cbind (template Number_toString requestId)
         (λ i, Normal ("Handling request: " +:+ m +:+ " (id: " +:+ i +:+ ")"))).

(** The [try] block of [handleIncomingMessage] once [requestId] is set. *)
Definition handle_parsed (parsed requestId : json) : M unit :=
  act (λ p, set_requestCounter (S (requestCounter p)) p);;
  do method <- lift (member parsed "method");
  do _ <- lift (request_log method requestId);
  do notification <- lift (is_notification method);
  if notification then ret tt
  else if is_string_literal "initialize" method
  then
    do response <- sendToServerWithRetry parsed 0;
    write_line (with_request_id response requestId);;
    try_catch
      (do _ <- sendToServerWithRetry initNotification 0;
       ret tt)
      (λ _, ret tt)
  else if shouldCache parsed
  then cached_branch parsed requestId
  else
    do response <- sendToServerWithRetry parsed 0;
    write_line (with_request_id response requestId).

(** [handleIncomingMessage(message)] *)
Definition handleIncomingMessage (message : string) : M unit :=
  match JSON_parse message with
  | SyntaxError m => write_line (internal_error JNull (JsError "SyntaxError" m))
  | Parsed parsed =>
      match member parsed "id" with
      | Throw error => write_line (internal_error JNull error)
      | Normal i =>
          let requestId := default JNull i in
          try_catch (handle_parsed parsed requestId)
            (λ error, write_line (internal_error requestId error))
      end
  end.

(** [request?.id || null] *)
Definition id_or_null (request : json) : json :=
  or_literal (match request with JNull => None | _ => prop request "id" end) JNull.

(** [handleHttpRequest(request)] *)
Definition handleHttpRequest (request : json) : M json :=
  try_catch
    (do response <- sendToServerWithRetry request 0;
     ret response)
    (λ error, ret (internal_error (id_or_null request) error)).

(** [proxyRequest(request)] *)
Definition proxyRequest (request : json) : M json :=
  try_catch
    (do response <- sendToServerWithRetry request 0;
     ret response)
    (λ error, ret (internal_error (id_or_null request) error)).

(** Whether the first log line of the handler can be built: the method
    (or the literal in its place) and the [id] (or [null]) convert to
    strings. *)
Definition printable (parsed : json) : bool :=
  negb (ToPrimitive_throws (or_literal (prop parsed "method") (JStr "unknown")))
  && negb (ToPrimitive_throws (default JNull (prop parsed "id"))).

(** Whether [JSON.stringify] writes the value as it is: no number in it is
    an infinity. *)
Fixpoint serializable (v : json) : bool :=
  match v with
  | JInfinity _ => false
  | JArr xs => forallb serializable xs
  | JObj fs => forallb (λ kv, serializable kv.2) fs
  | _ => true
  end.

(** How often the cache lookup of a message reads the clock. *)
Definition lookup_reads (cacheKey : string) (p : proxy) : nat :=
  if has_timestamp cacheKey p then 1 else 0.

(** The call of [Date.now()], counted from 0, whose value becomes the
    timestamp of a response stored by a message that misses the cache:
    the one after the lookup. *)
Definition store_index (cacheKey : string) (p : proxy) : nat :=
  (clock_reads p + lookup_reads cacheKey p)%nat.

(** How the promise of [sendToServer] settles for a given exchange. *)
Definition outcome_of (ex : exchange) : settled json :=
  match ex with
  | RequestError e => Rejected e
  | RequestTimeout => Rejected (JsError "Error" "Request timeout")
  | Response res =>
      if includes (default "" (header "content-type" (headers res))) "text/event-stream"
      then promise (handleSSEResponse res)
      else handleJSONResponse res
  end.

(** ** The event stream as the specification describes it

    The text of a stream is the concatenation of its chunks; its blocks are
    the pieces between blank lines; the payload of a block is the
    concatenation of its [data: ] lines; the response is the parse of the
    first payload that parses. *)
Definition blank_line : string := String newline (String newline "").

Definition stream_text (cs : list string) : string :=
  foldr String.append "" cs.

Definition sse_blocks (text : string) : list string := split blank_line text.

Definition payload (block : string) : string := data (parseSSEEvent block).

Fixpoint first_json (payloads : list string) : option json :=
  match payloads with
  | [] => None
  | d :: ds =>
      match JSON_parse d with
      | Parsed v => Some v
      | SyntaxError _ => first_json ds
      end
  end.

(** The errors logged for the payloads that come before the first one that
    parses: one line per non-empty payload. *)
Fixpoint skipped_before_first_json (payloads : list string) : list string :=
  match payloads with
  | [] => []
  | d :: ds =>
      match JSON_parse d with
      | Parsed _ => []
      | SyntaxError m =>
          (if nonempty d then ["Invalid JSON in SSE: SyntaxError: " +:+ m] else [])
          ++ skipped_before_first_json ds
      end
  end.

(** ** The well-formed envelope as the specification describes it

    The protocol-version field is the literal ["2.0"], exactly one of
    [result]/[error] is defined, and the value does not carry an
    exception-shaped field while [result] and [error] are both missing. *)
Definition spec_well_formed (v : json) : Prop :=
  prop v "jsonrpc" = Some (JStr "2.0")
  ∧ ((prop v "result" ≠ None ∧ prop v "error" = None)
     ∨ (prop v "result" = None ∧ prop v "error" ≠ None))
  ∧ ¬ (∃ field, field ∈ phpErrorFields ∧ prop v field ≠ None
                ∧ prop v "result" = None ∧ prop v "error" = None).

(** The envelopes the code lets through: a plain object whose protocol
    version is ["2.0"], with [result] or [error] defined, and with no
    exception-shaped field holding a string while [result] and [error]
    are both falsy. *)
Definition passes_through (v : json) : Prop :=
  (∃ fs, v = JObj fs)
  ∧ prop v "jsonrpc" = Some (JStr "2.0")
  ∧ (prop v "result" ≠ None ∨ prop v "error" ≠ None)
  ∧ ¬ (∃ field s, field ∈ phpErrorFields ∧ prop v field = Some (JStr s)
                  ∧ truthy_opt (prop v "result") = false
                  ∧ truthy_opt (prop v "error") = false).

(** Every exchange the server offers settles the promise of [sendToServer]. *)
Definition server_settles : Prop :=
  ∀ history, outcome_of (server history) ≠ Pending.

(** The entry of the cache under [key]: the object retained and its time. *)
Definition cache_entry (key : string) (p : proxy) : option (json * Z) :=
  match toolCache p !! key, cacheTimestamps p !! key with
  | Some l, Some t => Some (deref l p, t)
  | _, _ => None
  end.

(** The outcome of the cache lookup of [handleIncomingMessage] at time
    [now]: the retained object when there is a fresh, truthy entry.  The
    time matters for a key with a truthy timestamp only. *)
Definition fresh_entry (now : Z) (key : string) (p : proxy) : option json :=
  match (getCachedResponse now key p).1 with
  | Some l => if truthy (deref l p) then Some (deref l p) else None
  | None => None
  end.

(** Whether a blank line starts the text. *)
Definition at_blank_line (s : string) : bool := startsWith s blank_line.

(** Whether the text consists of white space only. *)
Fixpoint all_space (s : string) : bool :=
  match s with
  | EmptyString => true
  | String c r => Ascii.is_space c && all_space r
  end.

(** Two states of the SSE consumer that agree on the promise and the log. *)
Definition same_progress (a b : sse_state) : Prop :=
  promise a = promise b ∧ logged a = logged b.

(** What a dispatch leaves alone: everything but the traffic, the session
    identifier, the timers, the random draws and the error log. *)
Definition outside_transport (p p' : proxy) : Prop :=
  heap p' = heap p ∧ stdout p' = stdout p ∧ toolCache p' = toolCache p
  ∧ cacheTimestamps p' = cacheTimestamps p
  ∧ requestCounter p' = requestCounter p ∧ clock_reads p' = clock_reads p.

(** The exchange of the [k]-th dispatch of [request] in a row, counted
    from 1, after the traffic of [p]. *)
Definition nth_exchange (request : json) (p : proxy) (k : nat) : exchange :=
  server (posted p ++ replicate k request).

(** The line [process.stdout.write] receives for an envelope. *)
Definition line_of (envelope : json) : string :=
  JSON_stringify Number_toString envelope +:+ String newline "".

(** [{ ...cached }] with [id] assigned when the request has one. *)
Definition copy_with_request_id (cached requestId : json) : json :=
  if not_null requestId
  then JObj (set_field "id" requestId (spread cached))
  else JObj (spread cached).

(** The envelope a forwarded request is answered with, from the way the
    retried dispatch settles. *)
Definition forwarded_reply (requestId : json) (r : settled json) : option json :=
  match r with
  | Fulfilled response => Some (with_request_id response requestId)
  | Rejected error => Some (internal_error requestId error)
  | Pending => None
  end.

(** The envelope [handleIncomingMessage] is to write for a parsed message
    that is not [null], if any: the error envelope when the method or the
    [id] cannot be printed, nothing for a notification method, the copy of
    the fresh cache entry for a cacheable method that has one, and
    otherwise what the retried dispatch gives. *)
Definition handler_reply (parsed : json) (p : proxy) : option json :=
  let requestId := default JNull (prop parsed "id") in
  let method := prop parsed "method" in
  match cbind (request_log method requestId) (λ _, is_notification method) with
  | Normal true => None
  | Throw error => Some (internal_error requestId error)
  | Normal false =>
      let forwarded :=
        forwarded_reply requestId (sendToServerWithRetry parsed 0 p).1 in
      if is_string_literal "initialize" method then forwarded
      else if shouldCache parsed
      then
        match fresh_entry (Date_now (clock_reads p)) (getCacheKey parsed) p with
        | Some cached => Some (copy_with_request_id cached requestId)
        | None => forwarded
        end
      else forwarded
  end.

(** ** The MCP server front end ([src/server.ts])

    The closure of [createServer] holds the flag
    [leantimeSessionInitialized] and the proxy instance; its asynchronous
    functions thread both, one request being handled at a time.  The
    handler of [CallToolRequestSchema] is left out: its results go through
    [JSON.stringify] with indentation and the messages of the SDK's
    [McpError]. *)
Record front := { leantimeSessionInitialized : bool; instance : proxy }.

Definition F (A : Type) : Type := front → settled A * front.

Definition fret {A} (a : A) : F A := λ s, (Fulfilled a, s).

Definition fbind {A B} (m : F A) (k : A → F B) : F B :=
  λ s,
    match m s with
    | (Fulfilled a, s') => k a s'
    | (Rejected e, s') => (Rejected e, s')
    | (Pending, s') => (Pending, s')
    end.

Definition ftry_catch {A} (m : F A) (h : js_error → F A) : F A :=
  λ s,
    match m s with
    | (Rejected e, s') => h e s'
    | r => r
    end.

(** A method of the proxy instance called from the closure. *)
Definition call {A} (m : M A) : F A :=
  λ s,
    let r := m (instance s) in
    (r.1, {| leantimeSessionInitialized := leantimeSessionInitialized s;
             instance := r.2 |}).

Definition fthrow {A} (e : js_error) : F A := λ s, (Rejected e, s).

Definition set_leantimeSessionInitialized (b : bool) : F unit :=
  λ s, (Fulfilled tt, {| leantimeSessionInitialized := b; instance := instance s |}).

Declare Scope front_scope.
Delimit Scope front_scope with front.
Notation "'do' x <- m ; k" := (fbind m (λ x, k))
  (at level 10, x name, m at level 100, k at level 200) : front_scope.
Notation "m ;; k" := (fbind m (λ _, k))
  (at level 100, k at level 200, right associativity) : front_scope.

Definition initRequest (now : Z) : json :=
  JObj [("jsonrpc", JStr "2.0");
        ("id", JNum (inject_Z now));
        ("method", JStr "initialize");
        ("params",
         JObj [("protocolVersion", JStr "2024-11-05");
               ("capabilities", JObj [("tools", JObj [])]);
               ("clientInfo",
                JObj [("name", JStr "leantime-mcp"); ("version", JStr "1.6.2")])])].

Definition initializedNotification : json :=
  JObj [("jsonrpc", JStr "2.0");
        ("method", JStr "notifications/initialized");
        ("params", JObj [])].

(** [ensureLeantimeSession()] *)
Definition ensureLeantimeSession : F unit :=
  (λ s,
     if leantimeSessionInitialized s then (Fulfilled tt, s)
     else
       ftry_catch
         (do now <- call Date_now_read;
          do initResponse <- call (proxyRequest (initRequest now));
          do error <- call (lift (member initResponse "error"));
          if truthy_opt error then fret tt
          else
            call (proxyRequest initializedNotification);;
            set_leantimeSessionInitialized true)
         (λ _, fret tt) s)%front.

Definition toolsListRequest (now : Z) : json :=
  JObj [("jsonrpc", JStr "2.0");
        ("id", JNum (inject_Z now));
        ("method", JStr "tools/list");
        ("params", JObj [])].

(** [result?.tools] *)
Definition optional_tools (result : option json) : option json :=
  match result with
  | None | Some JNull => None
  | Some r => prop r "tools"
  end.

(** The handler of [ListToolsRequestSchema].  The [McpError] thrown for an
    error response carries the message given to its constructor; the
    [catch] block drops it. *)
Definition listTools : F json :=
  (ftry_catch
     (ensureLeantimeSession;;
      do now <- call Date_now_read;
      do response <- call (proxyRequest (toolsListRequest now));
      do error <- call (lift (member response "error"));
      if truthy_opt error
      then
        fthrow
          (JsError "McpError"
             ("Failed to list tools: " +:+
              ToString_opt Number_toString
                (match error with Some e => prop e "message" | None => None end)))
      else
        do result <- call (lift (member response "result"));
        fret (JObj [("tools", or_literal (optional_tools result) (JArr []))]))
     (λ _, fret (JObj [("tools", JArr [])])))%front.

(** The pause before the retry that follows the [k]-th failed dispatch of a
    run started at [attempt] in the state [p], counted from 0: the backoff
    delay of that attempt, with the draw of [Math.random()] it consumes. *)
Definition nth_pause (attempt : Z) (p : proxy) (k : nat) : float :=
  calculateBackoffDelay (retry_of config) (attempt + Z.of_nat k)
    (if jitter (retry_of config) then Math_random (random_draws p + k) else 0).

(** The steps every state change of a forwarded message is made of: a
    relation between states that each of these steps respects is respected
    by handling a message that is not served through the cache. *)
Record dispatch_closed (R : proxy → proxy → Prop) : Prop := {
  step_refl : ∀ p, R p p;
  step_trans : ∀ p q r, R p q → R q r → R p r;
  step_dispatch : ∀ request p, R p (sendToServer request p).2;
  step_pause :
    ∀ attempt p, R p (sleep (backoff attempt p).1 (backoff attempt p).2);
  step_counter : ∀ n p, R p (set_requestCounter n p);
  step_write : ∀ line p, R p (write line p)
}.

(** With the steps of the cacheable branch, the steps of every message.
    The response stored by [setCachedResponse] is an object already in the
    store. *)
Record step_closed (R : proxy → proxy → Prop) : Prop := {
  step_forward : dispatch_closed R;
  step_clock : ∀ n p, R p (set_clock_reads n p);
  step_alloc : ∀ v p, R p (set_heap (heap p ++ [v]) p);
  step_lookup : ∀ now key p, R p (getCachedResponse now key p).2;
  step_store :
    ∀ now key l p, (l < length (heap p))%nat → R p (setCachedResponse now key l p)
}.

(** The cache and the object store are the same in both states. *)
Definition cache_untouched (p p' : proxy) : Prop :=
  toolCache p' = toolCache p ∧ cacheTimestamps p' = cacheTimestamps p
  ∧ heap p' = heap p.

(** The objects of the store are still there, unchanged. *)
Definition heap_extended (p p' : proxy) : Prop :=
  ∃ more, heap p' = heap p ++ more.

(** The session identifier is kept, or replaced by a non-empty one. *)
Definition session_kept (p p' : proxy) : Prop :=
  sessionId p' = sessionId p ∨ ∃ s, s ≠ "" ∧ sessionId p' = Some s.

(** The two maps of the cache have the same keys, and every cached
    address is one of the object store. *)
Definition cache_consistent (p : proxy) : Prop :=
  (∀ key, is_Some (toolCache p !! key) ↔ is_Some (cacheTimestamps p !! key))
  ∧ (∀ key l, toolCache p !! key = Some l → (l < length (heap p))%nat).

(** The state after the messages are handled one after the other. *)
Definition handle_all (messages : list string) (p : proxy) : proxy :=
  foldl (λ q message, (handleIncomingMessage message q).2) p messages.

(** ** Backoff calculator *)

(** C7, at the input where the code leaves it. With a base delay of 0 the
    product [baseDelay * Math.pow(2, attempt)] is [0 * Infinity] from attempt
    1024 on, and [Math.min] and [Math.max] hand the [NaN] on: the delay
    returned is [NaN], with and without jitter, which is neither at least 0
    nor at most [maxDelay * 1.25]. At attempt 1023 the delay is still 0. *)
Theorem backoff_delay_overflow :
  calculateBackoffDelay (Scenario.zero_delay false) 1024 0 = nan
  ∧ calculateBackoffDelay (Scenario.zero_delay true) 1024 0.75 = nan
  ∧ (0 <=? nan)%float = false
  ∧ (nan <=? 30000 * 1.25)%float = false
  ∧ calculateBackoffDelay (Scenario.zero_delay false) 1023 0 = 0%float.
Proof. by vm_compute. Qed.

(** ** Response cache *)

Lemma getCachedResponse_heap now key p :
  heap (getCachedResponse now key p).2 = heap p.
Proof.
  unfold getCachedResponse.
  destruct (cacheTimestamps p !! key) as [t|]; [|reflexivity].
  destruct ((t =? 0) || (now - t >? CACHE_TTL)); reflexivity.
Qed.

(** C3, in the form that holds of the code. A response stored under a key at a
    non-zero time [T] is returned unchanged by a lookup at time [T + Δ] when
    [Δ ≤ 300000], and is reported absent and purged from both maps when [Δ >
    300000]. *)
Theorem cache_ttl (key : string) (response : nat) (T Δ : Z) (p : proxy) :
  T ≠ 0 →
  let p1 := setCachedResponse T key response p in
  heap p1 = heap p
  ∧ (Δ ≤ 300000 → getCachedResponse (T + Δ) key p1 = (Some response, p1))
  ∧ (300000 < Δ →
     (getCachedResponse (T + Δ) key p1).1 = None
     ∧ toolCache (getCachedResponse (T + Δ) key p1).2 !! key = None
     ∧ cacheTimestamps (getCachedResponse (T + Δ) key p1).2 !! key = None).
Proof.
  intros HT p1. split; [reflexivity|].
  assert (cacheTimestamps p1 !! key = Some T) as Hts
    by (unfold p1, setCachedResponse; simpl; apply lookup_insert_eq).
  assert (toolCache p1 !! key = Some response) as Hc
    by (unfold p1, setCachedResponse; simpl; apply lookup_insert_eq).
  assert ((T =? 0) = false) as HT0 by (apply Z.eqb_neq; exact HT).
  unfold getCachedResponse. rewrite Hts, HT0. simpl orb.
  replace (T + Δ - T) with Δ by lia.
  unfold CACHE_TTL. split; intros HΔ.
  - destruct (Δ >? 5 * 60 * 1000) eqn:Hgt; [lia|]. by rewrite Hc.
  - destruct (Δ >? 5 * 60 * 1000) eqn:Hgt; [|lia].
    simpl. by rewrite !lookup_delete_eq.
Qed.

(** ** Error normalizer *)

Lemma member_truthy (v : json) (k : string) :
  truthy v = true → member v k = Normal (prop v k).
Proof. by destruct v. Qed.

(** The [try] block of the normalizer never throws: its [catch] block,
    the only place that builds the [-32700] envelope, is never entered. *)
Lemma convert_try_normal (responseData : string) (parsed : json) :
  ∃ requestId code message payload,
    convert_try responseData parsed
    = Normal (error_envelope requestId code message payload).
Proof.
  unfold convert_try.
  destruct (truthy parsed) eqn:Ht.
  - rewrite !member_truthy by done. cbn [cbind andb].
    destruct (typeof_object parsed); [|by eauto 6].
    destruct (truthy_opt (prop parsed "message") || truthy_opt (prop parsed "exception"));
      [by eauto 6|].
    destruct (Array_isArray parsed); by eauto 6.
  - cbn [cbind andb]. by eauto 6.
Qed.

Lemma convert_shape (responseData : string) (parsed : json) :
  ∃ requestId code message payload,
    convertServerErrorToJsonRpc responseData parsed
    = error_envelope requestId code message payload.
Proof.
  destruct (convert_try_normal responseData parsed) as (i & c & m & pl & H).
  unfold convertServerErrorToJsonRpc. rewrite H. by eauto 6.
Qed.

(** The envelope the fallback builder returns for any body and any parsed
    value has the protocol version ["2.0"], an [error] and no [result]. *)
Lemma convert_error_only (responseData : string) (parsed : json) :
  prop (convertServerErrorToJsonRpc responseData parsed) "jsonrpc"
  = Some (JStr "2.0")
  ∧ (∃ e, prop (convertServerErrorToJsonRpc responseData parsed) "error" = Some e)
  ∧ prop (convertServerErrorToJsonRpc responseData parsed) "result" = None.
Proof.
  destruct (convert_shape responseData parsed) as (i & c & m & pl & ->).
  split; [reflexivity|]. split; [|reflexivity]. by eexists.
Qed.

Lemma error_envelope_valid requestId code message payload :
  isValidJsonRpcResponse (error_envelope requestId code message payload) = true.
Proof. reflexivity. Qed.

Lemma existsb_phpErrorFields (f : string → bool) :
  existsb f phpErrorFields = true ↔ ∃ field, field ∈ phpErrorFields ∧ f field = true.
Proof.
  rewrite existsb_exists. split; intros (x & Hx & Hf); exists x; split; try done.
  - by apply list_elem_of_In.
  - by apply list_elem_of_In.
Qed.

Lemma typeof_string_iff (v : option json) :
  negb (is_undefined v) && typeof_string v = true ↔ ∃ s, v = Some (JStr s).
Proof.
  destruct v as [[]|]; simpl; split; try discriminate; try by intros [? [=]].
  by eauto.
Qed.

Lemma isValidJsonRpcResponse_iff (v : json) :
  isValidJsonRpcResponse v = true ↔ passes_through v.
Proof.
  unfold isValidJsonRpcResponse, passes_through.
  destruct v as [| b | n | neg | s | xs | fs].
  1-6: (split; [cbn; try done; repeat (case_match; try done) | by intros [[? [=]] _]]).
  cbn [truthy typeof_object negb orb].
  { destruct (prop (JObj fs) "jsonrpc") as [[| | | | ver | |]|] eqn:Hj;
      try (cbn [is_string_literal negb]; split; [done | by intros (_ & [=] & _)]).
    cbn [is_string_literal].
    destruct (String.eqb ver "2.0") eqn:Hver; cbn [negb].
    2:{ split; [done|]. intros (_ & [= ->] & _). by rewrite String.eqb_refl in Hver. }
    apply String.eqb_eq in Hver as ->.
    destruct (is_undefined (prop (JObj fs) "result") && is_undefined (prop (JObj fs) "error"))
      eqn:Hu.
    { split; [done|]. intros (_ & _ & Hd & _).
      apply andb_true_iff in Hu as [Hr He].
      destruct (prop (JObj fs) "result"), (prop (JObj fs) "error"); try done.
      by destruct Hd. }
    rewrite negb_true_iff, <- not_true_iff_false, existsb_phpErrorFields.
    split.
    + intros Hno. split; [by eauto|]. split; [done|]. split.
      { destruct (prop (JObj fs) "result"), (prop (JObj fs) "error"); by auto. }
      intros (field & s & Hin & Hs & Hr & He). apply Hno. exists field.
      split; [done|]. rewrite Hs, Hr, He. reflexivity.
    + intros (_ & _ & _ & Hno) (field & Hin & Hf). apply Hno.
      apply andb_true_iff in Hf as [Hf He]. apply andb_true_iff in Hf as [Hf Hr].
      apply typeof_string_iff in Hf as [s Hs].
      exists field, s. rewrite negb_true_iff in Hr, He. done. }
Qed.

(** C2, in the form that holds of the code. A parsed response is passed
    through unchanged exactly when it is an object whose protocol-version
    field is ["2.0"], with [result] or [error] defined (both may be), and with
    no exception-shaped field ([message], [exception], [file], [line],
    [trace]) holding a string while [result] and [error] are both falsy;
    otherwise it is replaced by the envelope the normalizer builds. *)
Theorem pass_through_iff (body : string) (parsed : json) :
  JSON_parse body = Parsed parsed →
  (handleJSONResponse_end body = parsed ↔ passes_through parsed)
  ∧ (¬ passes_through parsed →
     handleJSONResponse_end body = convertServerErrorToJsonRpc body parsed).
Proof.
  intros Hparse. unfold handleJSONResponse_end. rewrite Hparse.
  rewrite <- isValidJsonRpcResponse_iff.
  destruct (isValidJsonRpcResponse parsed) eqn:Hv.
  - split; [done|]. by intros [].
  - split; [|done]. split; [|done].
    intros Heq. rewrite <- Hv, <- Heq.
    destruct (convert_shape body parsed) as (i & c & m & pl & ->).
    apply error_envelope_valid.
Qed.

(** Whatever the body, the value the ['end'] handler resolves with has the
protocol version ["2.0"] and a [result] or an [error]. *)
Lemma end_handler_envelope (body : string) :
  prop (handleJSONResponse_end body) "jsonrpc" = Some (JStr "2.0")
  ∧ (prop (handleJSONResponse_end body) "result" ≠ None
     ∨ prop (handleJSONResponse_end body) "error" ≠ None).
Proof.
  unfold handleJSONResponse_end.
  destruct (JSON_parse body) as [parsed|reason].
  - destruct (isValidJsonRpcResponse parsed) eqn:Hv.
    + apply isValidJsonRpcResponse_iff in Hv as (_ & H1 & H2 & _). by split.
    + destruct (convert_shape body parsed) as (i & c & m & pl & ->).
      split; [done|]. by right.
  - destruct (convert_shape body JNull) as (i & c & m & pl & ->).
    split; [done|]. by right.
Qed.

(** C6, in the form that holds of the code. The normalizer never raises: the
    [try] block of the fallback builder ends normally for any body and any
    parsed value, and what the builder returns has the protocol version
    ["2.0"], an [error] and no [result]. For any body, the value the ['end']
    handler resolves with has the protocol version ["2.0"] and a [result] or
    an [error]; it has exactly one of them unless the body is itself a value
    with both, which is passed through unchanged. *)
Theorem normalizer_total (body : string) :
  (∀ parsed,
     (∃ envelope, convert_try body parsed = Normal envelope)
     ∧ prop (convertServerErrorToJsonRpc body parsed) "jsonrpc" = Some (JStr "2.0")
     ∧ (∃ e, prop (convertServerErrorToJsonRpc body parsed) "error" = Some e)
     ∧ prop (convertServerErrorToJsonRpc body parsed) "result" = None)
  ∧ prop (handleJSONResponse_end body) "jsonrpc" = Some (JStr "2.0")
  ∧ (prop (handleJSONResponse_end body) "result" ≠ None
     ∨ prop (handleJSONResponse_end body) "error" ≠ None)
  ∧ ((∀ parsed,
        JSON_parse body = Parsed parsed →
        prop parsed "result" = None ∨ prop parsed "error" = None) →
     (prop (handleJSONResponse_end body) "result" ≠ None
      ∧ prop (handleJSONResponse_end body) "error" = None)
     ∨ (prop (handleJSONResponse_end body) "result" = None
        ∧ prop (handleJSONResponse_end body) "error" ≠ None)).
Proof.
  split.
  { intros parsed.
    destruct (convert_try_normal body parsed) as (i & c & m & pl & H).
    split; [by eauto|]. apply convert_error_only. }
  destruct (end_handler_envelope body) as [Hversion Hone].
  split; [done|]. split; [done|].
  intros Hnotboth. unfold handleJSONResponse_end in *.
  destruct (JSON_parse body) as [parsed|reason].
  - destruct (isValidJsonRpcResponse parsed) eqn:Hv.
    + destruct (Hnotboth parsed eq_refl) as [Hr|He].
      * right. split; [done|]. by destruct Hone.
      * left. split; [|done]. by destruct Hone.
    + destruct (convert_error_only body parsed) as (_ & [e He] & Hr).
      right. split; [done|]. by rewrite He.
  - destruct (convert_error_only body JNull) as (_ & [e He] & Hr).
    right. split; [done|]. by rewrite He.
Qed.

(** A body that does not parse gets the generic envelope. *)
Lemma unparseable_body_envelope (body reason : string) :
  JSON_parse body = SyntaxError reason →
  handleJSONResponse_end body
  = error_envelope JNull (-32603) (JStr "Invalid server response")
      [("type", JStr "malformed_response");
       ("original", JStr (substring_to 200 body))].
Proof. intros H. unfold handleJSONResponse_end. by rewrite H. Qed.

(** ** Splitting a text on blank lines *)

Lemma append_nil_l (x : string) : "" +:+ x = x.
Proof. reflexivity. Qed.

Lemma append_cons (c : ascii) (r x : string) : String c r +:+ x = String c (r +:+ x).
Proof. reflexivity. Qed.

Lemma append_nil_r (x : string) : x +:+ "" = x.
Proof. induction x as [|c r IH]; [done|]. by rewrite append_cons, IH. Qed.

Lemma append_assoc (x y z : string) : (x +:+ y) +:+ z = x +:+ (y +:+ z).
Proof. induction x as [|c r IH]; [done|]. by rewrite !append_cons, IH. Qed.

Lemma split_from_nonempty (sep : string) (k : nat) (s : string) :
  split_from sep k s ≠ [].
Proof.
  revert k. induction s as [|c r IH]; intros k; cbn [split_from]; [done|].
  destruct k; [|apply IH].
  destruct (startsWith (String c r) sep); [done|].
  specialize (IH 0%nat). destruct (split_from sep 0 r); simpl; congruence.
Qed.

Lemma split_nonempty (sep s : string) : split sep s ≠ [].
Proof. apply split_from_nonempty. Qed.

Lemma at_blank_line_true (s : string) :
  at_blank_line s = true → ∃ r, s = String newline (String newline r).
Proof.
  destruct s as [|c [|d r]]; unfold at_blank_line, blank_line; cbn [startsWith].
  - done.
  - by rewrite andb_false_r.
  - intros [H1 [H2 _]%andb_true_iff]%andb_true_iff.
    apply Ascii.eqb_eq in H1 as <-. apply Ascii.eqb_eq in H2 as <-. by eauto.
Qed.

Lemma split_blank_empty : split blank_line "" = [""].
Proof. reflexivity. Qed.

Lemma split_blank_sep (r : string) :
  split blank_line (String newline (String newline r)) = "" :: split blank_line r.
Proof. reflexivity. Qed.

Lemma split_blank_char (c : ascii) (r : string) :
  at_blank_line (String c r) = false →
  split blank_line (String c r) = cons_head c (split blank_line r).
Proof.
  intros H. unfold split. cbn [split_from].
  unfold at_blank_line in H. by rewrite H.
Qed.

Lemma at_blank_line_append (c d : ascii) (r x : string) :
  at_blank_line (String c (String d r) +:+ x) = at_blank_line (String c (String d r)).
Proof. reflexivity. Qed.

Lemma cons_head_app (c : ascii) (l1 l2 : list string) :
  l1 ≠ [] → cons_head c (l1 ++ l2) = cons_head c l1 ++ l2.
Proof. by destruct l1. Qed.

Lemma pop_rest_cons (x : string) (l : list string) :
  l ≠ [] → pop_rest (x :: l) = x :: pop_rest l.
Proof. by destruct l. Qed.

Lemma pop_last_cons (x : string) (l : list string) :
  l ≠ [] → pop_last (x :: l) = pop_last l.
Proof. by destruct l. Qed.

Lemma pop_rest_app (l1 l2 : list string) :
  l2 ≠ [] → pop_rest (l1 ++ l2) = l1 ++ pop_rest l2.
Proof.
  intros H. unfold pop_rest. induction l1 as [|x l1 IH]; [done|].
  cbn [app]. rewrite <- IH. 
  change (removelast (x :: l1 ++ l2)) with
    (match l1 ++ l2 with [] => [] | _ :: _ => x :: removelast (l1 ++ l2) end).
  destruct (l1 ++ l2) eqn:E; [|done]. by apply app_eq_nil in E as [_ ?].
Qed.

Lemma pop_last_app (l1 l2 : list string) :
  l2 ≠ [] → pop_last (l1 ++ l2) = pop_last l2.
Proof.
  intros H. unfold pop_last. induction l1 as [|x l1 IH]; [done|].
  cbn [app]. rewrite <- IH. apply pop_last_cons.
  intros E. by apply app_eq_nil in E as [_ ?].
Qed.

Lemma pop_rest_pop_last (l : list string) :
  l ≠ [] → l = pop_rest l ++ [default "" (pop_last l)].
Proof.
  induction l as [|x l IH]; [done|]. intros _.
  destruct l as [|y l]; [done|].
  rewrite pop_rest_cons, pop_last_cons by done. cbn [app]. f_equal. by apply IH.
Qed.

Lemma split_blank_single (r p : string) :
  split blank_line r = [p] → p = r.
Proof.
  revert p. induction r as [|c r IH]; intros p.
  - by intros [= <-].
  - destruct (at_blank_line (String c r)) eqn:Hsep.
    + apply at_blank_line_true in Hsep as [r' [= -> ->]].
      rewrite split_blank_sep. intros [= _ H]. by apply split_nonempty in H.
    + rewrite (split_blank_char _ _ Hsep).
      destruct (split blank_line r) as [|p1 [|p2 ps]] eqn:Hr.
      * by apply split_nonempty in Hr.
      * intros [= <-]. f_equal. by apply IH.
      * done.
Qed.

(** Feeding more text continues the split from the unfinished last piece:
    this is what lets the ['data'] handler keep only [events.pop()]. *)
Lemma split_blank_append (s x : string) :
  split blank_line (s +:+ x)
  = pop_rest (split blank_line s)
    ++ split blank_line (default "" (pop_last (split blank_line s)) +:+ x).
Proof.
  remember (String.length s) as n eqn:Hn. revert s Hn.
  induction n as [n IH] using lt_wf_ind. intros s Hn.
  destruct s as [|c r]; [done|].
  destruct (at_blank_line (String c r)) eqn:Hsep.
  - apply at_blank_line_true in Hsep as [r' [= -> ->]].
    rewrite !append_cons, !split_blank_sep.
    rewrite (IH (String.length r')) by (simpl in Hn; first [lia | done]).
    pose proof (split_nonempty blank_line r').
    by rewrite pop_rest_cons, pop_last_cons.
  - rewrite (split_blank_char _ _ Hsep).
    destruct r as [|d r'].
    + (* the text is the single character [c] *)
      done.
    + rewrite append_cons.
      rewrite split_blank_char by (by rewrite <- append_cons, at_blank_line_append).
      rewrite (IH (String.length (String d r'))) by (simpl in Hn |- *; first [lia | done]).
      destruct (split blank_line (String d r')) as [|p [|p2 ps]] eqn:Hsp.
      * by apply split_nonempty in Hsp.
      * (* one piece so far: it is the whole text *)
        apply split_blank_single in Hsp as ->.
        cbn [pop_rest pop_last removelast last default from_option id cons_head app].
        rewrite (append_cons c).
        by rewrite (split_blank_char c)
          by (by rewrite <- (append_cons c), at_blank_line_append).
      * rewrite cons_head_app by done. reflexivity.
Qed.

(** ** Blocks without payload *)

Lemma trimStart_empty (s : string) : trimStart s = "" → all_space s = true.
Proof.
  induction s as [|c r IH]; [done|]. cbn [trimStart all_space].
  destruct (Ascii.is_space c); [exact IH | done].
Qed.

Lemma all_space_trimStart (s : string) :
  all_space (trimStart s) = true → all_space s = true.
Proof.
  induction s as [|c r IH]; [done|]. cbn [trimStart].
  destruct (Ascii.is_space c) eqn:Hc; [|done].
  intros H. cbn [all_space]. by rewrite Hc, IH.
Qed.

Lemma rev_app_empty (s acc : string) :
  String.rev_app s acc = "" → s = "" ∧ acc = "".
Proof.
  revert acc. induction s as [|c r IH]; intros acc; cbn [String.rev_app]; [done|].
  by intros [_ [=]]%IH.
Qed.

Lemma all_space_rev_app (s acc : string) :
  all_space (String.rev_app s acc) = all_space s && all_space acc.
Proof.
  revert acc. induction s as [|c r IH]; intros acc; cbn [String.rev_app all_space]; [done|].
  rewrite IH. cbn [all_space]. by destruct (Ascii.is_space c), (all_space r).
Qed.

Lemma trim_empty (s : string) : trim s = "" → all_space s = true.
Proof.
  unfold trim, trimEnd, String.rev. intros [H _]%rev_app_empty.
  apply trimStart_empty in H. rewrite all_space_rev_app, andb_true_r in H.
  by apply all_space_trimStart.
Qed.

Lemma all_space_cons_head (c : ascii) (pieces : list string) :
  Ascii.is_space c = true →
  Forall (λ l, all_space l = true) pieces →
  Forall (λ l, all_space l = true) (cons_head c pieces).
Proof.
  intros Hc [|p ps Hp Hps]; constructor; try done.
  - cbn. by rewrite Hc.
  - cbn. by rewrite Hc, Hp.
Qed.

Lemma all_space_split_from (sep : string) (k : nat) (s : string) :
  all_space s = true → Forall (λ l, all_space l = true) (split_from sep k s).
Proof.
  revert k. induction s as [|c r IH]; intros k Hs; cbn [split_from].
  - by constructor.
  - cbn [all_space] in Hs. apply andb_true_iff in Hs as [Hc Hr].
    destruct k; [|by apply IH].
    destruct (startsWith (String c r) sep).
    + constructor; [done | by apply IH].
    + apply all_space_cons_head; [done | by apply IH].
Qed.

Lemma startsWith_all_space (line p : string) :
  all_space line = true →
  match p with String a _ => Ascii.is_space a = false | EmptyString => False end →
  startsWith line p = false.
Proof.
  destruct p as [|a p']; [done|]. intros Hl Ha. cbn [startsWith].
  destruct line as [|b l']; [done|].
  cbn [all_space] in Hl. apply andb_true_iff in Hl as [Hb _].
  destruct (Ascii.eqb a b) eqn:E; [|done].
  apply Ascii.eqb_eq in E as ->. congruence.
Qed.

Lemma payload_all_space (block : string) :
  all_space block = true → payload block = "".
Proof.
  intros Hb. unfold payload, parseSSEEvent.
  pose proof (all_space_split_from (String newline "") 0 block Hb) as Hl.
  fold (split (String newline "") block) in Hl.
  generalize dependent (split (String newline "") block). intros lines Hl.
  assert (∀ ev, data (foldl
    (λ ev line,
       if startsWith line "data: "
       then {| type := type ev; data := data ev +:+ substring_from 6 line |}
       else if startsWith line "event: "
       then {| type := substring_from 7 line; data := data ev |}
       else ev) ev lines) = data ev) as H; [|apply H].
  induction Hl as [|l ls Hl _ IH]; intros ev; [done|].
  cbn [foldl]. rewrite IH.
  by rewrite !(startsWith_all_space l) by done.
Qed.

Lemma payload_blank (block : string) : trim block = "" → payload block = "".
Proof. intros H. by apply payload_all_space, trim_empty. Qed.

Lemma nonempty_false (s : string) : nonempty s = false ↔ s = "".
Proof.
  unfold nonempty. rewrite negb_false_iff. apply String.eqb_eq.
Qed.

Lemma nonempty_true (s : string) : nonempty s = true ↔ s ≠ "".
Proof.
  unfold nonempty. rewrite negb_true_iff. apply String.eqb_neq.
Qed.

(** ** Server-sent events *)

Lemma last_piece_single (s : string) :
  split blank_line (default "" (pop_last (split blank_line s)))
  = [default "" (pop_last (split blank_line s))].
Proof.
  remember (String.length s) as n eqn:Hn. revert s Hn.
  induction n as [n IH] using lt_wf_ind. intros s Hn.
  destruct s as [|c r]; [done|].
  destruct (at_blank_line (String c r)) eqn:Hsep.
  - apply at_blank_line_true in Hsep as [r' [= -> ->]].
    rewrite split_blank_sep, pop_last_cons by apply split_nonempty.
    apply (IH (String.length r')); [simpl in Hn; lia | done].
  - rewrite (split_blank_char _ _ Hsep).
    destruct (split blank_line r) as [|p [|p2 ps]] eqn:Hr.
    + by apply split_nonempty in Hr.
    + pose proof (split_blank_single _ _ Hr) as ->.
      cbn [cons_head pop_last last default from_option id].
      by rewrite (split_blank_char _ _ Hsep), Hr.
    + cbn [cons_head]. rewrite pop_last_cons by done.
      rewrite <- (pop_last_cons p) by done. rewrite <- Hr.
      apply (IH (String.length r)); [simpl in Hn; lia | done].
Qed.

Lemma sse_event_buffer (st : sse_state) (ev : string) :
  buffer (sse_event st ev) = buffer st.
Proof. unfold sse_event. by repeat case_match. Qed.

Lemma sse_events_buffer (st : sse_state) (evs : list string) :
  buffer (foldl sse_event st evs) = buffer st.
Proof.
  revert st. induction evs as [|ev evs IH]; intros st; [done|].
  cbn [foldl]. by rewrite IH, sse_event_buffer.
Qed.

Lemma sse_event_progress (a b : sse_state) (ev : string) :
  same_progress a b → same_progress (sse_event a ev) (sse_event b ev).
Proof.
  intros [Hp Hl]. unfold sse_event, same_progress.
  repeat case_match; cbn; by rewrite ?Hp, ?Hl.
Qed.

Lemma sse_events_progress (a b : sse_state) (evs : list string) :
  same_progress a b → same_progress (foldl sse_event a evs) (foldl sse_event b evs).
Proof.
  revert a b. induction evs as [|ev evs IH]; intros a b H; [done|].
  cbn [foldl]. by apply IH, sse_event_progress.
Qed.

(** After all chunks, the buffer holds the unfinished last block of the
    whole text, and the handler has gone through the blocks before it. *)
Lemma sse_chunks (st : sse_state) (cs : list string) :
  split blank_line (buffer st) = [buffer st] →
  buffer (foldl sse_data st cs)
  = default "" (pop_last (split blank_line (buffer st +:+ stream_text cs)))
  ∧ same_progress (foldl sse_data st cs)
      (foldl sse_event st
         (pop_rest (split blank_line (buffer st +:+ stream_text cs)))).
Proof.
  revert st. induction cs as [|c cs IH]; intros st Hst.
  - cbn [foldl stream_text foldr]. rewrite append_nil_r, Hst. by split.
  - cbn [foldl stream_text foldr]. fold (stream_text cs).
    rewrite <- append_assoc, split_blank_append.
    set (B1 := split blank_line (buffer st +:+ c)).
    assert (buffer (sse_data st c) = default "" (pop_last B1)) as Hbuf.
    { unfold sse_data. fold B1. by rewrite sse_events_buffer. }
    assert (same_progress (sse_data st c) (foldl sse_event st (pop_rest B1))) as Hpr.
    { unfold sse_data. fold B1. by apply sse_events_progress. }
    destruct (IH (sse_data st c)) as [Hb Hp].
    { rewrite Hbuf. apply last_piece_single. }
    rewrite Hbuf in Hb, Hp.
    pose proof (split_nonempty blank_line (default "" (pop_last B1) +:+ stream_text cs)).
    rewrite pop_last_app, pop_rest_app by done.
    split; [exact Hb|].
    rewrite foldl_app. destruct Hp as [Hp1 Hp2].
    destruct (sse_events_progress _ _
                (pop_rest (split blank_line
                   (default "" (pop_last B1) +:+ stream_text cs))) Hpr) as [Hq1 Hq2].
    split; congruence.
Qed.

Lemma first_json_app (l1 l2 : list string) :
  first_json (l1 ++ l2)
  = match first_json l1 with Some v => Some v | None => first_json l2 end.
Proof.
  induction l1 as [|d l1 IH]; [done|]. cbn [app first_json].
  by destruct (JSON_parse d).
Qed.

Lemma skipped_app (l1 l2 : list string) :
  skipped_before_first_json (l1 ++ l2)
  = match first_json l1 with
    | Some _ => skipped_before_first_json l1
    | None => skipped_before_first_json l1 ++ skipped_before_first_json l2
    end.
Proof.
  induction l1 as [|d l1 IH]; [done|]. cbn [app first_json skipped_before_first_json].
  destruct (JSON_parse d); [done|]. rewrite IH.
  destruct (first_json l1); [done|]. by rewrite app_assoc.
Qed.

Section Events.
Hypothesis JSON_parse_empty : ∃ m, JSON_parse "" = SyntaxError m.

Lemma payload_parsed_nonblank (block : string) (v : json) :
  JSON_parse (payload block) = Parsed v →
  nonempty (trim block) = true ∧ nonempty (payload block) = true.
Proof.
  destruct JSON_parse_empty as [m Hm]. intros Hp.
  assert (payload block ≠ "") as Hne by (intros E; rewrite E in Hp; congruence).
  split; apply nonempty_true; [|done].
  intros Hb. by apply payload_blank in Hb.
Qed.

(** One complete block seen while the promise is still pending. *)
Lemma sse_event_pending (st : sse_state) (ev : string) :
  promise st = Pending →
  match JSON_parse (payload ev) with
  | Parsed v =>
      promise (sse_event st ev) = Fulfilled v ∧ logged (sse_event st ev) = logged st
  | SyntaxError m =>
      promise (sse_event st ev) = Pending
      ∧ logged (sse_event st ev)
        = logged st ++ (if nonempty (payload ev)
                        then ["Invalid JSON in SSE: SyntaxError: " +:+ m] else [])
  end.
Proof.
  intros Hp. destruct (JSON_parse (payload ev)) as [v|m] eqn:Hparse.
  - destruct (payload_parsed_nonblank ev v Hparse) as [H1 H2].
    unfold sse_event. fold (payload ev). rewrite H1, H2, Hparse. cbn.
    by rewrite Hp.
  - unfold sse_event. fold (payload ev).
    destruct (nonempty (trim ev)) eqn:Ht.
    + destruct (nonempty (payload ev)) eqn:Hd.
      * rewrite Hparse. by cbn.
      * by rewrite app_nil_r.
    + apply nonempty_false, payload_blank in Ht. rewrite Ht.
      cbn. by rewrite app_nil_r.
Qed.

Lemma sse_event_settled (st : sse_state) (ev : string) (v : json) :
  promise st = Fulfilled v →
  promise (sse_event st ev) = Fulfilled v
  ∧ ∃ more, logged (sse_event st ev) = logged st ++ more.
Proof.
  intros Hp. unfold sse_event. repeat case_match; cbn; rewrite ?Hp.
  all: split; [done|]; first [by eexists | by exists []; rewrite app_nil_r].
Qed.

Lemma sse_events_settled (st : sse_state) (evs : list string) (v : json) :
  promise st = Fulfilled v →
  promise (foldl sse_event st evs) = Fulfilled v
  ∧ ∃ more, logged (foldl sse_event st evs) = logged st ++ more.
Proof.
  revert st. induction evs as [|ev evs IH]; intros st Hp.
  - split; [done|]. exists []. by rewrite app_nil_r.
  - cbn [foldl]. destruct (sse_event_settled st ev v Hp) as [H1 [m1 H2]].
    destruct (IH _ H1) as [H3 [m2 H4]]. split; [done|].
    exists (m1 ++ m2). by rewrite H4, H2, app_assoc.
Qed.

(** The complete blocks seen while the promise is pending: the promise
    is fulfilled by the first payload that parses, and the payloads
    before it are logged. *)
Lemma sse_events_pending (st : sse_state) (evs : list string) :
  promise st = Pending →
  match first_json (map payload evs) with
  | Some v =>
      promise (foldl sse_event st evs) = Fulfilled v
      ∧ ∃ more, logged (foldl sse_event st evs)
                = logged st ++ skipped_before_first_json (map payload evs) ++ more
  | None =>
      promise (foldl sse_event st evs) = Pending
      ∧ logged (foldl sse_event st evs)
        = logged st ++ skipped_before_first_json (map payload evs)
  end.
Proof.
  revert st. induction evs as [|ev evs IH]; intros st Hp.
  - cbn. by rewrite app_nil_r.
  - cbn [foldl map first_json skipped_before_first_json].
    pose proof (sse_event_pending st ev Hp) as Hev.
    destruct (JSON_parse (payload ev)) as [v|m].
    + destruct Hev as [H1 H2].
      destruct (sse_events_settled _ evs v H1) as [H3 [more H4]].
      split; [done|]. exists more. by rewrite H4, H2.
    + destruct Hev as [H1 H2]. specialize (IH _ H1).
      destruct (first_json (map payload evs)) as [v|].
      * destruct IH as [H3 [more H4]]. split; [done|]. exists more.
        by rewrite H4, H2, <- !app_assoc.
      * destruct IH as [H3 H4]. split; [done|].
        by rewrite H4, H2, <- !app_assoc.
Qed.

(** C8. Whatever the chunking of an event stream that ends, the promise
    of [sendToServer] is fulfilled with the parse of the payload of the
    first block, the trailing one included, whose payload parses as JSON;
    the payloads before it that carry malformed JSON are logged and
    skipped. *)
Theorem sse_first_json_event (res : http_response) (v : json) :
  ending res = End →
  first_json (map payload (sse_blocks (stream_text (chunks res)))) = Some v →
  promise (handleSSEResponse res) = Fulfilled v
  ∧ (∃ more,
       logged (handleSSEResponse res)
       = skipped_before_first_json
           (map payload (sse_blocks (stream_text (chunks res)))) ++ more)
  ∧ (includes (default "" (header "content-type" (headers res)))
       "text/event-stream" = true →
     ∀ request p,
       server (posted p ++ [request]) = Response res →
       (sendToServer request p).1 = Fulfilled v).
Proof.
  intros Hend Hfirst.
  set (st0 := {| buffer := ""; promise := Pending; logged := [] |}).
  destruct (sse_chunks st0 (chunks res)) as [Hbuf [Hpr Hlg]]; [done|].
  cbn [buffer st0] in Hbuf, Hpr, Hlg. rewrite append_nil_l in Hbuf, Hpr, Hlg.
  fold (sse_blocks (stream_text (chunks res))) in Hbuf, Hpr, Hlg, Hfirst |- *.
  set (B := sse_blocks (stream_text (chunks res))) in *.
  set (st := foldl sse_data st0 (chunks res)) in *.
  assert (B = pop_rest B ++ [default "" (pop_last B)]) as HB
    by (apply pop_rest_pop_last, split_nonempty).
  rewrite HB, map_app, first_json_app in Hfirst.
  assert (skipped_before_first_json (map payload B)
          = match first_json (map payload (pop_rest B)) with
            | Some _ => skipped_before_first_json (map payload (pop_rest B))
            | None => skipped_before_first_json (map payload (pop_rest B))
                      ++ skipped_before_first_json
                           (map payload [default "" (pop_last B)])
            end) as Hskip
    by (rewrite HB at 1; by rewrite map_app, skipped_app).
  pose proof (sse_events_pending st0 (pop_rest B) eq_refl) as Hev.
  assert (promise (sse_end st) = Fulfilled v
          ∧ ∃ more, logged (sse_end st)
                    = skipped_before_first_json (map payload B) ++ more) as Hgoal.
  { rewrite Hskip. unfold sse_end. rewrite Hbuf. fold (payload (default "" (pop_last B))).
    destruct (first_json (map payload (pop_rest B))) as [v'|].
    - injection Hfirst as ->. destruct Hev as [H1 [more H2]].
      rewrite <- Hpr in H1. rewrite <- Hlg in H2. cbn [logged st0 app] in H2.
      repeat case_match; cbn; rewrite ?H1; by eauto.
    - destruct Hev as [H1 H2].
      rewrite <- Hpr in H1. rewrite <- Hlg in H2. cbn [logged st0 app] in H2.
      cbn [map first_json] in Hfirst.
      destruct (JSON_parse (payload (default "" (pop_last B)))) as [w|] eqn:Hw; [|done].
      injection Hfirst as ->.
      destruct (payload_parsed_nonblank _ _ Hw) as [Ht Hd].
      rewrite Ht, Hd. cbn [map skipped_before_first_json]. rewrite Hw.
      cbn. rewrite H1, H2, app_nil_r. split; [done|]. exists []. by rewrite app_nil_r. }
  assert (handleSSEResponse res = sse_end st) as Hres
    by (unfold handleSSEResponse; by rewrite Hend).
  rewrite Hres. destruct Hgoal as [Hg1 Hg2]. split; [done|]. split; [done|].
  intros Hsse request p Hserver. unfold sendToServer. cbn [posted set_posted].
  rewrite Hserver, Hsse. cbn. by rewrite Hres.
Qed.
End Events.

(** ** Retry orchestrator *)

Lemma sendToServer_outcome (request : json) (p : proxy) :
  (sendToServer request p).1 = outcome_of (server (posted p ++ [request])).
Proof.
  unfold sendToServer, outcome_of. cbn [posted set_posted].
  destruct (server (posted p ++ [request])) as [e| |res]; try done.
  by destruct (includes _ _).
Qed.

Lemma extractSessionId_frame (hs : list (string * string)) (p : proxy) :
  outside_transport p (extractSessionId hs p)
  ∧ posted (extractSessionId hs p) = posted p.
Proof.
  unfold extractSessionId, outside_transport.
  repeat case_match; by cbn.
Qed.

Lemma sendToServer_posted (request : json) (p : proxy) :
  posted (sendToServer request p).2 = posted p ++ [request].
Proof.
  unfold sendToServer. cbn [posted set_posted].
  destruct (server (posted p ++ [request])) as [e| |res]; try done.
  destruct (includes _ _); cbn;
    by rewrite (proj2 (extractSessionId_frame _ _)).
Qed.

Lemma sendToServer_frame (request : json) (p : proxy) :
  outside_transport p (sendToServer request p).2.
Proof.
  unfold sendToServer.
  destruct (server _) as [e| |res]; try done.
  destruct (extractSessionId_frame (headers res)
              (set_posted (posted p ++ [request]) p)) as [H _].
  destruct (includes _ _); cbn; exact H.
Qed.

Lemma retry_unfold (request : json) (attempt : Z) (p : proxy) :
  sendToServerWithRetry request attempt p
  = match sendToServer request p with
    | (Fulfilled response, p1) => (Fulfilled response, p1)
    | (Pending, p1) => (Pending, p1)
    | (Rejected error, p1) =>
        if Z_ge_lt_dec attempt (maxRetries (retry_of config))
        then (Rejected error, p1)
        else sendToServerWithRetry request (attempt + 1)
               (sleep (backoff attempt p1).1 (backoff attempt p1).2)
    end.
Proof.
  simp sendToServerWithRetry.
  destruct (sendToServer request p) as [[response|error|] p1]; cbn; try done.
  by destruct (Z_ge_lt_dec attempt (maxRetries (retry_of config))).
Qed.

Lemma backoff_sleep_frame (attempt : Z) (p : proxy) :
  outside_transport p (sleep (backoff attempt p).1 (backoff attempt p).2)
  ∧ posted (sleep (backoff attempt p).1 (backoff attempt p).2) = posted p.
Proof. unfold backoff, sleep, outside_transport. by destruct (jitter _). Qed.

Lemma outside_transport_trans (p1 p2 p3 : proxy) :
  outside_transport p1 p2 → outside_transport p2 p3 → outside_transport p1 p3.
Proof. unfold outside_transport. intros (?&?&?&?&?&?) (?&?&?&?&?&?). repeat split; congruence. Qed.

(** The state after a rejected dispatch and the pause before the next. *)
Lemma retry_step_posted (request : json) (attempt : Z) (p : proxy) :
  posted (sleep (backoff attempt (sendToServer request p).2).1
            (backoff attempt (sendToServer request p).2).2)
  = posted p ++ [request].
Proof. by rewrite (proj2 (backoff_sleep_frame _ _)), sendToServer_posted. Qed.

Lemma replicate_cons_app (k : nat) (request : json) (l : list json) :
  (l ++ [request]) ++ replicate k request = l ++ replicate (S k) request.
Proof. by rewrite <- app_assoc. Qed.

(** The general run: [k] rejected dispatches, each followed by a retry,
    then a dispatch whose outcome ends the run, either because it is not a
    rejection or because the retries are used up. *)
Lemma retry_run (request : json) (k : nat) :
  ∀ (attempt : Z) (p : proxy),
    (∀ j, (1 ≤ j ≤ k)%nat → ∃ e, outcome_of (nth_exchange request p j) = Rejected e) →
    attempt + Z.of_nat k ≤ Z.max attempt (maxRetries (retry_of config)) →
    ((∀ e, outcome_of (nth_exchange request p (S k)) ≠ Rejected e)
     ∨ maxRetries (retry_of config) ≤ attempt + Z.of_nat k) →
    (sendToServerWithRetry request attempt p).1
    = outcome_of (nth_exchange request p (S k))
    ∧ posted (sendToServerWithRetry request attempt p).2
      = posted p ++ replicate (S k) request
    ∧ outside_transport p (sendToServerWithRetry request attempt p).2.
Proof.
  induction k as [|k IH]; intros attempt p Hrej Hle Hlast.
  - rewrite retry_unfold.
    pose proof (sendToServer_outcome request p) as Ho.
    pose proof (sendToServer_posted request p) as Hp.
    pose proof (sendToServer_frame request p) as Hf.
    unfold nth_exchange. cbn [replicate].
    destruct (sendToServer request p) as [[response|error|] p1]; cbn in Ho, Hp, Hf |- *;
      try by rewrite Ho.
    destruct (Z_ge_lt_dec attempt (maxRetries (retry_of config))) as [Hge|Hlt];
      [by rewrite Ho|].
    exfalso. destruct Hlast as [Hlast|Hlast]; [|lia].
    apply (Hlast error). unfold nth_exchange. cbn [replicate]. by rewrite <- Ho.
  - rewrite retry_unfold.
    pose proof (sendToServer_outcome request p) as Ho.
    pose proof (retry_step_posted request attempt p) as Hp.
    pose proof (sendToServer_frame request p) as Hf.
    destruct (Hrej 1%nat ltac:(lia)) as [e He].
    unfold nth_exchange in He. cbn [replicate] in He. rewrite He in Ho.
    destruct (sendToServer request p) as [[response|error|] p1];
      cbn [fst snd] in Ho, Hp, Hf; try done.
    destruct (Z_ge_lt_dec attempt (maxRetries (retry_of config))) as [Hge|Hlt]; [lia|].
    set (p2 := sleep (backoff attempt p1).1 (backoff attempt p1).2) in *.
    destruct (IH (attempt + 1) p2) as (H1 & H2 & H3).
    + intros j Hj. unfold nth_exchange. rewrite Hp, replicate_cons_app.
      apply Hrej. lia.
    + lia.
    + unfold nth_exchange. rewrite Hp, replicate_cons_app.
      destruct Hlast as [Hlast|Hlast]; [by left | right; lia].
    + unfold nth_exchange in H1. rewrite Hp, replicate_cons_app in H1, H2.
      split; [done|]. split; [done|].
      eapply outside_transport_trans; [exact Hf|].
      eapply outside_transport_trans; [|exact H3].
      apply backoff_sleep_frame.
Qed.

(** Induction along the retries: a property of a run follows from the
    property of the run that continues it after a rejection. *)
Lemma retry_induction (request : json)
  (P : Z → proxy → settled json * proxy → Prop) :
  (∀ attempt p,
     (∀ error p1,
        sendToServer request p = (Rejected error, p1) →
        attempt < maxRetries (retry_of config) →
        P (attempt + 1) (sleep (backoff attempt p1).1 (backoff attempt p1).2)
          (sendToServerWithRetry request (attempt + 1)
             (sleep (backoff attempt p1).1 (backoff attempt p1).2))) →
     P attempt p (sendToServerWithRetry request attempt p)) →
  ∀ attempt p, P attempt p (sendToServerWithRetry request attempt p).
Proof.
  intros Hstep attempt.
  remember (Z.to_nat (maxRetries (retry_of config) - attempt)) as n eqn:Hn.
  revert attempt Hn. induction n as [n IH] using lt_wf_ind.
  intros attempt Hn p. apply Hstep. intros error p1 _ Hlt.
  apply (IH (Z.to_nat (maxRetries (retry_of config) - (attempt + 1)))); [lia | done].
Qed.

Lemma retry_frame (request : json) (attempt : Z) (p : proxy) :
  outside_transport p (sendToServerWithRetry request attempt p).2.
Proof.
  revert attempt p.
  apply (retry_induction request (λ _ p r, outside_transport p r.2)).
  intros attempt p IH.
  rewrite retry_unfold. pose proof (sendToServer_frame request p) as Hf.
  destruct (sendToServer request p) as [[response|error|] p1]; cbn [fst snd] in *;
    try done.
  destruct (Z_ge_lt_dec attempt (maxRetries (retry_of config))) as [Hge|Hlt]; [done|].
  eapply outside_transport_trans; [exact Hf|].
  eapply outside_transport_trans; [apply backoff_sleep_frame|].
  by apply (IH error p1).
Qed.

(** A run made of dispatches that all settle settles. *)
Lemma retry_settles (request : json) (attempt : Z) (p : proxy) :
  server_settles → (sendToServerWithRetry request attempt p).1 ≠ Pending.
Proof.
  intros Hs. revert attempt p.
  apply (retry_induction request (λ _ _ r, r.1 ≠ Pending)).
  intros attempt p IH.
  rewrite retry_unfold. pose proof (sendToServer_outcome request p) as Ho.
  destruct (sendToServer request p) as [[response|error|] p1]; cbn [fst snd] in *;
    try done.
  - destruct (Z_ge_lt_dec attempt (maxRetries (retry_of config))) as [Hge|Hlt]; [done|].
    by apply (IH error p1).
  - symmetry in Ho. by apply Hs in Ho.
Qed.

(** The outcome of a run and the traffic it adds depend on the earlier
    traffic only. *)
Lemma retry_traffic (request : json) (attempt : Z) (p q : proxy) :
  posted q = posted p →
  (sendToServerWithRetry request attempt q).1
  = (sendToServerWithRetry request attempt p).1
  ∧ posted (sendToServerWithRetry request attempt q).2
    = posted (sendToServerWithRetry request attempt p).2.
Proof.
  revert attempt p q.
  assert (∀ attempt p, ∀ q, posted q = posted p →
    (sendToServerWithRetry request attempt q).1
    = (sendToServerWithRetry request attempt p).1
    ∧ posted (sendToServerWithRetry request attempt q).2
      = posted (sendToServerWithRetry request attempt p).2) as H; [|by auto].
  apply (retry_induction request
           (λ attempt p r, ∀ q, posted q = posted p →
              (sendToServerWithRetry request attempt q).1 = r.1
              ∧ posted (sendToServerWithRetry request attempt q).2 = posted r.2)).
  intros attempt p IH q Hq.
  rewrite (retry_unfold request attempt q), (retry_unfold request attempt p).
  pose proof (sendToServer_outcome request p) as Hop.
  pose proof (sendToServer_outcome request q) as Hoq.
  pose proof (sendToServer_posted request p) as Hpp.
  pose proof (sendToServer_posted request q) as Hpq.
  rewrite Hq in Hoq, Hpq. rewrite <- Hop in Hoq. rewrite <- Hpp in Hpq.
  destruct (sendToServer request p) as [[v|e|] p1],
           (sendToServer request q) as [[v'|e'|] q1];
    cbn [fst snd] in *; try done; try (by split; congruence).
  destruct (Z_ge_lt_dec attempt (maxRetries (retry_of config))) as [Hge|Hlt].
  - cbn [fst snd]. by split.
  - apply (IH e p1 eq_refl Hlt).
    by rewrite !(proj2 (backoff_sleep_frame _ _)).
Qed.

(** C5, in the form that holds of the code. With a non-negative [maxRetries]:
    when every dispatch is rejected, exactly [maxRetries + 1] dispatches are
    made and the rejection of the last one is what the caller gets; when the
    dispatch after [k ≤ maxRetries] rejected ones is fulfilled, its value is
    returned after exactly [k + 1] dispatches. *)
Theorem retry_attempts (request : json) (p : proxy) :
  0 ≤ maxRetries (retry_of config) →
  ((∀ k, (1 ≤ k)%nat → ∃ e, outcome_of (nth_exchange request p k) = Rejected e) →
   posted (sendToServerWithRetry request 0 p).2
   = posted p ++ replicate (Z.to_nat (maxRetries (retry_of config) + 1)) request
   ∧ Z.of_nat (length (posted (sendToServerWithRetry request 0 p).2))
     = Z.of_nat (length (posted p)) + (maxRetries (retry_of config) + 1)
   ∧ (sendToServerWithRetry request 0 p).1
     = outcome_of (nth_exchange request p
                     (Z.to_nat (maxRetries (retry_of config) + 1))))
  ∧ (∀ (k : nat) (response : json),
       Z.of_nat k ≤ maxRetries (retry_of config) →
       (∀ j, (1 ≤ j ≤ k)%nat →
             ∃ e, outcome_of (nth_exchange request p j) = Rejected e) →
       outcome_of (nth_exchange request p (S k)) = Fulfilled response →
       (sendToServerWithRetry request 0 p).1 = Fulfilled response
       ∧ posted (sendToServerWithRetry request 0 p).2
         = posted p ++ replicate (S k) request).
Proof.
  intros Hmax. split.
  - intros Hrej.
    destruct (retry_run request (Z.to_nat (maxRetries (retry_of config))) 0 p)
      as (H1 & H2 & _); [intros j [Hj _]; by apply Hrej | lia | right; lia |].
    replace (Z.to_nat (maxRetries (retry_of config) + 1))
      with (S (Z.to_nat (maxRetries (retry_of config)))) by lia.
    split; [done|]. split; [|done].
    rewrite H2, length_app, length_replicate. lia.
  - intros k response Hk Hrej Hok.
    destruct (retry_run request k 0 p) as (H1 & H2 & _); [done | lia | |].
    + left. intros e. by rewrite Hok.
    + by rewrite H1, Hok.
Qed.

(** Whatever [maxRetries] is, a permanently failing transport is tried
    [max(maxRetries, 0) + 1] times. *)
Lemma retry_attempts_any (request : json) (p : proxy) :
  (∀ k, (1 ≤ k)%nat → ∃ e, outcome_of (nth_exchange request p k) = Rejected e) →
  posted (sendToServerWithRetry request 0 p).2
  = posted p ++ replicate (S (Z.to_nat (maxRetries (retry_of config)))) request.
Proof.
  intros Hrej.
  destruct (retry_run request (Z.to_nat (maxRetries (retry_of config))) 0 p)
    as (_ & H2 & _); [intros j [Hj _]; by apply Hrej | lia | right; lia | done].
Qed.

(** ** Single-request entry points *)

Lemma lookup_set_field (k : string) (v : json) (fs : list (string * json)) :
  lookup_field k (set_field k v fs) = Some v.
Proof.
  induction fs as [|[k' v'] fs IH]; cbn [set_field lookup_field].
  - by rewrite String.eqb_refl.
  - destruct (String.eqb k' k) eqn:E; cbn [lookup_field]; rewrite ?String.eqb_refl; [done|].
    by rewrite E.
Qed.

Lemma id_or_null_spec (request : json) :
  id_or_null request
  = match prop request "id" with
    | Some v => if truthy v then v else JNull
    | None => JNull
    end.
Proof. by destruct request. Qed.

(** C10. [proxyRequest] and [handleHttpRequest] never reject; when the
    retried dispatch is rejected they return the [-32603] "Internal error"
    envelope whose [id] is the request's [id] if that is truthy and [null]
    otherwise. *)
Theorem entry_points_total (request : json) (p : proxy) :
  (∀ error, (proxyRequest request p).1 ≠ Rejected error)
  ∧ (∀ error, (handleHttpRequest request p).1 ≠ Rejected error)
  ∧ (∀ error p',
       sendToServerWithRetry request 0 p = (Rejected error, p') →
       let id :=
         match prop request "id" with
         | Some v => if truthy v then v else JNull
         | None => JNull
         end in
       let envelope :=
         JObj [("jsonrpc", JStr "2.0");
               ("id", id);
               ("error", JObj [("code", JNum (-32603));
                               ("message", JStr "Internal error");
                               ("data", JStr (err_message error))])] in
       proxyRequest request p = (Fulfilled envelope, p')
       ∧ handleHttpRequest request p = (Fulfilled envelope, p')).
Proof.
  unfold proxyRequest, handleHttpRequest, try_catch, bind, ret.
  destruct (sendToServerWithRetry request 0 p) as [[response|error|] p1].
  - by split; [|split].
  - split; [done|]. split; [done|]. intros e p' [= <- <-]. cbn zeta.
    by rewrite <- id_or_null_spec.
  - by split; [|split].
Qed.

(** ** Message loop *)

Lemma member_not_null (v : json) (k : string) :
  v ≠ JNull → member v k = Normal (prop v k).
Proof. by destruct v. Qed.

Lemma handle_parsed_unfold (parsed requestId : json) (p : proxy) :
  parsed ≠ JNull →
  handle_parsed parsed requestId p
  = let p0 := set_requestCounter (S (requestCounter p)) p in
    match
      cbind (request_log (prop parsed "method") requestId)
        (λ _, is_notification (prop parsed "method"))
    with
    | Throw error => (Rejected error, p0)
    | Normal true => (Fulfilled tt, p0)
    | Normal false =>
        if is_string_literal "initialize" (prop parsed "method")
        then
          (do response <- sendToServerWithRetry parsed 0;
           write_line (with_request_id response requestId);;
           try_catch (do _ <- sendToServerWithRetry initNotification 0; ret tt)
             (λ _, ret tt))%async p0
        else if shouldCache parsed
        then cached_branch parsed requestId p0
        else
          (do response <- sendToServerWithRetry parsed 0;
           write_line (with_request_id response requestId))%async p0
    end.
Proof.
  intros Hnn. unfold handle_parsed, bind at 1 2 3 4, act, lift.
  rewrite (member_not_null _ _ Hnn).
  destruct (request_log (prop parsed "method") requestId) as [text|]; [|reflexivity].
  cbn [cbind].
  destruct (is_notification (prop parsed "method")) as [[]|]; try reflexivity.
  by repeat case_match.
Qed.

(** The log line is built when the method and the [id] can be printed. *)
Lemma request_log_printable (parsed : json) :
  printable parsed = true →
  ∃ text,
    request_log (prop parsed "method") (default JNull (prop parsed "id"))
    = Normal text.
Proof.
  unfold printable, request_log, template. intros H.
  apply andb_true_iff in H as [Hm Hi].
  apply negb_true_iff in Hm, Hi. rewrite Hm, Hi. cbn [cbind]. by eauto.
Qed.

Lemma triage_printable (parsed : json) :
  printable parsed = true →
  cbind (request_log (prop parsed "method") (default JNull (prop parsed "id")))
    (λ _, is_notification (prop parsed "method"))
  = is_notification (prop parsed "method").
Proof. intros H. by destruct (request_log_printable parsed H) as [text ->]. Qed.

(** The state a dispatch starts from matters through its traffic only. *)
Lemma retry_from (request : json) (p q : proxy) :
  posted q = posted p →
  ∃ q', sendToServerWithRetry request 0 q
        = ((sendToServerWithRetry request 0 p).1, q')
        ∧ outside_transport q q'.
Proof.
  intros Hq. exists (sendToServerWithRetry request 0 q).2. split.
  - rewrite <- (proj1 (retry_traffic request 0 p q Hq)).
    by destruct (sendToServerWithRetry request 0 q).
  - apply retry_frame.
Qed.

(** The branch that forwards without caching. *)
Lemma forward_branch (parsed requestId : json) (p q : proxy) :
  posted q = posted p →
  let run :=
    try_catch
      (do response <- sendToServerWithRetry parsed 0;
       write_line (with_request_id response requestId))%async
      (λ error, write_line (internal_error requestId error)) q in
  stdout run.2
  = stdout q ++ match forwarded_reply requestId (sendToServerWithRetry parsed 0 p).1 with
                | Some envelope => [line_of envelope]
                | None => []
                end
  ∧ (∀ error, run.1 ≠ Rejected error)
  ∧ ((sendToServerWithRetry parsed 0 p).1 ≠ Pending → run.1 = Fulfilled tt)
  ∧ toolCache run.2 = toolCache q ∧ cacheTimestamps run.2 = cacheTimestamps q
  ∧ heap run.2 = heap q.
Proof.
  intros Hq. destruct (retry_from parsed p q Hq) as (q' & Hrun & Hf).
  destruct Hf as (Hheap & Hout & Hc & Ht & _).
  unfold try_catch, bind, write_line, act. rewrite Hrun.
  destruct (sendToServerWithRetry parsed 0 p).1 as [response|error|];
    cbn [fst snd forwarded_reply write stdout set_stdout toolCache cacheTimestamps heap];
    rewrite ?Hout, ?app_nil_r; by repeat split.
Qed.

(** The [initialize] branch: the reply is written before the trailing
    notification is sent, and that dispatch cannot change it. *)
Lemma initialize_branch (parsed requestId : json) (q : proxy) :
  let run :=
    try_catch
      (do response <- sendToServerWithRetry parsed 0;
       write_line (with_request_id response requestId);;
       try_catch (do _ <- sendToServerWithRetry initNotification 0; ret tt)
         (λ _, ret tt))%async
      (λ error, write_line (internal_error requestId error)) q in
  stdout run.2
  = stdout q ++ match forwarded_reply requestId (sendToServerWithRetry parsed 0 q).1 with
                | Some envelope => [line_of envelope]
                | None => []
                end
  ∧ (∀ error, run.1 ≠ Rejected error)
  ∧ (server_settles → run.1 = Fulfilled tt).
Proof.
  pose proof (retry_frame parsed 0 q) as (_ & Hout & _).
  pose proof (retry_settles parsed 0 q) as Hs.
  unfold try_catch, bind, write_line, act, ret.
  destruct (sendToServerWithRetry parsed 0 q) as [[response|error|] q1];
    cbn [fst snd forwarded_reply] in *.
  - fold (line_of (with_request_id response requestId)).
    set (q2 := write _ q1).
    pose proof (retry_frame initNotification 0 q2) as (_ & Hout2 & _).
    pose proof (retry_settles initNotification 0 q2) as Hs2.
    destruct (sendToServerWithRetry initNotification 0 q2) as [[r|e|] q3];
      cbn [fst snd] in *; rewrite Hout2; unfold q2; cbn [write stdout set_stdout];
      rewrite Hout; (split; [done|]); (split; [done|]); try done.
    intros H. by destruct (Hs2 H).
  - cbn [write stdout set_stdout]. rewrite Hout. by split; [|split].
  - rewrite Hout, app_nil_r. split; [done|]. split; [done|].
    intros H. by destruct (Hs H).
Qed.

Lemma lookup_snoc (l : list json) (x : json) : (l ++ [x]) !! length l = Some x.
Proof. by rewrite lookup_app_r, Nat.sub_diag. Qed.

Lemma insert_snoc (l : list json) (x y : json) :
  <[length l := y]> (l ++ [x]) = l ++ [y].
Proof. by rewrite insert_app_r_alt, Nat.sub_diag. Qed.

Lemma lookup_snoc_lt (l : list json) (x : json) (i : nat) :
  (i < length l)%nat → (l ++ [x]) !! i = l !! i.
Proof. intros H. by rewrite lookup_app_l. Qed.

(** The state in which the cacheable branch goes on after its lookup:
    the clock has been read if the key had a timestamp, and an entry that
    is not fresh has been purged. *)
Lemma cached_branch_lookup (parsed requestId : json) (q : proxy) :
  cached_branch parsed requestId q
  = match fresh_entry (Date_now (clock_reads q)) (getCacheKey parsed) q with
    | Some cached => reply_from_cache cached requestId
    | None => fetch_and_cache parsed requestId (getCacheKey parsed)
    end
      (getCachedResponse_call (getCacheKey parsed) q).2.
Proof.
  unfold fresh_entry, cached_branch, getCachedResponse_call, getCachedResponse,
    has_timestamp.
  unfold bind at 1 2. cbn [fst snd].
  destruct (cacheTimestamps q !! getCacheKey parsed) as [t|] eqn:Ht;
    [destruct (t =? 0) eqn:Hz|]; cbn [negb orb];
    cbn [cacheTimestamps toolCache set_clock_reads fst snd];
    rewrite ?Ht, ?Hz; cbn [orb fst snd]; try done.
  destruct (Date_now (clock_reads q) - t >? CACHE_TTL); [done|].
  cbn [fst snd]. by destruct (toolCache q !! getCacheKey parsed) as [l|].
Qed.

Lemma reply_from_cache_run (cached requestId : json) (q : proxy) :
  reply_from_cache cached requestId q
  = (Fulfilled tt,
     write (line_of (copy_with_request_id cached requestId))
       (set_heap (heap q ++ [copy_with_request_id cached requestId]) q)).
Proof.
  unfold reply_from_cache, bind, alloc, act, ret, write_line,
    copy_with_request_id, line_of.
  cbn [fst snd heap set_heap].
  destruct (not_null requestId).
  - unfold act, assign_id, deref. cbn [heap set_heap].
    rewrite lookup_snoc. cbn [default from_option id spread].
    rewrite insert_snoc. cbn. rewrite lookup_snoc. by cbn.
  - unfold ret, deref. cbn. rewrite lookup_snoc. by cbn.
Qed.

(** A lookup that finds a fresh entry reads the clock and changes nothing
    else. *)
Lemma fresh_entry_lookup (key : string) (cached : json) (q : proxy) :
  fresh_entry (Date_now (clock_reads q)) key q = Some cached →
  (getCachedResponse_call key q).2 = set_clock_reads (S (clock_reads q)) q.
Proof.
  unfold fresh_entry, getCachedResponse_call, getCachedResponse, has_timestamp.
  destruct (cacheTimestamps q !! key) as [t|] eqn:Ht; [|done].
  destruct (t =? 0) eqn:Hz; [done|]. cbn [negb orb].
  cbn [cacheTimestamps toolCache set_clock_reads]. rewrite Ht, Hz. cbn [orb].
  by destruct (Date_now (clock_reads q) - t >? CACHE_TTL).
Qed.

(** The cacheable branch on a fresh entry: the reply is a new object, the
    entry and the objects created before are left as they were, and
    nothing is sent. *)
Lemma cached_branch_hit (parsed requestId cached : json) (q : proxy) :
  fresh_entry (Date_now (clock_reads q)) (getCacheKey parsed) q = Some cached →
  cached_branch parsed requestId q
  = (Fulfilled tt,
     write (line_of (copy_with_request_id cached requestId))
       (set_heap (heap q ++ [copy_with_request_id cached requestId])
          (set_clock_reads (S (clock_reads q)) q))).
Proof.
  intros Hfresh. rewrite cached_branch_lookup, Hfresh.
  by rewrite (fresh_entry_lookup _ _ _ Hfresh), reply_from_cache_run.
Qed.

(** The lookup leaves the traffic, the output and the objects alone; it
    reads the clock for a key with a timestamp. *)
Lemma lookup_frame (key : string) (q : proxy) :
  let q1 := (getCachedResponse_call key q).2 in
  posted q1 = posted q ∧ stdout q1 = stdout q ∧ heap q1 = heap q
  ∧ clock_reads q1 = (clock_reads q + lookup_reads key q)%nat.
Proof.
  unfold getCachedResponse_call, getCachedResponse, lookup_reads, has_timestamp.
  destruct (cacheTimestamps q !! key) as [t|] eqn:Ht;
    [destruct (t =? 0) eqn:Hz|]; cbn [negb orb];
    cbn [cacheTimestamps toolCache set_clock_reads fst snd];
    rewrite ?Ht, ?Hz; cbn [orb fst snd posted stdout heap clock_reads set_cache];
    try (split_and!; try done; lia).
  destruct (Date_now (clock_reads q) - t >? CACHE_TTL);
    cbn [fst snd posted stdout heap clock_reads set_cache set_clock_reads];
    split_and!; try done; lia.
Qed.

(** The cache-miss arm: the object the dispatch resolved with is what the
    cache retains, under the time read after the dispatch; the request's
    [id] goes into a further object, which is the one written. *)
Lemma fetch_and_cache_run (parsed requestId : json) (key : string) (q : proxy) :
  match sendToServerWithRetry parsed 0 q with
  | (Fulfilled fetched, q2) =>
      ∃ q', fetch_and_cache parsed requestId key q = (Fulfilled tt, q')
            ∧ stdout q' = stdout q2 ++ [line_of (with_request_id fetched requestId)]
            ∧ toolCache q' !! key = Some (length (heap q2))
            ∧ cacheTimestamps q' !! key = Some (Date_now (clock_reads q2))
            ∧ heap q' !! length (heap q2) = Some fetched
            ∧ (∀ l, (l < length (heap q2))%nat → heap q' !! l = heap q2 !! l)
            ∧ posted q' = posted q2
  | (Rejected error, q2) =>
      fetch_and_cache parsed requestId key q = (Rejected error, q2)
  | (Pending, q2) =>
      fetch_and_cache parsed requestId key q = (Pending, q2)
  end.
Proof.
  destruct (sendToServerWithRetry parsed 0 q) as [[fetched|error|] q2] eqn:Hrun;
    unfold fetch_and_cache; unfold bind at 1; rewrite Hrun; try done.
  destruct (not_null requestId) eqn:Hid;
    unfold bind, alloc, Date_now_read, act, ret, write_line, setCachedResponse, deref;
    cbn [fst snd heap set_heap set_clock_reads set_cache toolCache cacheTimestamps
         clock_reads].
  - eexists. split; [reflexivity|].
    unfold with_request_id, line_of. rewrite Hid. cbn.
    rewrite !lookup_snoc. cbn. rewrite !lookup_insert_eq.
    rewrite <- app_assoc. cbn [app].
    split_and!; try done.
    + by rewrite lookup_app_r, Nat.sub_diag.
    + intros l Hl. by rewrite lookup_app_l.
  - eexists. split; [reflexivity|].
    unfold with_request_id, line_of. rewrite Hid. cbn.
    rewrite !lookup_snoc. cbn. rewrite !lookup_insert_eq.
    split_and!; try done.
    intros l Hl. by rewrite lookup_app_l.
Qed.

(** The maps the lookup leaves are those of [getCachedResponse] at the
    time the clock shows. *)
Lemma lookup_call_cache (key : string) (q : proxy) :
  toolCache (getCachedResponse_call key q).2
  = toolCache (getCachedResponse (Date_now (clock_reads q)) key q).2
  ∧ cacheTimestamps (getCachedResponse_call key q).2
    = cacheTimestamps (getCachedResponse (Date_now (clock_reads q)) key q).2.
Proof.
  unfold getCachedResponse_call, getCachedResponse, has_timestamp.
  destruct (cacheTimestamps q !! key) as [t|] eqn:Ht;
    [destruct (t =? 0) eqn:Hz|]; cbn [negb orb];
    cbn [cacheTimestamps toolCache set_clock_reads fst snd];
    rewrite ?Ht, ?Hz; cbn [orb fst snd]; try done.
  by destruct (Date_now (clock_reads q) - t >? CACHE_TTL).
Qed.

Lemma getCachedResponse_counter (now : Z) (key : string) (n : nat) (p : proxy) :
  toolCache (getCachedResponse now key (set_requestCounter n p)).2
  = toolCache (getCachedResponse now key p).2
  ∧ cacheTimestamps (getCachedResponse now key (set_requestCounter n p)).2
    = cacheTimestamps (getCachedResponse now key p).2.
Proof.
  unfold getCachedResponse. cbn [cacheTimestamps toolCache set_requestCounter].
  destruct (cacheTimestamps p !! key) as [t|]; [|done].
  by destruct ((t =? 0) || (now - t >? CACHE_TTL)).
Qed.

Lemma fresh_entry_counter (now : Z) (key : string) (n : nat) (p : proxy) :
  fresh_entry now key (set_requestCounter n p) = fresh_entry now key p.
Proof.
  unfold fresh_entry, getCachedResponse. cbn [cacheTimestamps toolCache set_requestCounter].
  destruct (cacheTimestamps p !! key) as [t|]; [|done].
  by destruct ((t =? 0) || (now - t >? CACHE_TTL)).
Qed.

(** The cacheable branch inside the [try] of the handler. *)
Lemma cached_branch_reply (parsed requestId : json) (p q : proxy) :
  posted q = posted p →
  let run :=
    try_catch (cached_branch parsed requestId)
      (λ error, write_line (internal_error requestId error)) q in
  stdout run.2
  = stdout q
    ++ match
         match fresh_entry (Date_now (clock_reads q)) (getCacheKey parsed) q with
         | Some cached => Some (copy_with_request_id cached requestId)
         | None => forwarded_reply requestId (sendToServerWithRetry parsed 0 p).1
         end
       with
       | Some envelope => [line_of envelope]
       | None => []
       end
  ∧ (∀ error, run.1 ≠ Rejected error)
  ∧ (server_settles → run.1 = Fulfilled tt).
Proof.
  intros Hq run. subst run. unfold try_catch. rewrite cached_branch_lookup.
  destruct (fresh_entry _ _ q) as [cached|] eqn:Hfresh.
  - rewrite (fresh_entry_lookup _ _ _ Hfresh), reply_from_cache_run.
    by cbn.
  - set (q1 := (getCachedResponse_call _ _).2).
    destruct (lookup_frame (getCacheKey parsed) q) as (Hp1 & Ho1 & _).
    fold q1 in Hp1, Ho1.
    pose proof (fetch_and_cache_run parsed requestId (getCacheKey parsed) q1) as Hrun.
    pose proof (retry_frame parsed 0 q1) as (_ & Hout & _).
    pose proof (retry_settles parsed 0 q1) as Hs.
    pose proof (proj1 (retry_traffic parsed 0 p q1 ltac:(congruence))) as Hsame.
    rewrite <- Hsame.
    destruct (sendToServerWithRetry parsed 0 q1) as [[fetched|error|] q2];
      cbn [fst snd forwarded_reply] in *.
    + destruct Hrun as (q' & -> & Hw & _). cbn [fst snd].
      rewrite Hw, Hout, Ho1. by split_and!.
    + rewrite Hrun. unfold write_line, act. cbn [fst snd write stdout set_stdout].
      rewrite Hout, Ho1. by split_and!.
    + rewrite Hrun. cbn [fst snd]. rewrite Hout, Ho1, app_nil_r.
      split_and!; try done. intros H. by destruct (Hs H).
Qed.

(** What [handleIncomingMessage] writes for a parsed message: the one line
    of [handler_reply], or nothing. The handler never rejects, and it runs
    to completion when every dispatch settles. *)
Lemma handler_writes (message : string) (parsed : json) (p : proxy) :
  JSON_parse message = Parsed parsed → parsed ≠ JNull →
  stdout (handleIncomingMessage message p).2
  = stdout p ++ match handler_reply parsed p with
                | Some envelope => [line_of envelope]
                | None => []
                end
  ∧ (∀ error, (handleIncomingMessage message p).1 ≠ Rejected error)
  ∧ (server_settles → (handleIncomingMessage message p).1 = Fulfilled tt).
Proof.
  intros Hparse Hnn. unfold handleIncomingMessage, handler_reply.
  rewrite Hparse, (member_not_null _ _ Hnn).
  set (requestId := default JNull (prop parsed "id")).
  set (p0 := set_requestCounter (S (requestCounter p)) p).
  assert (posted p0 = posted p) as Hp0 by done.
  assert (stdout p0 = stdout p) as Ho0 by done.
  destruct (cbind (request_log (prop parsed "method") requestId)
              (λ _, is_notification (prop parsed "method")))
    as [[|]|error] eqn:Hnote.
  - unfold try_catch. rewrite handle_parsed_unfold, Hnote by done.
    cbn. by rewrite app_nil_r.
  - destruct (is_string_literal "initialize" (prop parsed "method")) eqn:Hinit;
      [|destruct (shouldCache parsed) eqn:Hcache].
    + destruct (initialize_branch parsed requestId p0) as (H1 & H2 & H3).
      rewrite (proj1 (retry_traffic parsed 0 p p0 Hp0)), Ho0 in H1.
      unfold try_catch in *. rewrite handle_parsed_unfold, Hnote, Hinit by done.
      cbn zeta. fold p0. by split_and!.
    + destruct (cached_branch_reply parsed requestId p p0 Hp0) as (H1 & H2 & H3).
      rewrite Ho0 in H1.
      change (clock_reads p0) with (clock_reads p) in H1.
      unfold p0 in H1 at 2. rewrite fresh_entry_counter in H1.
      unfold try_catch in *.
      rewrite handle_parsed_unfold, Hnote, Hinit, Hcache by done.
      cbn zeta. fold p0. by split_and!.
    + destruct (forward_branch parsed requestId p p0 Hp0) as (H1 & H2 & H3 & _).
      rewrite Ho0 in H1.
      pose proof (retry_settles parsed 0 p) as Hs.
      unfold try_catch in *.
      rewrite handle_parsed_unfold, Hnote, Hinit, Hcache by done.
      cbn zeta. fold p0. split_and!; try done. intros H. by apply H3, Hs.
  - unfold try_catch. rewrite handle_parsed_unfold, Hnote by done.
    by cbn.
Qed.

Lemma not_null_true (v : json) : v ≠ JNull → not_null v = true.
Proof. by destruct v. Qed.

Lemma with_request_id_id (response id : json) :
  id ≠ JNull → prop (with_request_id response id) "id" = Some id.
Proof.
  intros H. unfold with_request_id, spread_with_id. rewrite (not_null_true _ H).
  apply lookup_set_field.
Qed.

Lemma copy_with_request_id_id (cached id : json) :
  id ≠ JNull → prop (copy_with_request_id cached id) "id" = Some id.
Proof.
  intros H. unfold copy_with_request_id. rewrite (not_null_true _ H).
  apply lookup_set_field.
Qed.

Lemma notification_method (m : string) :
  startsWith m "notifications/" = true →
  is_notification (Some (JStr m)) = Normal true.
Proof.
  intros H. unfold is_notification. rewrite H.
  by destruct m.
Qed.

Lemma method_log (m : string) (requestId : json) :
  ToPrimitive_throws requestId = false →
  ∃ text, request_log (Some (JStr m)) requestId = Normal text.
Proof.
  intros H. unfold request_log, template, or_literal. rewrite H.
  destruct (truthy (JStr m)); cbn; by eauto.
Qed.

(** C4, in the form that holds of the code. A message with a non-null [id]
    that [JSON.stringify] writes back as it is, and whose method is not in the
    [notifications/] namespace, gets, once its dispatches settle, exactly one
    line on the output, and the envelope on it carries that [id], whatever the
    cache holds and however many retries it takes; a message whose method is
    in the [notifications/] namespace and whose [id], if it has one, converts
    to a string gets no line and is not forwarded. *)
Theorem id_fidelity (message : string) (parsed : json) (p : proxy) :
  JSON_parse message = Parsed parsed →
  (∀ id,
     prop parsed "id" = Some id → id ≠ JNull → serializable id = true →
     is_notification (prop parsed "method") ≠ Normal true →
     server_settles →
     (handleIncomingMessage message p).1 = Fulfilled tt
     ∧ ∃ envelope,
         stdout (handleIncomingMessage message p).2 = stdout p ++ [line_of envelope]
         ∧ prop envelope "id" = Some id)
  ∧ (∀ m,
       prop parsed "method" = Some (JStr m) →
       startsWith m "notifications/" = true →
       ToPrimitive_throws (default JNull (prop parsed "id")) = false →
       (handleIncomingMessage message p).1 = Fulfilled tt
       ∧ stdout (handleIncomingMessage message p).2 = stdout p
       ∧ posted (handleIncomingMessage message p).2 = posted p).
Proof.
  intros Hparse. split.
  - intros rid Hid Hnn _ Hnote Hsettles.
    assert (parsed ≠ JNull) as Hp by (intros ->; done).
    destruct (handler_writes message parsed p Hparse Hp) as (Hout & _ & Hdone).
    split; [by apply Hdone|].
    unfold handler_reply in Hout. rewrite Hid in Hout. cbn [default from_option id] in Hout.
    pose proof (retry_settles parsed 0 p Hsettles) as Hs.
    destruct (request_log (prop parsed "method") rid) as [text|error];
      cbn [cbind] in Hout; [|eexists; by split].
    destruct (is_notification (prop parsed "method")) as [[|]|error]; [done| |].
    + assert (∃ envelope,
                forwarded_reply rid (sendToServerWithRetry parsed 0 p).1 = Some envelope
                ∧ prop envelope "id" = Some rid) as (env & Henv & Hprop).
      { destruct (sendToServerWithRetry parsed 0 p).1 as [v|e|]; [| |done].
        - eexists. split; [done|]. by apply with_request_id_id.
        - eexists. by split. }
      rewrite Henv in Hout.
      destruct (is_string_literal "initialize" (prop parsed "method")); [by eauto|].
      destruct (shouldCache parsed); [|by eauto].
      destruct (fresh_entry _ _ p) as [cached|]; [|by eauto].
      eexists. split; [exact Hout|]. by apply copy_with_request_id_id.
    + eexists. by split.
  - intros m Hm Hstart Hprint.
    assert (parsed ≠ JNull) as Hp by (intros ->; done).
    unfold handleIncomingMessage. rewrite Hparse, (member_not_null _ _ Hp).
    destruct (method_log m _ Hprint) as [text Hlog].
    unfold try_catch.
    rewrite handle_parsed_unfold, Hm, Hlog, (notification_method _ Hstart) by done.
    by cbn.
Qed.

Lemma shouldCache_method (parsed : json) :
  shouldCache parsed = true →
  parsed ≠ JNull
  ∧ is_notification (prop parsed "method") = Normal false
  ∧ is_string_literal "initialize" (prop parsed "method") = false.
Proof.
  unfold shouldCache. destruct (disableCache config); [done|].
  destruct (prop parsed "method") as [[| | | |m| |]|] eqn:Hm; try done.
  intros H. split; [by intros ->|].
  cbn in H. rewrite !orb_true_iff in H.
  destruct H as [H|[H|[H|H]]]; try done; apply String.eqb_eq in H as ->; by split.
Qed.

Lemma handle_cacheable (message : string) (parsed : json) (p : proxy) :
  JSON_parse message = Parsed parsed → shouldCache parsed = true →
  printable parsed = true →
  handleIncomingMessage message p
  = try_catch (cached_branch parsed (default JNull (prop parsed "id")))
      (λ error, write_line (internal_error (default JNull (prop parsed "id")) error))
      (set_requestCounter (S (requestCounter p)) p).
Proof.
  intros Hparse Hcache Hprint.
  destruct (shouldCache_method parsed Hcache) as (Hp & Hnote & Hinit).
  unfold handleIncomingMessage. rewrite Hparse, (member_not_null _ _ Hp).
  unfold try_catch.
  by rewrite handle_parsed_unfold, (triage_printable _ Hprint), Hnote, Hinit, Hcache.
Qed.

Lemma fresh_entry_address (now : Z) (key : string) (cached : json) (p : proxy) :
  fresh_entry now key p = Some cached →
  ∃ l t, toolCache p !! key = Some l ∧ cacheTimestamps p !! key = Some t
         ∧ heap p !! l = Some cached.
Proof.
  unfold fresh_entry, getCachedResponse.
  destruct (cacheTimestamps p !! key) as [t|]; [|done].
  destruct ((t =? 0) || (now - t >? CACHE_TTL)); [done|]. cbn [fst].
  destruct (toolCache p !! key) as [l|]; [|done].
  unfold deref. destruct (heap p !! l) as [v|] eqn:Hv; [|done]. cbn.
  destruct (truthy v); [|done]. intros [= <-]. by exists l, t.
Qed.

(** C9, in the form that holds of the code. For a cacheable request whose
    [id] can be printed, that finds no fresh entry and whose retried dispatch
    is fulfilled, the cache retains the response exactly as the dispatch gave
    it, with whatever [id] the server put in it, under the time the clock
    gives after the lookup (which reads the clock when the key had a
    timestamp), and the request's [id] goes into a separate object, the one
    written; for a cacheable request that finds a fresh entry, the reply is a
    copy with the request's [id], nothing is sent, and the entry and every
    object created before stay as they were. *)
Theorem cache_entry_unsubstituted (message : string) (parsed : json) (p : proxy) :
  JSON_parse message = Parsed parsed →
  shouldCache parsed = true →
  printable parsed = true →
  (fresh_entry (Date_now (clock_reads p)) (getCacheKey parsed) p = None →
   ∀ fetched,
     (sendToServerWithRetry parsed 0 p).1 = Fulfilled fetched →
     cache_entry (getCacheKey parsed) (handleIncomingMessage message p).2
     = Some (fetched, Date_now (store_index (getCacheKey parsed) p))
     ∧ stdout (handleIncomingMessage message p).2
       = stdout p
         ++ [line_of (with_request_id fetched (default JNull (prop parsed "id")))])
  ∧ (∀ cached,
       fresh_entry (Date_now (clock_reads p)) (getCacheKey parsed) p = Some cached →
       cache_entry (getCacheKey parsed) (handleIncomingMessage message p).2
       = cache_entry (getCacheKey parsed) p
       ∧ toolCache (handleIncomingMessage message p).2 = toolCache p
       ∧ (∀ l, (l < length (heap p))%nat →
               heap (handleIncomingMessage message p).2 !! l = heap p !! l)
       ∧ posted (handleIncomingMessage message p).2 = posted p
       ∧ stdout (handleIncomingMessage message p).2
         = stdout p
           ++ [line_of (copy_with_request_id cached
                          (default JNull (prop parsed "id")))]).
Proof.
  intros Hparse Hcache Hprint. rewrite (handle_cacheable _ _ _ Hparse Hcache Hprint).
  unfold store_index.
  set (requestId := default JNull (prop parsed "id")).
  set (p0 := set_requestCounter (S (requestCounter p)) p).
  split.
  - intros Hmiss fetched Hfetched.
    assert (∃ q2 q',
              try_catch (cached_branch parsed requestId)
                (λ error, write_line (internal_error requestId error)) p0
              = (Fulfilled tt, q')
              ∧ stdout q' = stdout p ++ [line_of (with_request_id fetched requestId)]
              ∧ toolCache q' !! getCacheKey parsed = Some (length (heap q2))
              ∧ cacheTimestamps q' !! getCacheKey parsed
                = Some (Date_now
                          (clock_reads p + lookup_reads (getCacheKey parsed) p))
              ∧ heap q' !! length (heap q2) = Some fetched)
      as (q2 & q' & -> & Hw & Htool & Htime & Hheap).
    { unfold try_catch. rewrite cached_branch_lookup.
      change (clock_reads p0) with (clock_reads p).
      unfold p0 at 1. rewrite fresh_entry_counter, Hmiss.
      set (q1 := (getCachedResponse_call _ _).2).
      destruct (lookup_frame (getCacheKey parsed) p0) as (Hp1 & Ho1 & _ & Hc1).
      change (posted q1 = posted p0) in Hp1. change (stdout q1 = stdout p0) in Ho1.
      change (clock_reads q1
              = (clock_reads p + lookup_reads (getCacheKey parsed) p)%nat) in Hc1.
      pose proof (fetch_and_cache_run parsed requestId (getCacheKey parsed) q1) as Hrun.
      pose proof (retry_frame parsed 0 q1) as (_ & Hout & _ & _ & _ & Hclock).
      assert (posted q1 = posted p) as Hq1 by (by rewrite Hp1).
      pose proof (proj1 (retry_traffic parsed 0 p q1 Hq1)) as Hsame.
      rewrite Hfetched in Hsame.
      destruct (sendToServerWithRetry parsed 0 q1) as [r q2]. cbn [fst snd] in *.
      subst r. destruct Hrun as (q' & -> & Hw & Htool & Htime & Hheap & _).
      exists q2, q'. split; [done|].
      rewrite Hw, Hout, Ho1, Htool, Htime, Hheap, Hclock, Hc1. by split_and!. }
    cbn [fst snd]. split; [|done].
    unfold cache_entry, deref. by rewrite Htool, Htime, Hheap.
  - intros cached Hhit.
    assert (fresh_entry (Date_now (clock_reads p0)) (getCacheKey parsed) p0
            = Some cached) as Hhit0
      by (unfold p0 at 2; by rewrite fresh_entry_counter).
    unfold try_catch. rewrite (cached_branch_hit _ _ _ _ Hhit0).
    cbn [fst snd write toolCache set_stdout set_heap set_clock_reads heap posted stdout].
    destruct (fresh_entry_address _ _ _ _ Hhit) as (l & t & Hl & Ht & Hv).
    split_and!; try done.
    + unfold cache_entry, deref. cbn. rewrite Hl, Ht.
      rewrite lookup_app_l; [done|]. by apply lookup_lt_Some in Hv.
    + intros l' Hl'. by rewrite lookup_app_l.
Qed.

Lemma body_text (cs : list string) (acc : string) :
  foldl (λ acc chunk, acc +:+ chunk) acc cs = acc +:+ stream_text cs.
Proof.
  revert acc. induction cs as [|c cs IH]; intros acc; cbn [foldl stream_text foldr].
  - by rewrite append_nil_r.
  - fold (stream_text cs). by rewrite IH, append_assoc.
Qed.

(** A dispatch answered at once by a plain body resolves, without a retry,
    with what the ['end'] handler makes of the body. *)
Lemma plain_body_dispatch (request : json) (res : http_response) (p : proxy) :
  server (posted p ++ [request]) = Response res →
  includes (default "" (header "content-type" (headers res))) "text/event-stream"
  = false →
  ending res = End →
  (sendToServerWithRetry request 0 p).1
  = Fulfilled (handleJSONResponse_end (stream_text (chunks res))).
Proof.
  intros Hserver Hplain Hend.
  destruct (retry_run request 0 0 p) as (H1 & _); [intros j; lia | lia | |].
  - left. intros e. unfold nth_exchange. cbn [replicate].
    rewrite Hserver. unfold outcome_of. rewrite Hplain.
    unfold handleJSONResponse. by rewrite Hend.
  - rewrite H1. unfold nth_exchange. cbn [replicate].
    rewrite Hserver. unfold outcome_of. rewrite Hplain.
    unfold handleJSONResponse. by rewrite Hend, body_text.
Qed.

(** C1, in the form that holds of the code. For a body that does not parse as
    JSON, the normalizer gives an error envelope with a [null] id whose data
    carries the first 200 characters of the body; and when that body answers a
    forwarded request (one whose method and [id] can be printed, not a
    notification, and not served from the cache), the line written holds that
    envelope with its [id] replaced by the request's [id] when the request has
    a non-null one. *)
Theorem unparseable_body (body : string) (reason : string) :
  JSON_parse body = SyntaxError reason →
  (∃ code message type,
     handleJSONResponse_end body
     = error_envelope JNull code message
         [("type", type); ("original", JStr (substring_to 200 body))])
  ∧ (∀ (message : string) (parsed : json) (p : proxy) (res : http_response),
       JSON_parse message = Parsed parsed → parsed ≠ JNull →
       printable parsed = true →
       is_notification (prop parsed "method") = Normal false →
       (shouldCache parsed = true →
        fresh_entry (Date_now (clock_reads p)) (getCacheKey parsed) p = None) →
       server (posted p ++ [parsed]) = Response res →
       includes (default "" (header "content-type" (headers res)))
         "text/event-stream" = false →
       ending res = End →
       stream_text (chunks res) = body →
       stdout (handleIncomingMessage message p).2
       = stdout p
         ++ [line_of (with_request_id (handleJSONResponse_end body)
                        (default JNull (prop parsed "id")))]).
Proof.
  intros Hbody. split.
  - unfold handleJSONResponse_end. rewrite Hbody. by eauto.
  - intros message parsed p res Hparse Hnn Hprint Hnote Hmiss Hserver Hplain Hend Htext.
    destruct (handler_writes message parsed p Hparse Hnn) as (Hout & _).
    rewrite Hout. f_equal. unfold handler_reply.
    rewrite (triage_printable _ Hprint), Hnote.
    rewrite (plain_body_dispatch _ _ _ Hserver Hplain Hend), Htext.
    cbn [forwarded_reply].
    destruct (is_string_literal "initialize" (prop parsed "method")); [done|].
    destruct (shouldCache parsed); [|done]. by rewrite Hmiss.
Qed.

(** ** Further properties of the retry orchestrator *)

Lemma sendToServer_timers (request : json) (p : proxy) :
  timers (sendToServer request p).2 = timers p
  ∧ random_draws (sendToServer request p).2 = random_draws p.
Proof.
  unfold sendToServer, extractSessionId.
  destruct (server _) as [e| |res]; try done.
  repeat case_match; by cbn.
Qed.

Lemma backoff_sleep_timers (attempt : Z) (p : proxy) :
  timers (sleep (backoff attempt p).1 (backoff attempt p).2)
  = timers p ++ [nth_pause attempt p 0]
  ∧ random_draws (sleep (backoff attempt p).1 (backoff attempt p).2)
    = (random_draws p + if jitter (retry_of config) then 1 else 0)%nat.
Proof.
  unfold backoff, sleep, nth_pause.
  rewrite Z.add_0_r, Nat.add_0_r.
  destruct (jitter (retry_of config)); cbn; split; try done; lia.
Qed.

Lemma nth_pause_shift (attempt : Z) (p q : proxy) (k : nat) :
  random_draws q = (random_draws p + if jitter (retry_of config) then 1 else 0)%nat →
  nth_pause (attempt + 1) q k = nth_pause attempt p (S k).
Proof.
  intros Hq. unfold nth_pause. rewrite Hq.
  replace (attempt + 1 + Z.of_nat k) with (attempt + Z.of_nat (S k)) by lia.
  destruct (jitter (retry_of config)); [|done].
  by replace (random_draws p + 1 + k)%nat with (random_draws p + S k)%nat by lia.
Qed.

(** The shape of any run: some number [n] of rejected dispatches, each
    followed by its pause, and one last dispatch. *)
Lemma retry_shape (request : json) (attempt : Z) (p : proxy) :
  ∃ n : nat,
    posted (sendToServerWithRetry request attempt p).2
    = posted p ++ replicate (S n) request
    ∧ timers (sendToServerWithRetry request attempt p).2
      = timers p ++ map (nth_pause attempt p) (seq 0 n)
    ∧ Z.of_nat n ≤ Z.max 0 (maxRetries (retry_of config) - attempt).
Proof.
  revert attempt p.
  apply (retry_induction request
           (λ attempt p r,
              ∃ n : nat,
                posted r.2 = posted p ++ replicate (S n) request
                ∧ timers r.2 = timers p ++ map (nth_pause attempt p) (seq 0 n)
                ∧ Z.of_nat n ≤ Z.max 0 (maxRetries (retry_of config) - attempt))).
  intros attempt p IH. rewrite retry_unfold.
  pose proof (sendToServer_posted request p) as Hp.
  pose proof (sendToServer_timers request p) as [Ht Hr].
  destruct (sendToServer request p) as [[response|error|] p1]; cbn [fst snd] in *.
  1,3: (exists 0%nat; cbn [replicate seq map]; rewrite app_nil_r; split_and!; [done..|lia]).
  destruct (Z_ge_lt_dec attempt (maxRetries (retry_of config))) as [Hge|Hlt].
  { exists 0%nat. cbn [replicate seq map fst snd]. rewrite app_nil_r.
    split_and!; [done..|lia]. }
  destruct (IH error p1 eq_refl Hlt) as (n & H1 & H2 & H3).
  destruct (backoff_sleep_timers attempt p1) as [Hts Hrs].
  exists (S n). split_and!.
  - rewrite H1, (proj2 (backoff_sleep_frame _ _)), Hp. by rewrite <- app_assoc.
  - rewrite H2, Hts, Ht, <- app_assoc. f_equal.
    cbn [seq map app]. f_equal.
    + unfold nth_pause. by rewrite Hr.
    + rewrite <- seq_shift, map_map. apply map_ext. intros k.
      apply nth_pause_shift. by rewrite Hrs, Hr.
  - lia.
Qed.

Lemma end_handler_valid (body : string) :
  isValidJsonRpcResponse (handleJSONResponse_end body) = true.
Proof.
  unfold handleJSONResponse_end.
  destruct (JSON_parse body) as [parsed|reason].
  - destruct (isValidJsonRpcResponse parsed) eqn:Hv; [done|].
    destruct (convert_shape body parsed) as (i & c & m & pl & ->).
    apply error_envelope_valid.
  - destruct (convert_shape body JNull) as (i & c & m & pl & ->).
    apply error_envelope_valid.
Qed.


(** X4. A response that is not an event stream and whose body ends is
    never retried, whatever the body: the retried dispatch makes one POST,
    pauses not at all, and is fulfilled with what the ['end'] handler makes
    of the body, an envelope that the validator of the proxy accepts. *)
Theorem plain_response_not_retried (request : json) (res : http_response) (p : proxy) :
  server (posted p ++ [request]) = Response res →
  includes (default "" (header "content-type" (headers res))) "text/event-stream"
  = false →
  ending res = End →
  (sendToServerWithRetry request 0 p).1
  = Fulfilled (handleJSONResponse_end (stream_text (chunks res)))
  ∧ posted (sendToServerWithRetry request 0 p).2 = posted p ++ [request]
  ∧ timers (sendToServerWithRetry request 0 p).2 = timers p
  ∧ isValidJsonRpcResponse (handleJSONResponse_end (stream_text (chunks res))) = true.
Proof.
  intros Hs Hct Hend.
  rewrite retry_unfold.
  pose proof (sendToServer_outcome request p) as Ho.
  pose proof (sendToServer_posted request p) as Hp.
  pose proof (sendToServer_timers request p) as [Ht _].
  rewrite Hs in Ho. unfold outcome_of in Ho. rewrite Hct in Ho.
  unfold handleJSONResponse in Ho. rewrite Hend, body_text in Ho.
  cbn [resolve] in Ho.
  destruct (sendToServer request p) as [[response|error|] p1]; cbn [fst snd] in *;
    try done.
  injection Ho as ->. split_and!; try done. apply end_handler_valid.
Qed.

(** ** What handling a message keeps *)

Section Forwarding.
Context (R : proxy → proxy → Prop) (HR : dispatch_closed R).

Lemma bind_keeps {A B} (m : M A) (k : A → M B) (p : proxy) :
  R p (m p).2 → (∀ a q, R q (k a q).2) → R p (bind m k p).2.
Proof.
  intros Hm Hk. unfold bind.
  destruct (m p) as [[a|e|] q] eqn:E; cbn [snd] in *; try done.
  eapply step_trans; [done | exact Hm | apply Hk].
Qed.

Lemma try_catch_keeps {A} (m : M A) (h : js_error → M A) (p : proxy) :
  R p (m p).2 → (∀ e q, R q (h e q).2) → R p (try_catch m h p).2.
Proof.
  intros Hm Hh. unfold try_catch.
  destruct (m p) as [[a|e|] q] eqn:E; cbn [snd] in *; try done.
  eapply step_trans; [done | exact Hm | apply Hh].
Qed.

Lemma retry_keeps (request : json) (attempt : Z) (p : proxy) :
  R p (sendToServerWithRetry request attempt p).2.
Proof.
  revert attempt p.
  apply (retry_induction request (λ _ p r, R p r.2)).
  intros attempt p IH. rewrite retry_unfold.
  pose proof (step_dispatch R HR request p) as Hd.
  destruct (sendToServer request p) as [[response|error|] p1]; cbn [fst snd] in *;
    try done.
  destruct (Z_ge_lt_dec attempt (maxRetries (retry_of config))) as [Hge|Hlt]; [done|].
  eapply step_trans; [done | exact Hd |].
  eapply step_trans; [done | apply (step_pause R HR attempt p1) |].
  by apply (IH error p1).
Qed.

Lemma write_line_keeps (v : json) (p : proxy) : R p (write_line v p).2.
Proof. apply (step_write R HR). Qed.

Lemma forward_keeps (parsed requestId : json) (p : proxy) :
  R p ((do response <- sendToServerWithRetry parsed 0;
        write_line (with_request_id response requestId))%async p).2.
Proof.
  apply bind_keeps; [apply retry_keeps|]. intros response q. apply write_line_keeps.
Qed.

Lemma initialize_keeps (parsed requestId : json) (p : proxy) :
  R p ((do response <- sendToServerWithRetry parsed 0;
        write_line (with_request_id response requestId);;
        try_catch (do _ <- sendToServerWithRetry initNotification 0; ret tt)
          (λ _, ret tt))%async p).2.
Proof.
  apply bind_keeps; [apply retry_keeps|]. intros response q.
  apply bind_keeps; [apply write_line_keeps|]. intros _ q1.
  apply try_catch_keeps.
  - apply bind_keeps; [apply retry_keeps|]. intros _ q2. apply (step_refl R HR).
  - intros e q2. apply (step_refl R HR).
Qed.

(** Handling a message that is not served through the cache. *)
Lemma uncached_keeps (message : string) (p : proxy) :
  (∀ parsed, JSON_parse message = Parsed parsed → shouldCache parsed = false) →
  R p (handleIncomingMessage message p).2.
Proof.
  intros Hnc. unfold handleIncomingMessage.
  destruct (JSON_parse message) as [parsed|m]; [|apply write_line_keeps].
  destruct (member parsed "id") as [i|error] eqn:Hid; [|apply write_line_keeps].
  apply try_catch_keeps; [|intros e q; apply write_line_keeps].
  rewrite handle_parsed_unfold by (by intros ->). cbn zeta.
  pose proof (step_counter R HR (S (requestCounter p)) p) as Hc.
  destruct (request_log (prop parsed "method") (default JNull i)) as [text|];
    cbn [cbind]; [|done].
  destruct (is_notification (prop parsed "method")) as [[]|]; try done.
  eapply step_trans; [done | exact Hc |].
  destruct (is_string_literal "initialize" (prop parsed "method"));
    [apply initialize_keeps|].
  rewrite (Hnc parsed eq_refl). apply forward_keeps.
Qed.

End Forwarding.

Section Steps.
Context (R : proxy → proxy → Prop) (HR : step_closed R).

Lemma fetch_and_cache_keeps (parsed requestId : json) (key : string) (p : proxy) :
  R p (fetch_and_cache parsed requestId key p).2.
Proof.
  pose proof (step_forward R HR) as HF.
  unfold fetch_and_cache.
  apply (bind_keeps R HF); [apply (retry_keeps R HF)|]. intros fetched q.
  unfold bind at 1. cbn [alloc fst snd].
  eapply (step_trans R HF); [apply (step_alloc R HR fetched q) |].
  set (q1 := set_heap (heap q ++ [fetched]) q).
  unfold bind at 1, Date_now_read.
  eapply (step_trans R HF); [apply (step_clock R HR (S (clock_reads q1)) q1) |].
  set (q2 := set_clock_reads (S (clock_reads q1)) q1).
  unfold bind at 1, act.
  eapply (step_trans R HF);
    [apply (step_store R HR (Date_now (clock_reads q1)) key (length (heap q)) q2) |].
  { unfold q2, q1. cbn. rewrite length_app. cbn. lia. }
  set (q3 := setCachedResponse _ _ _ q2).
  apply (bind_keeps R HF).
  - destruct (not_null requestId); [apply (step_alloc R HR) | apply (step_refl R HF)].
  - intros out q4. apply (bind_keeps R HF); [apply (step_refl R HF)|].
    intros v q5. apply (write_line_keeps R HF).
Qed.

Lemma cached_branch_keeps (parsed requestId : json) (p : proxy) :
  R p (cached_branch parsed requestId p).2.
Proof.
  pose proof (step_forward R HR) as HF.
  rewrite cached_branch_lookup.
  set (q := (getCachedResponse_call _ _).2).
  assert (R p q) as Hq.
  { unfold q, getCachedResponse_call. cbn [snd].
    destruct (has_timestamp (getCacheKey parsed) p); [|apply (step_lookup R HR)].
    eapply (step_trans R HF); [apply (step_clock R HR (S (clock_reads p)) p) |].
    apply (step_lookup R HR). }
  eapply (step_trans R HF); [exact Hq |].
  destruct (fresh_entry _ _ p) as [cached|].
  - rewrite reply_from_cache_run. cbn [snd].
    eapply (step_trans R HF); [apply (step_alloc R HR) | apply (step_write R HF)].
  - apply fetch_and_cache_keeps.
Qed.

(** Handling a message respects every relation its steps respect. *)
Lemma handler_keeps (message : string) (p : proxy) :
  R p (handleIncomingMessage message p).2.
Proof.
  pose proof (step_forward R HR) as HF.
  unfold handleIncomingMessage.
  destruct (JSON_parse message) as [parsed|m]; [|apply (write_line_keeps R HF)].
  destruct (member parsed "id") as [i|error] eqn:Hid; [|apply (write_line_keeps R HF)].
  apply (try_catch_keeps R HF); [|intros e q; apply (write_line_keeps R HF)].
  rewrite handle_parsed_unfold by (by intros ->). cbn zeta.
  pose proof (step_counter R HF (S (requestCounter p)) p) as Hc.
  destruct (request_log (prop parsed "method") (default JNull i)) as [text|];
    cbn [cbind]; [|done].
  destruct (is_notification (prop parsed "method")) as [[]|]; try done.
  eapply (step_trans R HF); [exact Hc |].
  destruct (is_string_literal "initialize" (prop parsed "method"));
    [apply (initialize_keeps R HF)|].
  destruct (shouldCache parsed);
    [apply cached_branch_keeps | apply (forward_keeps R HF)].
Qed.

End Steps.

(** ** Invariants of the message handler *)

Lemma extractSessionId_kept (hs : list (string * string)) (p : proxy) :
  session_kept p (extractSessionId hs p).
Proof.
  unfold extractSessionId, session_kept.
  destruct (or_header _ _) as [s|]; [|by left].
  destruct (nonempty s) eqn:Hs; [|by left].
  apply nonempty_true in Hs.
  destruct (sessionId p) as [old|] eqn:Hold; [destruct (String.eqb old s)|];
    cbn; rewrite ?Hold; by eauto.
Qed.

Lemma session_kept_trans (p q r : proxy) :
  session_kept p q → session_kept q r → session_kept p r.
Proof.
  unfold session_kept. intros [H1|(s & Hs & H1)] [H2|(s' & Hs' & H2)];
    rewrite ?H2, ?H1; by eauto.
Qed.

Lemma session_kept_closed : step_closed session_kept.
Proof.
  split; [split|..]; try (intros; by left).
  - apply session_kept_trans.
  - intros request p. unfold sendToServer.
    destruct (server _) as [e| |res]; try by left.
    pose proof (extractSessionId_kept (headers res)
                  (set_posted (posted p ++ [request]) p)) as H.
    by destruct (includes _ _).
  - intros attempt p. unfold backoff, sleep. left. by destruct (jitter _).
  - intros now key p. left. unfold getCachedResponse. by repeat case_match.
Qed.

Lemma heap_extended_closed : step_closed heap_extended.
Proof.
  unfold heap_extended.
  split; [split|..]; try (intros; exists []; by rewrite app_nil_r).
  - intros p q r [m1 H1] [m2 H2]. exists (m1 ++ m2). by rewrite H2, H1, app_assoc.
  - intros request p. exists []. rewrite app_nil_r.
    apply (sendToServer_frame request p).
  - intros attempt p. exists []. rewrite app_nil_r.
    apply (backoff_sleep_frame attempt p).
  - intros v p. by exists [v].
  - intros now key p. exists []. by rewrite app_nil_r, getCachedResponse_heap.
Qed.

Lemma cache_consistent_frame (p q : proxy) :
  toolCache q = toolCache p → cacheTimestamps q = cacheTimestamps p →
  (length (heap p) ≤ length (heap q))%nat →
  cache_consistent p → cache_consistent q.
Proof.
  unfold cache_consistent. intros -> -> Hl [H1 H2]. split; [done|].
  intros key l Hk. specialize (H2 key l Hk). lia.
Qed.

Lemma cache_consistent_purge (key : string) (p : proxy) :
  cache_consistent p →
  cache_consistent
    (set_cache (delete key (toolCache p)) (delete key (cacheTimestamps p)) p).
Proof.
  unfold cache_consistent. cbn. intros [H1 H2]. split.
  - intros k. rewrite !lookup_delete_is_Some. by rewrite H1.
  - intros k l [_ Hk]%lookup_delete_Some. by apply (H2 k).
Qed.

Lemma cache_consistent_closed :
  step_closed (λ p p', cache_consistent p → cache_consistent p').
Proof.
  split; [split|..]; try done.
  - intros p q r H1 H2 H. by apply H2, H1.
  - intros request p. destruct (sendToServer_frame request p) as (Hh & _ & Hc & Ht & _).
    apply cache_consistent_frame; try done. by rewrite Hh.
  - intros attempt p.
    destruct (backoff_sleep_frame attempt p) as [(Hh & _ & Hc & Ht & _) _].
    apply cache_consistent_frame; try done. by rewrite Hh.
  - intros v p. apply cache_consistent_frame; try done.
    cbn. rewrite length_app. lia.
  - intros now key p H. unfold getCachedResponse.
    repeat case_match; cbn [snd]; try done; by apply cache_consistent_purge.
  - intros now key l p Hl [H1 H2]. unfold cache_consistent, setCachedResponse. cbn.
    split.
    + intros k. rewrite !lookup_insert_is_Some. by rewrite H1.
    + intros k l' [[_ <-]|[_ Hk]]%lookup_insert_Some; [done|]. by apply (H2 k).
Qed.

Lemma cache_untouched_closed : dispatch_closed cache_untouched.
Proof.
  unfold cache_untouched. split; try done.
  - intros p q r (H1 & H2 & H3) (H4 & H5 & H6). split_and!; congruence.
  - intros request p. destruct (sendToServer_frame request p) as (Hh & _ & Hc & Ht & _).
    done.
  - intros attempt p.
    by destruct (backoff_sleep_frame attempt p) as [(Hh & _ & Hc & Ht & _) _].
Qed.

(** A relation that handling one message respects is respected by handling
    several in a row. *)
Lemma handle_all_keeps (R : proxy → proxy → Prop) :
  (∀ p, R p p) → (∀ p q r, R p q → R q r → R p r) →
  ∀ messages : list string,
    (∀ message p, message ∈ messages → R p (handleIncomingMessage message p).2) →
    ∀ p, R p (handle_all messages p).
Proof.
  intros Hrefl Htrans messages.
  induction messages as [|message messages IH]; intros Hstep p; [apply Hrefl|].
  unfold handle_all. cbn [foldl].
  eapply Htrans; [apply Hstep; by left|].
  apply IH. intros m q Hm. apply Hstep. by right.
Qed.

(** X5. Handling messages never clears the session identifier: after any
    sequence of messages it is the one held before, or a non-empty one
    taken from a response header. *)
Theorem session_never_cleared (messages : list string) (p : proxy) :
  (sessionId (handle_all messages p) = sessionId p
   ∨ ∃ s, s ≠ "" ∧ sessionId (handle_all messages p) = Some s)
  ∧ (is_Some (sessionId p) → is_Some (sessionId (handle_all messages p))).
Proof.
  assert (session_kept p (handle_all messages p)) as H.
  { apply (handle_all_keeps session_kept).
    - intros q. by left.
    - apply session_kept_trans.
    - intros message q _. apply (handler_keeps _ session_kept_closed). }
  split; [exact H|].
  intros Hs. destruct H as [->|(s & _ & ->)]; by eauto.
Qed.

(** X6. Handling messages never changes or removes an object of the store:
    what is at an address stays there, so the response object a cache entry
    retains is the one that was stored, whatever requests follow. *)
Theorem stored_objects_immutable (messages : list string) (p : proxy)
  (l : nat) (v : json) :
  heap p !! l = Some v → heap (handle_all messages p) !! l = Some v.
Proof.
  intros Hl.
  assert (heap_extended p (handle_all messages p)) as [more ->].
  { apply (handle_all_keeps heap_extended).
    - apply (step_refl _ (step_forward _ heap_extended_closed)).
    - apply (step_trans _ (step_forward _ heap_extended_closed)).
    - intros message q _. apply (handler_keeps _ heap_extended_closed). }
  by apply lookup_app_l_Some.
Qed.

(** X7. In every state reached from a new proxy by handling messages, the
    cache map and the timestamp map have the same keys, and every cached
    address holds an object of the store. *)
Theorem cache_stays_consistent (messages : list string) :
  (∀ key, is_Some (toolCache (handle_all messages new_proxy) !! key)
          ↔ is_Some (cacheTimestamps (handle_all messages new_proxy) !! key))
  ∧ (∀ key l, toolCache (handle_all messages new_proxy) !! key = Some l →
              is_Some (heap (handle_all messages new_proxy) !! l)).
Proof.
  assert (cache_consistent (handle_all messages new_proxy)) as [H1 H2].
  { apply (handle_all_keeps (λ p p', cache_consistent p → cache_consistent p')).
    - done.
    - intros p q r Hpq Hqr H. by apply Hqr, Hpq.
    - intros message q _. apply (handler_keeps _ cache_consistent_closed).
    - split; [|done]. intros key. cbn. by rewrite !lookup_empty. }
  split; [done|]. intros key l Hk. apply lookup_lt_is_Some. by apply (H2 key).
Qed.

(** X8. Messages for which [shouldCache] is false (every message when
    caching is disabled, and otherwise every method but the three list
    methods), as well as lines that do not parse, leave the cache, its
    timestamps and the object store exactly as they were. *)
Theorem uncached_messages_leave_cache (messages : list string) (p : proxy) :
  (∀ message parsed,
     message ∈ messages → JSON_parse message = Parsed parsed →
     shouldCache parsed = false) →
  toolCache (handle_all messages p) = toolCache p
  ∧ cacheTimestamps (handle_all messages p) = cacheTimestamps p
  ∧ heap (handle_all messages p) = heap p.
Proof.
  intros Hnc.
  apply (handle_all_keeps cache_untouched).
  - apply (step_refl _ cache_untouched_closed).
  - apply (step_trans _ cache_untouched_closed).
  - intros message q Hin. apply (uncached_keeps _ cache_untouched_closed).
    intros parsed. by apply Hnc.
Qed.

(** ** Request headers and the session identifier *)

(** X9. Every POST carries its credential in exactly one header:
    [X-API-Key] when that method is configured, and otherwise
    [Authorization] with the scheme [ApiKey] or [Token] when configured and
    [Bearer] for any other method; it declares its content type and the
    length of its body, and it carries [Mcp-Session-Id] exactly when the
    instance holds a non-empty session identifier. *)
Theorem request_credentials (auth : AuthConfig) (postData : string)
  (session : option string) :
  request_headers auth postData session !! "Content-Type" = Some "application/json"
  ∧ request_headers auth postData session !! "Content-Length"
    = Some (pretty (String.length postData))
  ∧ (if String.eqb (method auth) "X-API-Key"
     then request_headers auth postData session !! "X-API-Key" = Some (token auth)
          ∧ request_headers auth postData session !! "Authorization" = None
     else request_headers auth postData session !! "X-API-Key" = None
          ∧ request_headers auth postData session !! "Authorization"
            = Some ((if String.eqb (method auth) "ApiKey"
                        || String.eqb (method auth) "Token"
                     then method auth else "Bearer") +:+ " " +:+ token auth))
  ∧ request_headers auth postData session !! "Mcp-Session-Id"
    = match session with
      | Some s => if nonempty s then Some s else None
      | None => None
      end.
Proof.
  unfold request_headers, addAuthHeader.
  destruct (String.eqb (method auth) "X-API-Key") eqn:E1;
    [|destruct (String.eqb (method auth) "ApiKey") eqn:E2;
      [apply String.eqb_eq in E2 as ->
      |destruct (String.eqb (method auth) "Token") eqn:E3;
       [apply String.eqb_eq in E3 as ->|]]];
    cbn [orb];
    (destruct session as [s|]; [destruct (nonempty s)|]);
    split_and!; by simplify_map_eq.
Qed.

(** X10. A session identifier a response announces in its
    [mcp-session-id] header is the one the instance holds afterwards, and
    the one every later POST sends back in [Mcp-Session-Id]. *)
Theorem session_id_sent_back (request : json) (res : http_response) (s : string)
  (p : proxy) :
  server (posted p ++ [request]) = Response res →
  header "mcp-session-id" (headers res) = Some s → s ≠ "" →
  sessionId (sendToServer request p).2 = Some s
  ∧ ∀ auth postData,
      request_headers auth postData (sessionId (sendToServer request p).2)
        !! "Mcp-Session-Id" = Some s.
Proof.
  intros Hs Hh Hne.
  assert (nonempty s = true) as Hn by (by apply nonempty_true).
  assert (sessionId (sendToServer request p).2 = Some s) as ->.
  { unfold sendToServer. cbn [posted set_posted]. rewrite Hs.
    assert (sessionId (extractSessionId (headers res)
                         (set_posted (posted p ++ [request]) p)) = Some s) as H.
    { unfold extractSessionId. rewrite Hh. cbn [or_header]. rewrite !Hn.
      cbn [sessionId set_posted].
      destruct (sessionId p) as [old|] eqn:Hold; [|done].
      destruct (String.eqb old s) eqn:E; [|done].
      apply String.eqb_eq in E as ->. done. }
    by destruct (includes _ _). }
  split; [done|]. intros auth postData.
  unfold request_headers. rewrite Hn. by simplify_map_eq.
Qed.

(** ** Framing of the standard input *)

Lemma split_line_cons (c : ascii) (r : string) :
  split (String newline "") (String c r)
  = if Ascii.eqb newline c
    then "" :: split (String newline "") r
    else cons_head c (split (String newline "") r).
Proof.
  unfold split. cbn [split_from startsWith String.length Nat.sub].
  rewrite andb_true_r. by destruct (Ascii.eqb newline c).
Qed.

Lemma split_line_single (r p : string) :
  split (String newline "") r = [p] → p = r.
Proof.
  revert p. induction r as [|c r IH]; intros p; [by intros [= <-]|].
  rewrite split_line_cons. destruct (Ascii.eqb newline c).
  - intros [= _ H]. by apply split_nonempty in H.
  - destruct (split (String newline "") r) as [|p1 [|p2 ps]] eqn:Hr.
    + by apply split_nonempty in Hr.
    + intros [= <-]. f_equal. by apply IH.
    + done.
Qed.

(** Reading more text continues the split from the unfinished last line:
    this is what lets the ['readable'] handler keep only [lines.pop()]. *)
Lemma split_line_append (s x : string) :
  split (String newline "") (s +:+ x)
  = pop_rest (split (String newline "") s)
    ++ split (String newline "")
         (default "" (pop_last (split (String newline "") s)) +:+ x).
Proof.
  induction s as [|c r IH]; [done|].
  rewrite append_cons, !split_line_cons.
  pose proof (split_nonempty (String newline "") r) as Hne.
  destruct (Ascii.eqb newline c) eqn:Hc.
  - rewrite IH. by rewrite pop_rest_cons, pop_last_cons.
  - destruct (split (String newline "") r) as [|p [|p2 ps]] eqn:Hsp; [done| |].
    + pose proof (split_line_single _ _ Hsp) as ->.
      cbn [pop_rest pop_last removelast last default from_option id cons_head app].
      by rewrite (append_cons c), split_line_cons, Hc.
    + rewrite IH. by rewrite cons_head_app.
Qed.

Lemma last_line_single (s : string) :
  split (String newline "") (default "" (pop_last (split (String newline "") s)))
  = [default "" (pop_last (split (String newline "") s))].
Proof.
  induction s as [|c r IH]; [done|].
  rewrite split_line_cons.
  pose proof (split_nonempty (String newline "") r) as Hne.
  destruct (Ascii.eqb newline c) eqn:Hc.
  - by rewrite pop_last_cons.
  - destruct (split (String newline "") r) as [|p [|p2 ps]] eqn:Hr; [done| |].
    + pose proof (split_line_single _ _ Hr) as ->.
      cbn [cons_head pop_last last default from_option id].
      by rewrite split_line_cons, Hc, Hr.
    + cbn [cons_head]. rewrite pop_last_cons by done.
      by rewrite <- (pop_last_cons p) by done.
Qed.

Lemma handled_lines (calls lines : list string) :
  foldl (λ calls line, if nonempty (trim line) then calls ++ [trim line] else calls)
    calls lines
  = calls ++ map trim (List.filter (λ line, nonempty (trim line)) lines).
Proof.
  revert calls. induction lines as [|line lines IH]; intros calls.
  - by rewrite app_nil_r.
  - cbn [foldl List.filter]. rewrite IH.
    destruct (nonempty (trim line)); [|done].
    by rewrite <- app_assoc.
Qed.

Lemma read_chunks (st : Stdin.loop) (cs : list string) :
  split (String newline "") (Stdin.buffer st) = [Stdin.buffer st] →
  Stdin.handled (foldl Stdin.read st cs)
  = Stdin.handled st
    ++ map trim
         (List.filter (λ line, nonempty (trim line))
            (pop_rest (split (String newline "") (Stdin.buffer st +:+ stream_text cs))))
  ∧ Stdin.buffer (foldl Stdin.read st cs)
    = default ""
        (pop_last (split (String newline "") (Stdin.buffer st +:+ stream_text cs))).
Proof.
  revert st. induction cs as [|c cs IH]; intros st Hst.
  - cbn [foldl stream_text foldr]. rewrite append_nil_r, Hst. cbn.
    by rewrite app_nil_r.
  - cbn [foldl stream_text foldr]. fold (stream_text cs).
    destruct (IH (Stdin.read st c)) as [H1 H2].
    { unfold Stdin.read. cbn [Stdin.buffer]. apply last_line_single. }
    rewrite H1, H2. unfold Stdin.read. cbn [Stdin.buffer Stdin.handled].
    rewrite handled_lines, <- (append_assoc (Stdin.buffer st) c (stream_text cs)).
    rewrite (split_line_append (Stdin.buffer st +:+ c) (stream_text cs)).
    pose proof (split_nonempty (String newline "")
                  (default "" (pop_last (split (String newline "") (Stdin.buffer st +:+ c)))
                   +:+ stream_text cs)) as Hne.
    rewrite pop_rest_app, pop_last_app by done.
    split; [|done].
    by rewrite List.filter_app, map_app, app_assoc.
Qed.

(** X11. Whatever way the standard input is cut into chunks, the messages
    passed to [handleIncomingMessage] are the lines of the whole text that
    end with a newline and are not blank, trimmed and in order; the text
    after the last newline stays in the buffer and is never handled, not
    even when the input ends. *)
Theorem stdin_framing (chunks : list string) :
  Stdin.handled (Stdin.startMessageLoop chunks)
  = map trim
      (List.filter (λ line, nonempty (trim line))
         (pop_rest (split (String newline "") (stream_text chunks))))
  ∧ Stdin.buffer (Stdin.startMessageLoop chunks)
    = default "" (pop_last (split (String newline "") (stream_text chunks))).
Proof.
  unfold Stdin.startMessageLoop.
  destruct (read_chunks {| Stdin.buffer := ""; Stdin.handled := [] |} chunks) as [H1 H2];
    [done|].
  by rewrite H1, H2.
Qed.

(** ** Further properties of the SSE consumer *)

Lemma sse_state_eq (a b : sse_state) :
  buffer a = buffer b → promise a = promise b → logged a = logged b → a = b.
Proof. destruct a, b. cbn. by intros -> -> ->. Qed.

(** The state of the consumer after the chunks depends on their
    concatenation only. *)
Lemma sse_chunks_text (cs cs' : list string) :
  stream_text cs = stream_text cs' →
  foldl sse_data {| buffer := ""; promise := Pending; logged := [] |} cs
  = foldl sse_data {| buffer := ""; promise := Pending; logged := [] |} cs'.
Proof.
  intros Htext.
  set (st0 := {| buffer := ""; promise := Pending; logged := [] |}).
  destruct (sse_chunks st0 cs) as [Hb [Hp Hl]]; [done|].
  destruct (sse_chunks st0 cs') as [Hb' [Hp' Hl']]; [done|].
  rewrite Htext in Hb, Hp, Hl.
  apply sse_state_eq; congruence.
Qed.

(** X12. The way an event stream settles the promise of [sendToServer],
    and the errors it logs, depend on the concatenation of its chunks and
    on how it ends, not on where the chunks are cut. *)
Theorem sse_chunking_invariant (res res' : http_response) :
  stream_text (chunks res) = stream_text (chunks res') →
  ending res = ending res' →
  promise (handleSSEResponse res) = promise (handleSSEResponse res')
  ∧ logged (handleSSEResponse res) = logged (handleSSEResponse res').
Proof.
  intros Htext Hend. unfold handleSSEResponse.
  by rewrite (sse_chunks_text _ _ Htext), Hend.
Qed.

Section Streams.
Hypothesis parse_empty : ∃ m, JSON_parse "" = SyntaxError m.

(** The consumer after the chunks of a stream: its buffer is the trailing
    block, and it has resolved with the first payload of the complete
    blocks that parses, if any. *)
Lemma sse_after_chunks (cs : list string) :
  let st := foldl sse_data {| buffer := ""; promise := Pending; logged := [] |} cs in
  buffer st = default "" (pop_last (sse_blocks (stream_text cs)))
  ∧ promise st
    = match first_json (map payload (pop_rest (sse_blocks (stream_text cs)))) with
      | Some v => Fulfilled v
      | None => Pending
      end.
Proof.
  set (st0 := {| buffer := ""; promise := Pending; logged := [] |}).
  destruct (sse_chunks st0 cs) as [Hb [Hp _]]; [done|].
  cbn [buffer st0] in Hb, Hp. rewrite append_nil_l in Hb, Hp.
  fold (sse_blocks (stream_text cs)) in Hb, Hp.
  cbn zeta. split; [done|]. rewrite Hp.
  pose proof (sse_events_pending parse_empty st0
                (pop_rest (sse_blocks (stream_text cs))) eq_refl) as Hev.
  destruct (first_json _); by destruct Hev.
Qed.

(** X13. An event stream that ends without any payload that parses
    leaves the promise of [sendToServer] unsettled when its trailing block
    has no payload, and rejects it with [Invalid JSON in final SSE] when
    the trailing block has one. *)
Theorem sse_end_without_json (res : http_response) :
  ending res = End →
  first_json (map payload (sse_blocks (stream_text (chunks res)))) = None →
  ∃ m,
    JSON_parse (payload (default "" (pop_last (sse_blocks (stream_text (chunks res))))))
    = SyntaxError m
    ∧ promise (handleSSEResponse res)
      = if nonempty
             (payload (default "" (pop_last (sse_blocks (stream_text (chunks res))))))
        then Rejected (JsError "Error" ("Invalid JSON in final SSE: SyntaxError: " +:+ m))
        else Pending.
Proof.
  intros Hend Hnone.
  destruct (sse_after_chunks (chunks res)) as [Hb Hp].
  set (B := sse_blocks (stream_text (chunks res))) in *.
  assert (B = pop_rest B ++ [default "" (pop_last B)]) as HB
    by (apply pop_rest_pop_last, split_nonempty).
  rewrite HB, map_app, first_json_app in Hnone.
  destruct (first_json (map payload (pop_rest B))) as [v|]; [done|].
  cbn [map first_json] in Hnone.
  destruct (JSON_parse (payload (default "" (pop_last B)))) as [w|m] eqn:Hw; [done|].
  exists m. split; [done|].
  unfold handleSSEResponse. rewrite Hend. unfold sse_end. rewrite Hb.
  fold (payload (default "" (pop_last B))).
  destruct (nonempty (payload (default "" (pop_last B)))) eqn:Hd.
  - destruct (nonempty (trim (default "" (pop_last B)))) eqn:Ht.
    + rewrite Hw. cbn [promise]. by rewrite Hp.
    + apply nonempty_false, payload_blank in Ht. rewrite Ht in Hd. done.
  - by destruct (nonempty (trim (default "" (pop_last B)))).
Qed.

(** X14. An event stream that breaks off with an error is settled by its
    complete blocks alone: fulfilled with the first of their payloads that
    parses, and rejected with the error of the stream when there is none;
    the unfinished trailing block is not looked at. *)
Theorem sse_stream_error (res : http_response) (e : js_error) :
  ending res = StreamError e →
  promise (handleSSEResponse res)
  = match first_json (map payload (pop_rest (sse_blocks (stream_text (chunks res))))) with
    | Some v => Fulfilled v
    | None => Rejected e
    end.
Proof.
  intros Hend.
  destruct (sse_after_chunks (chunks res)) as [_ Hp].
  unfold handleSSEResponse. rewrite Hend. cbn [promise]. rewrite Hp.
  by destruct (first_json _).
Qed.

End Streams.

(** *** The lines of an event block *)

Lemma split_line_join (l rest : string) :
  split (String newline "") l = [l] →
  split (String newline "") (l +:+ String newline rest)
  = l :: split (String newline "") rest.
Proof.
  induction l as [|c r IH]; intros Hl.
  - rewrite append_nil_l, split_line_cons. by rewrite Ascii.eqb_refl.
  - rewrite append_cons, split_line_cons. rewrite split_line_cons in Hl.
    destruct (Ascii.eqb newline c).
    + by injection Hl.
    + destruct (split (String newline "") r) as [|p [|p2 ps]] eqn:Hr;
        [by apply split_nonempty in Hr | | done].
      pose proof (split_line_single _ _ Hr) as ->.
      by rewrite IH.
Qed.

Lemma split_join_lines (lines : list string) :
  lines ≠ [] →
  Forall (λ l, split (String newline "") l = [l]) lines →
  split (String newline "") (join (String newline "") lines) = lines.
Proof.
  induction lines as [|l lines IH]; [done|]. intros _ Hall.
  apply Forall_cons in Hall as [Hl Hall].
  destruct lines as [|l' lines]; [done|].
  change (join (String newline "") (l :: l' :: lines))
    with (l +:+ String newline "" +:+ join (String newline "") (l' :: lines)).
  change (String newline "" +:+ join (String newline "") (l' :: lines))
    with (String newline (join (String newline "") (l' :: lines))).
  rewrite split_line_join by done. f_equal. by apply IH.
Qed.

Lemma startsWith_head (s p : string) (a : ascii) :
  startsWith s (String a p) = true → ∃ r, s = String a r.
Proof.
  destruct s as [|b s]; [done|]. cbn [startsWith].
  intros [Hb _]%andb_true_iff. apply Ascii.eqb_eq in Hb as ->. by eexists.
Qed.

Lemma parse_lines (ev : SSEEvent) (lines : list string) :
  foldl
    (λ ev line,
       if startsWith line "data: "
       then {| type := type ev; data := data ev +:+ substring_from 6 line |}
       else if startsWith line "event: "
       then {| type := substring_from 7 line; data := data ev |}
       else ev)
    ev lines
  = {| type :=
         default (type ev)
           (last (map (substring_from 7)
                    (List.filter (λ l, startsWith l "event: ") lines)));
       data :=
         data ev
         +:+ foldr String.append ""
               (map (substring_from 6)
                  (List.filter (λ l, startsWith l "data: ") lines)) |}.
Proof.
  revert ev. induction lines as [|l lines IH]; intros ev.
  - cbn. rewrite append_nil_r. by destruct ev.
  - cbn [foldl List.filter]. rewrite IH.
    destruct (startsWith l "data: ") eqn:Hd.
    + assert (startsWith l "event: " = false) as ->.
      { apply startsWith_head in Hd as [r ->]. reflexivity. }
      cbn [type data map foldr]. by rewrite append_assoc.
    + destruct (startsWith l "event: ") eqn:He; [|done].
      cbn [type data map]. f_equal.
      destruct (map _ (List.filter _ lines)) as [|x more] eqn:Hrest; [done|].
      change (last (substring_from 7 l :: x :: more)) with (last (x :: more)).
      destruct (last (x :: more)) eqn:Hlast; [done | by apply last_None in Hlast].
Qed.

(** X15. For a block made of lines, the payload [parseSSEEvent] extracts
    is the concatenation, with nothing in between, of what follows
    [data: ] on the lines that start with it, and the event type is what
    follows [event: ] on the last line that starts with it (empty when
    there is none). *)
Theorem parseSSEEvent_lines (lines : list string) :
  lines ≠ [] →
  Forall (λ l, split (String newline "") l = [l]) lines →
  data (parseSSEEvent (join (String newline "") lines))
  = foldr String.append ""
      (map (substring_from 6) (List.filter (λ l, startsWith l "data: ") lines))
  ∧ type (parseSSEEvent (join (String newline "") lines))
    = default ""
        (last (map (substring_from 7) (List.filter (λ l, startsWith l "event: ") lines))).
Proof.
  intros Hne Hall. unfold parseSSEEvent.
  rewrite (split_join_lines lines Hne Hall), parse_lines.
  cbn [type data]. by rewrite append_nil_l.
Qed.

(** ** Further properties of the error normalizer *)

Lemma substring_to_length (n : nat) (s : string) :
  String.length (substring_to n s) = Nat.min n (String.length s).
Proof.
  unfold substring_to. revert s.
  induction n as [|n IH]; intros [|c s]; cbn; try done. by rewrite IH.
Qed.

Lemma substring_to_prefix (n : nat) (s : string) :
  startsWith s (substring_to n s) = true.
Proof.
  unfold substring_to. revert s.
  induction n as [|n IH]; intros [|c s]; cbn; try done.
  by rewrite Ascii.eqb_refl, IH.
Qed.

(** X16. The envelope of the normalizer carries the [id] of the payload
    when the payload is truthy and has one, and [null] otherwise; its
    error code is [-32600] exactly when the payload is an array and
    [-32603] in every other case, so that the [-32700] of the [catch]
    block is never produced. *)
Theorem normalizer_id_and_code (responseData : string) (parsed : json) :
  prop (convertServerErrorToJsonRpc responseData parsed) "id"
  = Some (if truthy parsed then default JNull (prop parsed "id") else JNull)
  ∧ ∃ error,
      prop (convertServerErrorToJsonRpc responseData parsed) "error" = Some error
      ∧ prop error "code"
        = Some (JNum (inject_Z (if Array_isArray parsed then -32600 else -32603))).
Proof.
  unfold convertServerErrorToJsonRpc, convert_try.
  destruct (truthy parsed) eqn:Ht.
  - rewrite !member_truthy by done. cbn [cbind andb].
    destruct (typeof_object parsed) eqn:Ho.
    + destruct (truthy_opt (prop parsed "message") || truthy_opt (prop parsed "exception"))
        eqn:Hm.
      * destruct parsed; try done. split; [done|]. by eexists.
      * destruct (Array_isArray parsed); (split; [done|]); by eexists.
    + destruct parsed; try done; (split; [done|]); by eexists.
  - cbn [cbind andb]. destruct parsed; try done; (split; [done|]); by eexists.
Qed.

(** X17. What the ['end'] handler resolves with passes the validator of
    the proxy, whatever the body; so a body that parses to such a value is
    passed through as it is: normalizing is idempotent. *)
Theorem end_handler_idempotent (body body' : string) :
  JSON_parse body' = Parsed (handleJSONResponse_end body) →
  isValidJsonRpcResponse (handleJSONResponse_end body) = true
  ∧ handleJSONResponse_end body' = handleJSONResponse_end body.
Proof.
  intros Hparse. pose proof (end_handler_valid body) as Hv.
  split; [done|].
  unfold handleJSONResponse_end at 1. by rewrite Hparse, Hv.
Qed.

(** X18. The excerpt of the body the normalizer embeds under [original]
    is its first 200 characters: a prefix of the body, never longer than
    200. *)
Theorem original_excerpt (responseData : string) (parsed error payload : json)
  (s : string) :
  prop (convertServerErrorToJsonRpc responseData parsed) "error" = Some error →
  prop error "data" = Some payload →
  prop payload "original" = Some (JStr s) →
  startsWith responseData s = true
  ∧ String.length s = Nat.min 200 (String.length responseData).
Proof.
  assert (∀ s', s' = substring_to 200 responseData →
            startsWith responseData s' = true
            ∧ String.length s' = Nat.min 200 (String.length responseData)) as Hsub.
  { intros s' ->. split; [apply substring_to_prefix | apply substring_to_length]. }
  unfold convertServerErrorToJsonRpc, convert_try.
  destruct (truthy parsed) eqn:Ht.
  - rewrite !member_truthy by done. cbn [cbind andb].
    destruct (typeof_object parsed) eqn:Ho.
    + destruct (truthy_opt (prop parsed "message") || truthy_opt (prop parsed "exception")).
      * intros [= <-] [= <-] [=].
      * destruct (Array_isArray parsed).
        -- intros [= <-] [= <-] [=].
        -- intros [= <-] [= <-] [= <-]. by apply Hsub.
    + intros [= <-] [= <-] [= <-]. by apply Hsub.
  - cbn [cbind andb]. intros [= <-] [= <-] [= <-]. by apply Hsub.
Qed.

(** ** Further properties of the message handler *)

(** X19. Handling a message never rejects and writes at most one line,
    whatever the message; for a line that does not parse, or that parses
    to [null], it writes the [-32603] envelope with [id] [null] and does
    nothing else: nothing is sent, counted or cached. *)
Theorem handler_total (message : string) (p : proxy) :
  (∀ error, (handleIncomingMessage message p).1 ≠ Rejected error)
  ∧ (∃ lines, stdout (handleIncomingMessage message p).2 = stdout p ++ lines
              ∧ (length lines ≤ 1)%nat)
  ∧ ((∀ parsed, JSON_parse message = Parsed parsed → parsed = JNull) →
     ∃ error,
       handleIncomingMessage message p
       = (Fulfilled tt, write (line_of (internal_error JNull error)) p)).
Proof.
  destruct (JSON_parse message) as [parsed|m] eqn:Hparse.
  - assert (parsed = JNull ∨ parsed ≠ JNull) as [->|Hnn]
      by (destruct parsed; [by left | by right..]).
    + unfold handleIncomingMessage. rewrite Hparse. cbn [member].
      split_and!; [done | by eexists [_] | intros _; by eexists].
    + destruct (handler_writes message parsed p Hparse Hnn) as (H1 & H2 & _).
      split_and!; [done | | intros H; by destruct (Hnn (H parsed eq_refl))].
      rewrite H1. eexists. split; [done|]. destruct (handler_reply parsed p); cbn; lia.
  - unfold handleIncomingMessage. rewrite Hparse.
    split_and!; [done | by eexists [_] | intros _; by eexists].
Qed.

(** X20. For an [initialize] request whose [id] can be printed, the
    [notifications/initialized] notification is sent to the server only once the retried dispatch of
    the request is fulfilled and its reply is written, and whatever
    becomes of the notification the reply stays the only line written;
    when the dispatch is not fulfilled no notification is sent. *)
Theorem initialize_handshake (message : string) (parsed : json) (p : proxy) :
  JSON_parse message = Parsed parsed →
  prop parsed "method" = Some (JStr "initialize") →
  printable parsed = true →
  match (sendToServerWithRetry parsed 0 p).1 with
  | Fulfilled response =>
      ∃ k : nat,
        posted (handleIncomingMessage message p).2
        = posted (sendToServerWithRetry parsed 0 p).2
          ++ replicate (S k) initNotification
        ∧ stdout (handleIncomingMessage message p).2
          = stdout p
            ++ [line_of (with_request_id response (default JNull (prop parsed "id")))]
  | _ =>
      posted (handleIncomingMessage message p).2
      = posted (sendToServerWithRetry parsed 0 p).2
  end.
Proof.
  intros Hparse Hmethod Hprint.
  assert (parsed ≠ JNull) as Hnn by (by intros ->).
  set (requestId := default JNull (prop parsed "id")).
  set (p0 := set_requestCounter (S (requestCounter p)) p).
  assert (handleIncomingMessage message p
          = try_catch
              (do response <- sendToServerWithRetry parsed 0;
               write_line (with_request_id response requestId);;
               try_catch (do _ <- sendToServerWithRetry initNotification 0; ret tt)
                 (λ _, ret tt))%async
              (λ error, write_line (internal_error requestId error)) p0) as ->.
  { unfold handleIncomingMessage. rewrite Hparse, (member_not_null _ _ Hnn).
    unfold try_catch at 1 3.
    rewrite (handle_parsed_unfold _ _ _ Hnn), (triage_printable _ Hprint).
    by rewrite Hmethod. }
  assert (posted p0 = posted p) as Hp0 by done.
  destruct (retry_traffic parsed 0 p p0 Hp0) as [Hr Hposted].
  pose proof (retry_frame parsed 0 p0) as (_ & Hout & _).
  unfold try_catch, bind, write_line, act, ret.
  destruct (sendToServerWithRetry parsed 0 p0) as [r q1]. cbn [fst snd] in *.
  subst r.
  destruct (sendToServerWithRetry parsed 0 p).1 as [response|error|]; cbn [snd];
    [|done..].
  fold (line_of (with_request_id response requestId)).
  set (q2 := write _ q1).
  destruct (retry_shape initNotification 0 q2) as (k & Hk & _).
  pose proof (retry_frame initNotification 0 q2) as (_ & Hout2 & _).
  exists k.
  destruct (sendToServerWithRetry initNotification 0 q2) as [[r|e|] q3];
    cbn [fst snd] in *; rewrite Hk, Hout2; unfold q2;
    cbn [write posted stdout set_stdout]; by rewrite Hposted, Hout.
Qed.

Lemma miss_stays_missed (now : Z) (key : string) (p q : proxy) :
  fresh_entry now key p = None →
  toolCache q = toolCache (getCachedResponse now key p).2 →
  cacheTimestamps q = cacheTimestamps (getCachedResponse now key p).2 →
  heap q = heap p →
  ∀ now', fresh_entry now' key q = None.
Proof.
  unfold fresh_entry, getCachedResponse, deref.
  intros Hmiss Hc Ht Hh now'. rewrite Hh.
  destruct (cacheTimestamps p !! key) as [t|] eqn:Hts.
  - destruct ((t =? 0) || (now - t >? CACHE_TTL)) eqn:Hstale; cbn [fst snd] in *.
    + cbn in Ht. by rewrite Ht, lookup_delete_eq.
    + rewrite Ht, Hts, Hc.
      destruct ((t =? 0) || (now' - t >? CACHE_TTL)); [done|]. done.
  - cbn in Ht. by rewrite Ht, lookup_delete_eq.
Qed.

(** X21. When a cacheable request whose [id] can be printed finds no fresh
    entry and its retried dispatch is rejected, the reply is the [-32603] envelope with the
    [id] of the request, and nothing is stored: whenever the same key is
    looked up afterwards, the lookup misses. *)
Theorem failed_fetch_not_cached (message : string) (parsed : json)
  (error : js_error) (p : proxy) :
  JSON_parse message = Parsed parsed →
  shouldCache parsed = true →
  printable parsed = true →
  fresh_entry (Date_now (clock_reads p)) (getCacheKey parsed) p = None →
  (sendToServerWithRetry parsed 0 p).1 = Rejected error →
  stdout (handleIncomingMessage message p).2
  = stdout p ++ [line_of (internal_error (default JNull (prop parsed "id")) error)]
  ∧ ∀ now, fresh_entry now (getCacheKey parsed) (handleIncomingMessage message p).2
           = None.
Proof.
  intros Hparse Hcache Hprint Hmiss Hrej.
  rewrite (handle_cacheable _ _ _ Hparse Hcache Hprint).
  set (requestId := default JNull (prop parsed "id")).
  set (p0 := set_requestCounter (S (requestCounter p)) p).
  set (q1 := (getCachedResponse_call (getCacheKey parsed) p0).2).
  assert (∃ q2,
            try_catch (cached_branch parsed requestId)
              (λ error, write_line (internal_error requestId error)) p0
            = (Fulfilled tt, write (line_of (internal_error requestId error)) q2)
            ∧ outside_transport q1 q2) as (q2 & -> & Hf).
  { unfold try_catch. rewrite cached_branch_lookup.
    change (clock_reads p0) with (clock_reads p).
    unfold p0 at 1. rewrite fresh_entry_counter, Hmiss. fold q1.
    pose proof (fetch_and_cache_run parsed requestId (getCacheKey parsed) q1) as Hrun.
    pose proof (retry_frame parsed 0 q1) as Hf.
    assert (posted q1 = posted p) as Hq1
      by apply (lookup_frame (getCacheKey parsed) p0).
    pose proof (proj1 (retry_traffic parsed 0 p q1 Hq1)) as Hsame.
    rewrite Hrej in Hsame.
    destruct (sendToServerWithRetry parsed 0 q1) as [r q2]. cbn [fst snd] in *.
    subst r. rewrite Hrun. by exists q2. }
  destruct Hf as (Hheap & Hout & Htool & Htime & _).
  destruct (lookup_frame (getCacheKey parsed) p0) as (_ & Ho1 & Hh1 & _).
  fold q1 in Ho1, Hh1.
  destruct (lookup_call_cache (getCacheKey parsed) p0) as [Hc1 Ht1].
  fold q1 in Hc1, Ht1. change (clock_reads p0) with (clock_reads p) in Hc1, Ht1.
  destruct (getCachedResponse_counter (Date_now (clock_reads p)) (getCacheKey parsed)
              (S (requestCounter p)) p) as [Hc0 Ht0].
  fold p0 in Hc0, Ht0.
  cbn [snd write stdout set_stdout].
  split; [by rewrite Hout, Ho1|].
  apply (miss_stays_missed (Date_now (clock_reads p)) _ p); try done.
  - cbn [toolCache write set_stdout]. by rewrite Htool, Hc1, Hc0.
  - cbn [cacheTimestamps write set_stdout]. by rewrite Htime, Ht1, Ht0.
  - cbn [heap write set_stdout]. by rewrite Hheap, Hh1.
Qed.

(** X29. A message whose method or [id] cannot be converted to a string
    (a parsed object with a property [toString] of its own, or an array
    that holds one) is not dispatched, whatever its method: building the
    first log line throws, and the handler counts the message, writes the
    [-32603] envelope with the [id] of the message and the text of the
    [TypeError], and does nothing else. *)
Theorem unprintable_request_answered (message : string) (parsed : json) (p : proxy) :
  JSON_parse message = Parsed parsed → parsed ≠ JNull →
  printable parsed = false →
  handleIncomingMessage message p
  = (Fulfilled tt,
     write
       (line_of
          (internal_error (default JNull (prop parsed "id"))
             (JsError "TypeError" "Cannot convert object to primitive value")))
       (set_requestCounter (S (requestCounter p)) p)).
Proof.
  intros Hparse Hnn Hprint.
  unfold handleIncomingMessage. rewrite Hparse, (member_not_null _ _ Hnn).
  unfold try_catch. rewrite (handle_parsed_unfold _ _ _ Hnn). cbn zeta.
  assert (request_log (prop parsed "method") (default JNull (prop parsed "id"))
          = Throw (JsError "TypeError" "Cannot convert object to primitive value"))
    as ->; [|done].
  unfold printable in Hprint. unfold request_log, template.
  destruct (ToPrimitive_throws (or_literal (prop parsed "method") (JStr "unknown")));
    [done|].
  cbn [negb andb] in Hprint. apply negb_false_iff in Hprint. by rewrite Hprint.
Qed.

(** ** The cache across two requests *)

Lemma fetch_and_cache_fill (parsed requestId fetched : json) (key : string)
  (q q2 : proxy) :
  sendToServerWithRetry parsed 0 q = (Fulfilled fetched, q2) →
  ∃ q', fetch_and_cache parsed requestId key q = (Fulfilled tt, q')
        ∧ toolCache q' !! key = Some (length (heap q2))
        ∧ cacheTimestamps q' !! key = Some (Date_now (clock_reads q2))
        ∧ heap q' !! length (heap q2) = Some fetched
        ∧ posted q' = posted q2
        ∧ clock_reads q' = S (clock_reads q2).
Proof.
  intros Hrun. unfold fetch_and_cache; unfold bind at 1; rewrite Hrun.
  destruct (not_null requestId) eqn:Hid;
    unfold bind, alloc, Date_now_read, act, ret, write_line, setCachedResponse, deref;
    cbn [fst snd heap set_heap set_clock_reads set_cache toolCache cacheTimestamps
         clock_reads].
  - eexists. split; [reflexivity|]. cbn.
    rewrite !lookup_insert_eq, <- app_assoc. cbn [app].
    split_and!; try done.
    by rewrite lookup_app_r, Nat.sub_diag.
  - eexists. split; [reflexivity|]. cbn.
    rewrite !lookup_insert_eq. split_and!; try done. apply lookup_snoc.
Qed.

(** The state a cacheable request leaves when it misses the cache and its
    retried dispatch is fulfilled. *)
Lemma first_fill (message : string) (parsed fetched : json) (p : proxy) :
  JSON_parse message = Parsed parsed →
  shouldCache parsed = true →
  printable parsed = true →
  fresh_entry (Date_now (clock_reads p)) (getCacheKey parsed) p = None →
  (sendToServerWithRetry parsed 0 p).1 = Fulfilled fetched →
  ∃ l,
    toolCache (handleIncomingMessage message p).2 !! getCacheKey parsed = Some l
    ∧ cacheTimestamps (handleIncomingMessage message p).2 !! getCacheKey parsed
      = Some (Date_now (store_index (getCacheKey parsed) p))
    ∧ heap (handleIncomingMessage message p).2 !! l = Some fetched
    ∧ clock_reads (handleIncomingMessage message p).2
      = S (store_index (getCacheKey parsed) p).
Proof.
  intros Hparse Hcache Hprint Hmiss Hfetched. unfold store_index.
  rewrite (handle_cacheable _ _ _ Hparse Hcache Hprint).
  set (requestId := default JNull (prop parsed "id")).
  set (p0 := set_requestCounter (S (requestCounter p)) p).
  assert (fresh_entry (Date_now (clock_reads p)) (getCacheKey parsed) p0 = None)
    as Hmiss0 by (unfold p0; by rewrite fresh_entry_counter).
  unfold try_catch. rewrite cached_branch_lookup.
  change (clock_reads p0) with (clock_reads p). rewrite Hmiss0.
  set (q1 := (getCachedResponse_call _ _).2).
  destruct (lookup_frame (getCacheKey parsed) p0) as (Hp1 & _ & _ & Hc1).
  change (posted q1 = posted p0) in Hp1.
  change (clock_reads q1
          = (clock_reads p + lookup_reads (getCacheKey parsed) p)%nat) in Hc1.
  pose proof (retry_frame parsed 0 q1) as (_ & _ & _ & _ & _ & Hclock).
  assert (posted q1 = posted p) as Hq1 by (by rewrite Hp1).
  pose proof (proj1 (retry_traffic parsed 0 p q1 Hq1)) as Hsame.
  rewrite Hfetched in Hsame.
  destruct (sendToServerWithRetry parsed 0 q1) as [r q2] eqn:Hrun.
  cbn [fst snd] in *. subst r.
  destruct (fetch_and_cache_fill parsed requestId fetched (getCacheKey parsed)
              q1 q2 Hrun) as (q' & -> & Htool & Htime & Hheap & _ & Hclk).
  exists (length (heap q2)). cbn [snd].
  rewrite Htool, Htime, Hheap, Hclk, Hclock, Hc1. by split_and!.
Qed.

(** An entry whose object is falsy is never served. *)
Lemma falsy_entry_missed (now : Z) (key : string) (l : nat) (fetched : json)
  (p : proxy) :
  toolCache p !! key = Some l → heap p !! l = Some fetched →
  truthy fetched = false →
  fresh_entry now key p = None.
Proof.
  intros Hl Hv Hfalsy. unfold fresh_entry, getCachedResponse, deref.
  destruct (cacheTimestamps p !! key) as [t|]; [|done].
  destruct ((t =? 0) || (now - t >? CACHE_TTL)); [done|].
  cbn [fst]. by rewrite Hl, Hv; cbn; rewrite Hfalsy.
Qed.

Lemma lookup_after_fill (now t : Z) (key : string) (l : nat) (fetched : json)
  (p : proxy) :
  toolCache p !! key = Some l → cacheTimestamps p !! key = Some t →
  heap p !! l = Some fetched → t ≠ 0 → now - t ≤ CACHE_TTL →
  fresh_entry now key p = if truthy fetched then Some fetched else None.
Proof.
  intros Hl Ht Hv Ht0 Hfresh. unfold fresh_entry, getCachedResponse, deref.
  rewrite Ht.
  assert ((t =? 0) = false) as -> by (by apply Z.eqb_neq).
  assert ((now - t >? CACHE_TTL) = false) as -> by lia.
  cbn [orb fst]. by rewrite Hl, Hv.
Qed.

(** X22. Two requests with the same cache key, their [id]s printable: when
    the first misses the cache and its dispatch is fulfilled with a truthy
    response, stored at a time that is not 0, and the second is looked up
    at most 300000 ms after the first was stored, the second is answered
    with a copy of that response carrying its own [id], and nothing is sent
    to the server for it. The first is stored at the clock's next value
    after its own lookup, which reads the clock for a key with a timestamp
    only; the second is looked up at the value after that. *)
Theorem cached_reply_round_trip (message message' : string)
  (parsed parsed' fetched : json) (p : proxy) :
  JSON_parse message = Parsed parsed → shouldCache parsed = true →
  printable parsed = true →
  fresh_entry (Date_now (clock_reads p)) (getCacheKey parsed) p = None →
  (sendToServerWithRetry parsed 0 p).1 = Fulfilled fetched →
  truthy fetched = true →
  JSON_parse message' = Parsed parsed' → shouldCache parsed' = true →
  printable parsed' = true →
  getCacheKey parsed' = getCacheKey parsed →
  Date_now (store_index (getCacheKey parsed) p) ≠ 0 →
  Date_now (S (store_index (getCacheKey parsed) p))
  - Date_now (store_index (getCacheKey parsed) p) ≤ CACHE_TTL →
  posted (handleIncomingMessage message' (handleIncomingMessage message p).2).2
  = posted (handleIncomingMessage message p).2
  ∧ stdout (handleIncomingMessage message' (handleIncomingMessage message p).2).2
    = stdout (handleIncomingMessage message p).2
      ++ [line_of (copy_with_request_id fetched (default JNull (prop parsed' "id")))].
Proof.
  intros Hparse Hcache Hprint Hmiss Hfetched Htruthy Hparse' Hcache' Hprint'
    Hkey Ht0 Hfresh.
  destruct (first_fill message parsed fetched p Hparse Hcache Hprint Hmiss Hfetched)
    as (l & Hl & Ht & Hv & Hclk).
  set (p1 := (handleIncomingMessage message p).2) in *.
  rewrite (handle_cacheable _ _ _ Hparse' Hcache' Hprint').
  set (p1' := set_requestCounter (S (requestCounter p1)) p1).
  assert (fresh_entry (Date_now (clock_reads p1')) (getCacheKey parsed') p1'
          = Some fetched) as Hhit.
  { unfold p1' at 2. rewrite fresh_entry_counter.
    change (clock_reads p1') with (clock_reads p1). rewrite Hclk, Hkey.
    by rewrite (lookup_after_fill _ _ _ _ _ _ Hl Ht Hv Ht0 Hfresh), Htruthy. }
  unfold try_catch. by rewrite (cached_branch_hit _ _ _ _ Hhit).
Qed.

(** X23. A falsy response ([null], [false], [0] or the empty string, as an
    event stream may deliver) is stored like any other but never served:
    a second request with the same cache key (the [id]s of both printable)
    is dispatched to the server again, whatever the clock shows, so also
    within the time to live. *)
Theorem falsy_response_refetched (message message' : string)
  (parsed parsed' fetched : json) (p : proxy) :
  JSON_parse message = Parsed parsed → shouldCache parsed = true →
  printable parsed = true →
  fresh_entry (Date_now (clock_reads p)) (getCacheKey parsed) p = None →
  (sendToServerWithRetry parsed 0 p).1 = Fulfilled fetched →
  truthy fetched = false →
  JSON_parse message' = Parsed parsed' → shouldCache parsed' = true →
  printable parsed' = true →
  getCacheKey parsed' = getCacheKey parsed →
  (∃ l, toolCache (handleIncomingMessage message p).2 !! getCacheKey parsed = Some l
        ∧ heap (handleIncomingMessage message p).2 !! l = Some fetched)
  ∧ ∃ n : nat,
      posted (handleIncomingMessage message' (handleIncomingMessage message p).2).2
      = posted (handleIncomingMessage message p).2 ++ replicate (S n) parsed'.
Proof.
  intros Hparse Hcache Hprint Hmiss Hfetched Hfalsy Hparse' Hcache' Hprint' Hkey.
  destruct (first_fill message parsed fetched p Hparse Hcache Hprint Hmiss Hfetched)
    as (l & Hl & Ht & Hv & Hclk).
  set (p1 := (handleIncomingMessage message p).2) in *.
  split; [by exists l|].
  rewrite (handle_cacheable _ _ _ Hparse' Hcache' Hprint').
  set (requestId := default JNull (prop parsed' "id")).
  set (p1' := set_requestCounter (S (requestCounter p1)) p1).
  assert (fresh_entry (Date_now (clock_reads p1')) (getCacheKey parsed') p1' = None)
    as Hmiss'.
  { unfold p1' at 2. rewrite fresh_entry_counter, Hkey.
    by apply (falsy_entry_missed _ _ l fetched). }
  unfold try_catch. rewrite cached_branch_lookup, Hmiss'.
  set (q1 := (getCachedResponse_call _ _).2).
  assert (posted q1 = posted p1) as Hq1
    by apply (lookup_frame (getCacheKey parsed') p1').
  destruct (retry_shape parsed' 0 q1) as (n & Hn & _).
  exists n. rewrite <- Hq1, <- Hn.
  pose proof (fetch_and_cache_run parsed' requestId (getCacheKey parsed') q1) as Hrun.
  destruct (sendToServerWithRetry parsed' 0 q1) as [[v|e|] q2].
  - by destruct Hrun as (q' & -> & _ & _ & _ & _ & _ & Hp).
  - by rewrite Hrun.
  - by rewrite Hrun.
Qed.

(** ** Further properties of the single-request entry points *)

(** X24. The single-request entry points return a fulfilled response as
    the dispatch gave it, without substituting an [id]; they never write
    to the standard output, and they never consult or fill the cache, not
    even for the methods the message loop caches. *)
Theorem entry_points_transparent (request : json) (p : proxy) :
  (∀ response,
     (sendToServerWithRetry request 0 p).1 = Fulfilled response →
     (proxyRequest request p).1 = Fulfilled response
     ∧ (handleHttpRequest request p).1 = Fulfilled response)
  ∧ (proxyRequest request p).2 = (sendToServerWithRetry request 0 p).2
  ∧ (handleHttpRequest request p).2 = (sendToServerWithRetry request 0 p).2
  ∧ stdout (sendToServerWithRetry request 0 p).2 = stdout p
  ∧ toolCache (sendToServerWithRetry request 0 p).2 = toolCache p
  ∧ cacheTimestamps (sendToServerWithRetry request 0 p).2 = cacheTimestamps p
  ∧ heap (sendToServerWithRetry request 0 p).2 = heap p.
Proof.
  pose proof (retry_frame request 0 p) as (Hh & Ho & Hc & Ht & _).
  unfold proxyRequest, handleHttpRequest, try_catch, bind, ret.
  destruct (sendToServerWithRetry request 0 p) as [[response|error|] p1];
    cbn [fst snd] in *; by split_and!.
Qed.

(** ** Command line *)

Lemma parseInt_or_nonzero (s : string) (d : Z) : d ≠ 0 → Config.parseInt_or s d ≠ 0.
Proof.
  intros Hd. unfold Config.parseInt_or.
  destruct (Config.parseInt s) as [n|]; [|done].
  destruct (n =? 0) eqn:Hn; [done|]. by apply Z.eqb_neq.
Qed.

Lemma assign_nonzero (flag nextArg : string) (v : Config.locals) :
  Config.maxRetries v ≠ 0 ∧ Config.baseDelay v ≠ 0 →
  Config.maxRetries (Config.assign flag nextArg v) ≠ 0
  ∧ Config.baseDelay (Config.assign flag nextArg v) ≠ 0.
Proof.
  intros [H1 H2]. unfold Config.assign.
  repeat case_match; cbn; split; try done; by apply parseInt_or_nonzero.
Qed.

Lemma assign_serverUrl (flag nextArg : string) (v : Config.locals) :
  Config.serverUrl (Config.assign flag nextArg v) = Config.serverUrl v.
Proof. unfold Config.assign. by repeat case_match. Qed.

(** A property of the local variables that every turn of the loop keeps
    holds when the loop is left. *)
Lemma scan_keeps (P : Config.locals → Prop) :
  (∀ flag nextArg v, P v → P (Config.assign flag nextArg v)) →
  (∀ v, P v →
        P (Config.Build_locals (Config.serverUrl v) (Config.token v)
             (Config.authMethod v) true (Config.protocolVersion v)
             (Config.maxRetries v) (Config.baseDelay v) (Config.disableCache v))) →
  (∀ v, P v →
        P (Config.Build_locals (Config.serverUrl v) (Config.token v)
             (Config.authMethod v) (Config.skipSsl v) (Config.protocolVersion v)
             (Config.maxRetries v) (Config.baseDelay v) true)) →
  (∀ arg v, P v → nonempty (Config.serverUrl v) = false →
            P (Config.Build_locals arg (Config.token v)
                 (Config.authMethod v) (Config.skipSsl v) (Config.protocolVersion v)
                 (Config.maxRetries v) (Config.baseDelay v) (Config.disableCache v))) →
  ∀ args v, P v → P (Config.scan args v).
Proof.
  intros Hassign Hssl Hcache Hurl args.
  remember (length args) as n eqn:Hn. revert args Hn.
  induction n as [n IH] using lt_wf_ind. intros args Hn v Hv.
  destruct args as [|arg rest]; [done|]. cbn [Config.scan].
  cbn [length] in Hn.
  destruct (Config.takes_value arg).
  - destruct rest as [|nextArg rest']; [done|]. cbn [length] in Hn.
    apply (IH (length rest')); [lia | done |].
    destruct (nonempty nextArg); [by apply Hassign | done].
  - destruct (String.eqb arg "--insecure" || String.eqb arg "--skip-ssl").
    { apply (IH (length rest)); [lia | done | by apply Hssl]. }
    destruct (String.eqb arg "--no-cache").
    { apply (IH (length rest)); [lia | done | by apply Hcache]. }
    destruct (negb (nonempty (Config.serverUrl v)) && nonempty arg) eqn:Hu.
    + apply (IH (length rest)); [lia | done |].
      apply Hurl; [done|]. apply andb_true_iff in Hu as [Hu _].
      by apply negb_true_iff in Hu.
    + apply (IH (length rest)); [lia | done | done].
Qed.

(** X25. Every configuration [parseArgs] returns has a non-empty server
    URL and token, and a retry policy whose [maxRetries] and [baseDelay]
    are not zero (a zero or unreadable value gives the default), whose cap
    is 30000 and whose jitter is on; the constructor leaves it as it is. *)
Theorem parseArgs_settings (args : list string) (env : string → option string)
  (c : Config.settings) :
  Config.parseArgs args env = Some c →
  Config.url c ≠ "" ∧ token (Config.auth c) ≠ ""
  ∧ ∃ rc,
      retry (Config.engine c) = Some rc
      ∧ maxRetries rc ≠ 0 ∧ ¬ (baseDelay rc == 0)%Q
      ∧ maxDelay rc = 30000%Q ∧ jitter rc = true
      ∧ constructor (Config.engine c) = Config.engine c.
Proof.
  unfold Config.parseArgs.
  set (v := Config.scan args Config.initial).
  assert (Config.maxRetries v ≠ 0 ∧ Config.baseDelay v ≠ 0) as [Hm Hb].
  { apply (scan_keeps (λ v, Config.maxRetries v ≠ 0 ∧ Config.baseDelay v ≠ 0));
      try done. intros flag nextArg w. apply assign_nonzero. }
  set (u := if nonempty (Config.serverUrl v) then _ else _).
  set (t := if nonempty (Config.token v) then _ else _).
  destruct (nonempty u) eqn:Hu; [|done].
  destruct (nonempty t) eqn:Ht; [|done].
  cbn [negb orb]. intros [= <-]. cbn.
  split; [by apply nonempty_true|]. split; [by apply nonempty_true|].
  eexists. split; [done|]. cbn. split_and!; try done.
  unfold Qeq. cbn. lia.
Qed.

(** X26. The server URL is the first argument that is neither an option
    nor the value of one: when the command line starts with it, the
    arguments after it and [LEANTIME_SERVER_URL] do not change it; and a
    command line that is sufficient on its own gives the same
    configuration in every environment. *)
Theorem parseArgs_precedence (args : list string) (env : string → option string) :
  (∀ u c,
     Config.takes_value u = false →
     u ∉ ["--insecure"; "--skip-ssl"; "--no-cache"; ""] →
     Config.parseArgs (u :: args) env = Some c → Config.url c = u)
  ∧ (∀ c, Config.parseArgs args (λ _, None) = Some c →
          Config.parseArgs args env = Some c).
Proof.
  split.
  - intros u c Htv Hu. unfold Config.parseArgs. cbn [Config.scan]. rewrite Htv.
    assert (u ≠ "--insecure" ∧ u ≠ "--skip-ssl" ∧ u ≠ "--no-cache" ∧ u ≠ "")
      as (H1 & H2 & H3 & H4) by (split_and!; intros ->; apply Hu; set_solver).
    apply String.eqb_neq in H1, H2, H3. rewrite H1, H2, H3.
    apply nonempty_true in H4. rewrite H4. cbn [orb negb andb Config.serverUrl
      Config.initial nonempty String.eqb].
    set (v0 := Config.Build_locals u _ _ _ _ _ _ _).
    assert (Config.serverUrl (Config.scan args v0) = u) as Hsame.
    { apply (scan_keeps (λ v, Config.serverUrl v = u)); try done.
      - intros flag nextArg w. by rewrite assign_serverUrl.
      - intros arg w Hw Hempty. rewrite Hw, H4 in Hempty. done. }
    rewrite Hsame, H4. cbn iota. rewrite H4.
    destruct (nonempty (if nonempty (Config.token (Config.scan args v0)) then _ else _));
      cbn [negb orb]; [|done].
    by intros [= <-].
  - intros c. unfold Config.parseArgs.
    destruct (nonempty (Config.serverUrl (Config.scan args Config.initial))) eqn:Hu;
      cbn iota; rewrite ?Hu; cbn [negb orb nonempty String.eqb]; [|done].
    destruct (nonempty (Config.token (Config.scan args Config.initial))) eqn:Ht;
      cbn iota; rewrite ?Ht; cbn [negb orb nonempty String.eqb]; done.
Qed.

(** ** The MCP server front end *)

Lemma proxyRequest_settles (request : json) (p : proxy) :
  (∀ e, (proxyRequest request p).1 ≠ Rejected e)
  ∧ (server_settles → (proxyRequest request p).1 ≠ Pending).
Proof.
  pose proof (retry_settles request 0 p) as Hs.
  unfold proxyRequest, try_catch, bind, ret.
  destruct (sendToServerWithRetry request 0 p) as [[response|error|] p1];
    cbn [fst snd] in *; by split.
Qed.

Lemma proxyRequest_posted (request : json) (p : proxy) :
  ∃ k : nat, posted (proxyRequest request p).2 = posted p ++ replicate (S k) request.
Proof.
  destruct (retry_shape request 0 p) as (k & Hk & _). exists k.
  unfold proxyRequest, try_catch, bind, ret.
  by destruct (sendToServerWithRetry request 0 p) as [[response|error|] p1].
Qed.

Lemma or_literal_truthy (a : option json) (lit : json) :
  truthy lit = true → truthy (or_literal a lit) = true.
Proof.
  intros Hl. unfold or_literal. destruct a as [v|]; [|done].
  by destruct (truthy v) eqn:Hv.
Qed.

(** [ensureLeantimeSession] while the flag is off, in terms of its two
    calls of [proxyRequest]. *)
Lemma ensure_run (s : front) :
  leantimeSessionInitialized s = false →
  ensureLeantimeSession s
  = match proxyRequest (initRequest (Date_now (clock_reads (instance s))))
            (set_clock_reads (S (clock_reads (instance s))) (instance s)) with
    | (Fulfilled initResponse, p1) =>
        if not_null initResponse && negb (truthy_opt (prop initResponse "error"))
        then
          match proxyRequest initializedNotification p1 with
          | (Fulfilled _, p2) =>
              (Fulfilled tt, {| leantimeSessionInitialized := true; instance := p2 |})
          | (Rejected _, p2) =>
              (Fulfilled tt, {| leantimeSessionInitialized := false; instance := p2 |})
          | (Pending, p2) =>
              (Pending, {| leantimeSessionInitialized := false; instance := p2 |})
          end
        else (Fulfilled tt, {| leantimeSessionInitialized := false; instance := p1 |})
    | (Rejected _, p1) =>
        (Fulfilled tt, {| leantimeSessionInitialized := false; instance := p1 |})
    | (Pending, p1) =>
        (Pending, {| leantimeSessionInitialized := false; instance := p1 |})
    end.
Proof.
  intros Hflag. unfold ensureLeantimeSession. rewrite Hflag.
  unfold ftry_catch, fbind, call, fret, set_leantimeSessionInitialized,
    Date_now_read, lift.
  cbn [fst snd instance leantimeSessionInitialized]. rewrite Hflag.
  destruct (proxyRequest _ _) as [[initResponse|e|] p1]; cbn [fst snd]; try done.
  destruct initResponse as [| | | | | |fs];
    cbn [member not_null andb negb prop truthy_opt fst snd instance
         leantimeSessionInitialized];
    try done;
    try (destruct (truthy_opt (lookup_field "error" fs));
         cbn [negb fst snd instance leantimeSessionInitialized]; [done|]);
    by destruct (proxyRequest initializedNotification p1) as [[r|e|] p2].
Qed.

Lemma ensure_settles (s : front) :
  (∀ e, (ensureLeantimeSession s).1 ≠ Rejected e)
  ∧ (server_settles → (ensureLeantimeSession s).1 = Fulfilled tt).
Proof.
  destruct (leantimeSessionInitialized s) eqn:Hflag.
  - unfold ensureLeantimeSession. rewrite Hflag. by split.
  - rewrite (ensure_run s Hflag).
    set (p0 := set_clock_reads _ _).
    destruct (proxyRequest_settles
                (initRequest (Date_now (clock_reads (instance s)))) p0) as [Hr Hs].
    destruct (proxyRequest _ p0) as [[initResponse|e|] p1]; cbn [fst snd] in *.
    + destruct (not_null initResponse && _); [|by split].
      destruct (proxyRequest_settles initializedNotification p1) as [Hr2 Hs2].
      destruct (proxyRequest initializedNotification p1) as [[r|e|] p2];
        cbn [fst snd] in *; split; try done. intros H. by destruct (Hs2 H).
    + by split.
    + split; [done|]. intros H. by destruct (Hs H).
Qed.

(** X27. While every dispatch settles, the session flag is turned on by
    [ensureLeantimeSession] exactly when the [initialize] request gets a
    response without a truthy [error]; the [notifications/initialized]
    notification is then sent, and its outcome does not matter.  When the
    request fails the flag stays off and no notification is sent, so the
    next call tries again; once the flag is on nothing more is sent. *)
Theorem session_handshake (s : front) :
  server_settles →
  (leantimeSessionInitialized s = true → ensureLeantimeSession s = (Fulfilled tt, s))
  ∧ (leantimeSessionInitialized s = false →
     ∃ initResponse p1,
       proxyRequest (initRequest (Date_now (clock_reads (instance s))))
         (set_clock_reads (S (clock_reads (instance s))) (instance s))
       = (Fulfilled initResponse, p1)
       ∧ (ensureLeantimeSession s).1 = Fulfilled tt
       ∧ if not_null initResponse && negb (truthy_opt (prop initResponse "error"))
         then leantimeSessionInitialized (ensureLeantimeSession s).2 = true
              ∧ ∃ k : nat,
                  posted (instance (ensureLeantimeSession s).2)
                  = posted p1 ++ replicate (S k) initializedNotification
         else leantimeSessionInitialized (ensureLeantimeSession s).2 = false
              ∧ instance (ensureLeantimeSession s).2 = p1).
Proof.
  intros Hsettles. split.
  - intros Hflag. unfold ensureLeantimeSession. by rewrite Hflag.
  - intros Hflag. rewrite (ensure_run s Hflag).
    set (p0 := set_clock_reads _ _).
    destruct (proxyRequest_settles
                (initRequest (Date_now (clock_reads (instance s)))) p0) as [Hr Hs].
    specialize (Hs Hsettles).
    destruct (proxyRequest _ p0) as [[initResponse|e|] p1]; cbn [fst snd] in *;
      [|by destruct (Hr e)|done].
    exists initResponse, p1. split; [done|].
    destruct (not_null initResponse && _); [|by split_and!].
    destruct (proxyRequest_settles initializedNotification p1) as [Hr2 Hs2].
    specialize (Hs2 Hsettles).
    destruct (proxyRequest_posted initializedNotification p1) as [k Hk].
    destruct (proxyRequest initializedNotification p1) as [[r|e|] p2];
      cbn [fst snd] in *; [|by destruct (Hr2 e)|done].
    split_and!; try done. by exists k.
Qed.

(** The handler of the tool listing in terms of [ensureLeantimeSession]
    and its call of [proxyRequest]. *)
Lemma listTools_run (s : front) :
  listTools s
  = match ensureLeantimeSession s with
    | (Fulfilled _, s1) =>
        match proxyRequest (toolsListRequest (Date_now (clock_reads (instance s1))))
                (set_clock_reads (S (clock_reads (instance s1))) (instance s1)) with
        | (Fulfilled response, p1) =>
            (Fulfilled
               (JObj [("tools",
                       if not_null response
                          && negb (truthy_opt (prop response "error"))
                       then or_literal (optional_tools (prop response "result"))
                              (JArr [])
                       else JArr [])]),
             {| leantimeSessionInitialized := leantimeSessionInitialized s1;
                instance := p1 |})
        | (Rejected _, p1) =>
            (Fulfilled (JObj [("tools", JArr [])]),
             {| leantimeSessionInitialized := leantimeSessionInitialized s1;
                instance := p1 |})
        | (Pending, p1) =>
            (Pending,
             {| leantimeSessionInitialized := leantimeSessionInitialized s1;
                instance := p1 |})
        end
    | (Rejected _, s1) => (Fulfilled (JObj [("tools", JArr [])]), s1)
    | (Pending, s1) => (Pending, s1)
    end.
Proof.
  unfold listTools, ftry_catch, fbind at 1.
  destruct (ensureLeantimeSession s) as [[[]|e|] s1]; cbn [fst snd]; try done.
  unfold fbind, call, fret, fthrow, Date_now_read, lift.
  cbn [fst snd instance leantimeSessionInitialized].
  destruct (proxyRequest _ _) as [[response|e|] p1]; cbn [fst snd]; try done.
  destruct response as [| | | | | |fs];
    cbn [member not_null andb negb prop truthy_opt fst snd instance
         leantimeSessionInitialized];
    try done.
  by destruct (truthy_opt (lookup_field "error" fs)).
Qed.

(** X28. The handler of the tool listing never rejects; what it returns
    is an object whose [tools] is a truthy value, the empty array when the
    proxied response is [null], carries a truthy [error] or has no truthy
    [result.tools]; and it returns whenever every dispatch settles. *)
Theorem listTools_total (s : front) :
  (∀ e, (listTools s).1 ≠ Rejected e)
  ∧ (∀ v, (listTools s).1 = Fulfilled v →
          ∃ tools, v = JObj [("tools", tools)] ∧ truthy tools = true)
  ∧ (server_settles → ∃ v, (listTools s).1 = Fulfilled v).
Proof.
  rewrite listTools_run.
  destruct (ensure_settles s) as [He Hes].
  destruct (ensureLeantimeSession s) as [[[]|e|] s1]; cbn [fst snd] in *.
  2: by destruct (He e).
  2: { split_and!; [done | by intros v [=] | intros H; by specialize (Hes H)]. }
  set (p0 := set_clock_reads _ _).
  destruct (proxyRequest_settles
              (toolsListRequest (Date_now (clock_reads (instance s1)))) p0) as [Hr Hs].
  destruct (proxyRequest _ p0) as [[response|e|] p1]; cbn [fst snd] in *.
  - split_and!; [done | | by eauto].
    intros v [= <-]. eexists. split; [done|].
    destruct (not_null response && _); [by apply or_literal_truthy | done].
  - by destruct (Hr e).
  - split_and!; [done | by intros v [=] | intros H; by destruct (Hs H)].
Qed.

End Proxy.


(** ** The theorems at work on the sample servers *)

Import Reference.

Local Abbreviation handle server :=
  (handleIncomingMessage json_parse number_toString (Sample.config 2) server
     Sample.clock Sample.random).
Local Abbreviation dispatch maxRetries server :=
  (sendToServerWithRetry json_parse (Sample.config maxRetries) server Sample.random).
Local Abbreviation line envelope := (line_of number_toString envelope).

Lemma plain_settles (body : string) :
  outcome_of json_parse (Sample.plain body)
  = Fulfilled (handleJSONResponse_end json_parse body).
Proof. reflexivity. Qed.

Lemma echoing_settles : server_settles json_parse Sample.echoing.
Proof.
  intros history. unfold Sample.echoing.
  destruct (last history); [by rewrite plain_settles | done].
Qed.

Lemma broken_settles : server_settles json_parse Sample.broken.
Proof. intros history. by vm_compute. Qed.

(** The backoff delays of the default policy without jitter, and the
    fourth one with [Math.random()] = 0.75 and with [Math.random()] = 0. *)
Lemma backoff_delays_default :
  map (λ attempt, calculateBackoffDelay Scenario.no_jitter attempt 0)
    [0; 1; 2; 3; 4; 5; 6; 1024]
  = [1000; 2000; 4000; 8000; 16000; 30000; 30000; 30000]%float
  ∧ calculateBackoffDelay default_retry 3 0.75 = 9000%float
  ∧ calculateBackoffDelay default_retry 3 0 = 6000%float.
Proof. by vm_compute. Qed.

(** C3 one millisecond before five minutes have passed. *)
Lemma cache_ttl_witness :
  getCachedResponse (Sample.clock 0 + 299999) "tools/list_{}"
    (setCachedResponse (Sample.clock 0) "tools/list_{}" 0 new_proxy)
  = (Some 0%nat, setCachedResponse (Sample.clock 0) "tools/list_{}" 0 new_proxy).
Proof.
  destruct (cache_ttl "tools/list_{}" 0 (Sample.clock 0) 299999 new_proxy)
    as (_ & H & _); [by vm_compute|].
  apply H. by vm_compute.
Defined.

(** C3 at the boundary of the specification, which has the entry absent
from 300000 ms on: after exactly 300000 ms it is still returned. *)
Lemma cache_ttl_counterexample :
  (300000 >= 300000)%Z
  ∧ (getCachedResponse (Sample.clock 0 + 300000) "tools/list_{}"
       (setCachedResponse (Sample.clock 0) "tools/list_{}" 0 new_proxy)).1
    = Some 0%nat.
Proof. split; [lia | by vm_compute]. Qed.

(** C2 on a well-formed result envelope. *)
Lemma pass_through_iff_witness :
  let parsed := JObj [("jsonrpc", JStr "2.0"); ("id", JNum 1); ("result", Sample.tools)] in
  let body := JSON_stringify number_toString parsed in
  (handleJSONResponse_end json_parse body = parsed ↔ passes_through parsed)
  ∧ (¬ passes_through parsed →
     handleJSONResponse_end json_parse body
     = convertServerErrorToJsonRpc body parsed).
Proof.
  apply (pass_through_iff json_parse). by vm_compute.
Defined.

(** C2 on an envelope with both [result] and [error]: it is not well
formed in the sense of the specification, and it is passed through
unchanged. *)
Lemma pass_through_counterexample :
  json_parse (JSON_stringify number_toString Sample.ambiguous) = Parsed Sample.ambiguous
  ∧ handleJSONResponse_end json_parse (JSON_stringify number_toString Sample.ambiguous)
    = Sample.ambiguous
  ∧ ¬ spec_well_formed Sample.ambiguous.
Proof.
  split; [by vm_compute|]. split; [by vm_compute|].
  intros (_ & [[_ H]|[H _]] & _); by vm_compute in H.
Qed.

(** C2 again: a defined but falsy [result] next to a [message] string is
    replaced, although exactly one of [result]/[error] is defined. *)
Lemma pass_through_falsy_result :
  let parsed := JObj [("jsonrpc", JStr "2.0"); ("result", JNum 0);
                      ("message", JStr "done")] in
  handleJSONResponse_end json_parse (JSON_stringify number_toString parsed) ≠ parsed.
Proof. by vm_compute. Qed.

(** C6 on the body [not json] and on an empty body. *)
Lemma normalizer_total_witness :
  (prop (handleJSONResponse_end json_parse "not json") "result" = None
   ∧ prop (handleJSONResponse_end json_parse "not json") "error" ≠ None)
  ∧ (prop (handleJSONResponse_end json_parse "") "result" = None
     ∧ prop (handleJSONResponse_end json_parse "") "error" ≠ None).
Proof.
  split.
  - destruct (normalizer_total json_parse "not json") as (_ & _ & _ & H).
    destruct H as [[H _]|H]; [by intros parsed [=] | by vm_compute in H | exact H].
  - destruct (normalizer_total json_parse "") as (_ & _ & _ & H).
    destruct H as [[H _]|H]; [by intros parsed [=] | by vm_compute in H | exact H].
Defined.

(** C6 on a body that holds both a [result] and an [error]: the value
    returned has both, not exactly one. *)
Lemma normalizer_total_counterexample :
  let returned :=
    handleJSONResponse_end json_parse
      (JSON_stringify number_toString Sample.ambiguous) in
  prop returned "jsonrpc" = Some (JStr "2.0")
  ∧ prop returned "result" = Some (JObj [])
  ∧ prop returned "error"
    = Some (JObj [("code", JNum (-1)); ("message", JStr "failed")])
  ∧ ¬ ((prop returned "result" ≠ None ∧ prop returned "error" = None)
       ∨ (prop returned "result" = None ∧ prop returned "error" ≠ None)).
Proof.
  split_and!; [by vm_compute.. |].
  intros [[_ H]|[H _]]; by vm_compute in H.
Qed.

(** C8 on the sample stream: the trailing block wins, the malformed block
    before it is logged. *)
Lemma sse_first_json_event_witness :
  promise (handleSSEResponse json_parse Sample.stream)
  = Fulfilled (JArr [JNum 1; JNum 2])
  ∧ (sendToServer json_parse Sample.streaming (Sample.request None "tools/call")
       new_proxy).1
    = Fulfilled (JArr [JNum 1; JNum 2]).
Proof.
  destruct (sse_first_json_event json_parse Sample.streaming
              ltac:(by eexists) Sample.stream (JArr [JNum 1; JNum 2]))
    as (H1 & _ & H2); [by vm_compute..|].
  split; [exact H1|]. apply H2; by vm_compute.
Defined.

(** C5 with two retries: three dispatches to a server that is never
    reached, and the third dispatch fulfilled by one that wakes up. *)
Lemma retry_attempts_witness :
  posted (dispatch 2 Sample.refusing (Sample.request (Some (JNum 1)) "tools/call") 0
            new_proxy).2
  = replicate 3 (Sample.request (Some (JNum 1)) "tools/call")
  ∧ (dispatch 2 Sample.waking (Sample.request (Some (JNum 1)) "tools/call") 0
       new_proxy).1
    = Fulfilled (JObj [("jsonrpc", JStr "2.0"); ("id", JNull);
                       ("result", Sample.tools)]).
Proof.
  split.
  - destruct (retry_attempts json_parse (Sample.config 2) Sample.refusing Sample.random
                (Sample.request (Some (JNum 1)) "tools/call") new_proxy)
      as [H _]; [by vm_compute|].
    destruct H as (H & _); [intros k _; by eexists|]. exact H.
  - destruct (retry_attempts json_parse (Sample.config 2) Sample.waking Sample.random
                (Sample.request (Some (JNum 1)) "tools/call") new_proxy)
      as [_ H]; [by vm_compute|].
    refine (proj1 (H 2%nat _ _ _ _)); [by vm_compute | | by vm_compute].
    intros [|[|[|j]]] Hj; try lia; by eexists.
Defined.

(** C5 with [maxRetries = -1]: one dispatch is made, not the
[maxRetries + 1 = 0] of the specification. *)
Lemma retry_attempts_counterexample :
  maxRetries (retry_of (Sample.config (-1))) + 1 = 0
  ∧ posted (dispatch (-1) Sample.refusing (Sample.request (Some (JNum 1)) "tools/call") 0
              new_proxy).2
    = [Sample.request (Some (JNum 1)) "tools/call"].
Proof. split; by vm_compute. Qed.

(** C10 on a request whose [id] is 0: the envelope has a [null] id. *)
Lemma entry_points_total_witness :
  (proxyRequest json_parse (Sample.config 2) Sample.refusing Sample.random
     (Sample.request (Some (JNum 0)) "tools/call") new_proxy).1
  = Fulfilled
      (JObj [("jsonrpc", JStr "2.0"); ("id", JNull);
             ("error", JObj [("code", JNum (-32603));
                             ("message", JStr "Internal error");
                             ("data", JStr "connect ECONNREFUSED")])]).
Proof.
  destruct (entry_points_total json_parse (Sample.config 2) Sample.refusing
              Sample.random (Sample.request (Some (JNum 0)) "tools/call") new_proxy)
    as (_ & _ & H).
  edestruct H as [H1 _]; [by vm_compute|]. by rewrite H1.
Defined.

(** C4 on a request with id 42, and on the [initialized] notification with
    an id. *)
Lemma id_fidelity_witness :
  (∃ envelope,
     stdout (handle Sample.echoing (Sample.message (Some (JNum 42)) "tools/list")
               new_proxy).2
     = [line envelope]
     ∧ prop envelope "id" = Some (JNum 42))
  ∧ stdout (handle Sample.echoing
              (Sample.message (Some (JNum 42)) "notifications/initialized")
              new_proxy).2
    = [].
Proof.
  split.
  - destruct (id_fidelity json_parse number_toString (Sample.config 2) Sample.echoing
                Sample.clock Sample.random
                (Sample.message (Some (JNum 42)) "tools/list")
                (Sample.request (Some (JNum 42)) "tools/list") new_proxy)
      as [H _]; [by vm_compute|].
    destruct (H (JNum 42)) as [_ Hw];
      [by vm_compute | done | by vm_compute | by vm_compute | apply echoing_settles |].
    exact Hw.
  - destruct (id_fidelity json_parse number_toString (Sample.config 2) Sample.echoing
                Sample.clock Sample.random
                (Sample.message (Some (JNum 42)) "notifications/initialized")
                (Sample.request (Some (JNum 42)) "notifications/initialized") new_proxy)
      as [_ H]; [by vm_compute|].
    destruct (H "notifications/initialized") as (_ & Hw & _); [by vm_compute..|].
    exact Hw.
Defined.

(** C4 on a request without [id], a notification for the specification,
whose method is not a notification method: a line is written. *)
Lemma id_fidelity_counterexample :
  prop (Sample.request None "tools/list") "id" = None
  ∧ json_parse (Sample.message None "tools/list")
    = Parsed (Sample.request None "tools/list")
  ∧ stdout (handle Sample.echoing (Sample.message None "tools/list") new_proxy).2
    = [line (JObj [("jsonrpc", JStr "2.0"); ("id", JNull); ("result", Sample.tools)])].
Proof. split; [done|]. split; by vm_compute. Qed.

(** The handler on a notification whose [id] cannot be printed: the log
    line throws, and the [-32603] envelope is written; a request with such
    an [id] is not forwarded. *)
Lemma unprintable_id_answered :
  stdout (handle Sample.echoing
            (Sample.message (Some Scenario.unprintable) "notifications/initialized")
            new_proxy).2
  = [line (JObj [("jsonrpc", JStr "2.0"); ("id", Scenario.unprintable);
                 ("error",
                  JObj [("code", JNum (-32603)); ("message", JStr "Internal error");
                        ("data", JStr "Cannot convert object to primitive value")])])]
  ∧ posted (handle Sample.echoing
              (Sample.message (Some Scenario.unprintable) "tools/call")
              new_proxy).2
    = [].
Proof. split; by vm_compute. Qed.

(** The handler on a request whose [id] is the literal [1e400]: the [id]
    is an infinity, and the line written has the [id] [null]. *)
Lemma infinite_id_written_null :
  json_parse Scenario.overflowing
  = Parsed (JObj [("jsonrpc", JStr "2.0"); ("id", JInfinity false);
                  ("method", JStr "tools/call")])
  ∧ stdout (handle Sample.refusing Scenario.overflowing new_proxy).2
    = [line (JObj [("jsonrpc", JStr "2.0"); ("id", JNull);
                   ("error",
                    JObj [("code", JNum (-32603)); ("message", JStr "Internal error");
                          ("data", JStr "connect ECONNREFUSED")])])].
Proof. split; by vm_compute. Qed.

(** C9 on two [tools/list] requests in a row, with ids 7 and 9. *)
Lemma cache_entry_unsubstituted_witness :
  let fetched := JObj [("jsonrpc", JStr "2.0"); ("id", JNum 7); ("result", Sample.tools)] in
  let p1 := (handle Sample.echoing (Sample.message (Some (JNum 7)) "tools/list")
               new_proxy).2 in
  let p2 := (handle Sample.echoing (Sample.message (Some (JNum 9)) "tools/list") p1).2 in
  cache_entry "tools/list_{}" p1 = Some (fetched, Sample.clock 0)
  ∧ cache_entry "tools/list_{}" p2 = cache_entry "tools/list_{}" p1
  ∧ posted p2 = posted p1
  ∧ stdout p2
    = stdout p1
      ++ [line (JObj [("jsonrpc", JStr "2.0"); ("id", JNum 9); ("result", Sample.tools)])].
Proof.
  intros fetched p1 p2.
  destruct (cache_entry_unsubstituted json_parse number_toString (Sample.config 2)
              Sample.echoing Sample.clock Sample.random
              (Sample.message (Some (JNum 7)) "tools/list")
              (Sample.request (Some (JNum 7)) "tools/list") new_proxy)
    as [Hmiss _]; [by vm_compute..|].
  destruct (Hmiss ltac:(by vm_compute) fetched ltac:(by vm_compute)) as [H1 _].
  destruct (cache_entry_unsubstituted json_parse number_toString (Sample.config 2)
              Sample.echoing Sample.clock Sample.random
              (Sample.message (Some (JNum 9)) "tools/list")
              (Sample.request (Some (JNum 9)) "tools/list") p1)
    as [_ Hhit]; [by vm_compute..|].
  destruct (Hhit fetched ltac:(by vm_compute)) as (H2 & _ & _ & H3 & H4).
  split; [exact H1|]. split; [exact H2|]. split; [exact H3|]. exact H4.
Defined.

(** C9 on a server that echoes the [id]: the entry stored for the request
with id 7 carries the id 7, against the specification, and a later
request without [id] is answered with it. *)
Lemma cache_entry_unsubstituted_counterexample :
  let p1 := (handle Sample.echoing (Sample.message (Some (JNum 7)) "tools/list")
               new_proxy).2 in
  let p2 := (handle Sample.echoing (Sample.message None "tools/list") p1).2 in
  (∃ entry time,
     cache_entry "tools/list_{}" p1 = Some (entry, time)
     ∧ prop entry "id" = Some (JNum 7))
  ∧ stdout p2
    = stdout p1
      ++ [line (JObj [("jsonrpc", JStr "2.0"); ("id", JNum 7); ("result", Sample.tools)])].
Proof.
  intros p1 p2. split; [|by vm_compute].
  eexists _, _. split; by vm_compute.
Qed.

(** C1 on the body [not json] answering a request with id 1. *)
Lemma unparseable_body_witness :
  (∃ code message type,
     handleJSONResponse_end json_parse "not json"
     = error_envelope JNull code message
         [("type", type); ("original", JStr "not json")])
  ∧ stdout (handle Sample.broken (Sample.message (Some (JNum 1)) "tools/call")
              new_proxy).2
    = [line (with_request_id (handleJSONResponse_end json_parse "not json") (JNum 1))].
Proof.
  destruct (unparseable_body json_parse number_toString (Sample.config 2) Sample.broken
              Sample.clock Sample.random "not json" "Unexpected token in JSON")
    as [H1 H2]; [by vm_compute|].
  split; [exact H1|].
  apply (H2 (Sample.message (Some (JNum 1)) "tools/call")
            (Sample.request (Some (JNum 1)) "tools/call") new_proxy
            {| headers := [("content-type", "text/html")];
               chunks := ["not json"]; ending := End |});
    by vm_compute.
Defined.

(** C1 on the body [not json]: the envelope made of it is the generic
[-32603] one, not the [-32700] one of the specification, and the line
written for a request with id 1 carries the id 1, not [null]. *)
Lemma unparseable_body_counterexample :
  json_parse "not json" = SyntaxError "Unexpected token in JSON"
  ∧ handleJSONResponse_end json_parse "not json"
    = error_envelope JNull (-32603) (JStr "Invalid server response")
        [("type", JStr "malformed_response"); ("original", JStr "not json")]
  ∧ handleJSONResponse_end json_parse "not json" ≠ convert_catch "not json"
  ∧ stdout (handle Sample.broken (Sample.message (Some (JNum 1)) "tools/call")
              new_proxy).2
    = [line (error_envelope (JNum 1) (-32603) (JStr "Invalid server response")
               [("type", JStr "malformed_response"); ("original", JStr "not json")])]
  ∧ stdout (handle Sample.broken (Sample.message (Some (JNum 1)) "tools/call")
              new_proxy).2
    ≠ [line (convert_catch "not json")].
Proof. split_and!; by vm_compute. Qed.

(** ** The further properties at work *)

Local Abbreviation handle_each config server :=
  (handle_all json_parse number_toString config server Sample.clock Sample.random).


(** The pauses of these two retries, with [Math.random()] = 0.75. *)
Lemma retry_pauses_default :
  timers (dispatch 2 Sample.refusing (Sample.request (Some (JNum 1)) "tools/call")
            0 new_proxy).2
  = [1125; 2250]%float.
Proof. by vm_compute. Qed.

(** The text [not json] sent with an HTML content type is not retried. *)
Lemma plain_response_not_retried_witness :
  posted (dispatch 2 Sample.broken (Sample.request (Some (JNum 1)) "tools/call") 0
            new_proxy).2
  = [Sample.request (Some (JNum 1)) "tools/call"]
  ∧ timers (dispatch 2 Sample.broken (Sample.request (Some (JNum 1)) "tools/call") 0
              new_proxy).2
    = [].
Proof.
  destruct (plain_response_not_retried json_parse (Sample.config 2) Sample.broken
              Sample.random (Sample.request (Some (JNum 1)) "tools/call")
              {| headers := [("content-type", "text/html")];
                 chunks := ["not json"]; ending := End |} new_proxy)
    as (_ & H1 & H2 & _); [reflexivity..|].
  by split.
Defined.

(** A session held before two requests is still held after them. *)
Lemma session_never_cleared_witness :
  is_Some
    (sessionId
       (handle_each (Sample.config 2) Sample.echoing
          [Sample.message (Some (JNum 1)) "tools/list";
           Sample.message (Some (JNum 2)) "tools/call"]
          (set_sessionId (Some "session-1") new_proxy))).
Proof.
  apply (session_never_cleared json_parse number_toString (Sample.config 2)
           Sample.echoing Sample.clock Sample.random).
  by eexists.
Defined.

(** The response cached for a first [tools/list] request is still at its
    address after two more requests. *)
Lemma stored_objects_immutable_witness :
  let fetched := JObj [("jsonrpc", JStr "2.0"); ("id", JNum 7); ("result", Sample.tools)] in
  let p1 := (handle Sample.echoing (Sample.message (Some (JNum 7)) "tools/list")
               new_proxy).2 in
  heap (handle_each (Sample.config 2) Sample.echoing
          [Sample.message (Some (JNum 9)) "tools/list";
           Sample.message (Some (JNum 10)) "tools/call"] p1) !! 0%nat
  = Some fetched.
Proof.
  intros fetched p1.
  apply (stored_objects_immutable json_parse number_toString (Sample.config 2)
           Sample.echoing Sample.clock Sample.random).
  by vm_compute.
Defined.

(** After a [tools/list] request the cached address holds an object. *)
Lemma cache_stays_consistent_witness :
  is_Some
    (heap (handle_each (Sample.config 2) Sample.echoing
             [Sample.message (Some (JNum 7)) "tools/list"] new_proxy) !! 0%nat).
Proof.
  apply (proj2 (cache_stays_consistent json_parse number_toString (Sample.config 2)
                  Sample.echoing Sample.clock Sample.random
                  [Sample.message (Some (JNum 7)) "tools/list"])
           "tools/list_{}" 0%nat).
  by vm_compute.
Defined.

(** With [--no-cache] two [tools/list] requests leave the cache empty. *)
Lemma uncached_messages_leave_cache_witness :
  toolCache
    (handle_each Scenario.no_cache Sample.echoing
       [Sample.message (Some (JNum 7)) "tools/list";
        Sample.message (Some (JNum 9)) "tools/list"] new_proxy)
  = ∅.
Proof.
  destruct (uncached_messages_leave_cache json_parse number_toString Scenario.no_cache
              Sample.echoing Sample.clock Sample.random
              [Sample.message (Some (JNum 7)) "tools/list";
               Sample.message (Some (JNum 9)) "tools/list"] new_proxy) as [H _];
    [intros message parsed _ _; reflexivity | exact H].
Defined.

(** The session identifier announced by a response is sent back. *)
Lemma session_id_sent_back_witness :
  request_headers Scenario.bearer "{}"
    (sessionId (sendToServer json_parse Scenario.greeting
                  (Sample.request (Some (JNum 1)) "initialize") new_proxy).2)
    !! "Mcp-Session-Id"
  = Some "session-1".
Proof.
  apply (session_id_sent_back json_parse Scenario.greeting
           (Sample.request (Some (JNum 1)) "initialize")
           {| headers := [("content-type", "application/json");
                          ("mcp-session-id", "session-1")];
              chunks := ["{}"]; ending := End |} "session-1" new_proxy);
    by vm_compute.
Defined.

(** The sample stream in three chunks and in one. *)
Lemma sse_chunking_invariant_witness :
  promise (handleSSEResponse json_parse Scenario.unchunked)
  = promise (handleSSEResponse json_parse Sample.stream).
Proof.
  apply (sse_chunking_invariant json_parse Scenario.unchunked Sample.stream);
    by vm_compute.
Defined.

(** A stream that ends inside a payload rejects. *)
Lemma sse_end_without_json_witness :
  ∃ m, promise (handleSSEResponse json_parse Scenario.truncated)
       = Rejected (JsError "Error" ("Invalid JSON in final SSE: SyntaxError: " +:+ m)).
Proof.
  destruct (sse_end_without_json json_parse ltac:(by eexists) Scenario.truncated)
    as (m & _ & H); [by vm_compute..|].
  exists m. by rewrite H.
Defined.

(** A stream that breaks off after a complete block is fulfilled by it. *)
Lemma sse_stream_error_witness :
  promise (handleSSEResponse json_parse Scenario.interrupted)
  = Fulfilled (JArr [JNum 1; JNum 2]).
Proof.
  rewrite (sse_stream_error json_parse ltac:(by eexists) Scenario.interrupted
             (JsError "Error" "read ECONNRESET")); by vm_compute.
Defined.

(** A block of three lines, two of them data lines. *)
Lemma parseSSEEvent_lines_witness :
  data (parseSSEEvent ("event: message" +:+ Sample.lf +:+ "data: [1,"
                       +:+ Sample.lf +:+ "data: 2]"))
  = "[1,2]"
  ∧ type (parseSSEEvent ("event: message" +:+ Sample.lf +:+ "data: [1,"
                         +:+ Sample.lf +:+ "data: 2]"))
    = "message".
Proof.
  apply (parseSSEEvent_lines ["event: message"; "data: [1,"; "data: 2]"]);
    [done | by repeat constructor].
Defined.

(** The envelope made of [not json], serialized and read again. *)
Lemma end_handler_idempotent_witness :
  handleJSONResponse_end json_parse
    (JSON_stringify number_toString (handleJSONResponse_end json_parse "not json"))
  = handleJSONResponse_end json_parse "not json".
Proof.
  apply (end_handler_idempotent json_parse "not json"
           (JSON_stringify number_toString (handleJSONResponse_end json_parse "not json"))).
  by vm_compute.
Defined.

(** The excerpt of a body of 250 characters has 200. *)
Lemma original_excerpt_witness :
  String.length (substring_to 200 Scenario.long_body) = 200%nat.
Proof.
  destruct (original_excerpt Scenario.long_body JNull
              (JObj [("code", JNum (-32603));
                     ("message", JStr "Invalid server response");
                     ("data", JObj [("type", JStr "malformed_response");
                                    ("original",
                                     JStr (substring_to 200 Scenario.long_body))])])
              (JObj [("type", JStr "malformed_response");
                     ("original", JStr (substring_to 200 Scenario.long_body))])
              (substring_to 200 Scenario.long_body)) as [_ H];
    [reflexivity..|].
  rewrite H. by vm_compute.
Defined.

(** A line that is not JSON gets the envelope with [id] [null]. *)
Lemma handler_total_witness :
  ∃ error,
    handle Sample.echoing "not json" new_proxy
    = (Fulfilled tt, write (line (internal_error JNull error)) new_proxy).
Proof.
  apply (handler_total json_parse number_toString (Sample.config 2) Sample.echoing
           Sample.clock Sample.random "not json" new_proxy).
  intros parsed H. by vm_compute in H.
Defined.

(** An [initialize] request is followed by the notification. *)
Lemma initialize_handshake_witness :
  ∃ k : nat,
    posted (handle Sample.echoing (Sample.message (Some (JNum 1)) "initialize")
              new_proxy).2
    = Sample.request (Some (JNum 1)) "initialize"
      :: replicate (S k) initNotification.
Proof.
  pose proof (initialize_handshake json_parse number_toString (Sample.config 2)
                Sample.echoing Sample.clock Sample.random
                (Sample.message (Some (JNum 1)) "initialize")
                (Sample.request (Some (JNum 1)) "initialize") new_proxy
                ltac:(by vm_compute) ltac:(by vm_compute) ltac:(by vm_compute)) as H.
  assert (dispatch 2 Sample.echoing (Sample.request (Some (JNum 1)) "initialize") 0
            new_proxy
          = (Fulfilled (JObj [("jsonrpc", JStr "2.0"); ("id", JNum 1);
                              ("result", Sample.tools)]),
             set_posted [Sample.request (Some (JNum 1)) "initialize"] new_proxy))
    as E by (by vm_compute).
  rewrite E in H. destruct H as (k & H & _). exists k. exact H.
Defined.

(** A [tools/list] request whose [id] is [{"toString":1}]. *)
Lemma unprintable_request_answered_witness :
  handle Sample.echoing (Sample.message (Some Scenario.unprintable) "tools/list")
    new_proxy
  = (Fulfilled tt,
     write
       (line (internal_error Scenario.unprintable
                (JsError "TypeError" "Cannot convert object to primitive value")))
       (set_requestCounter 1 new_proxy)).
Proof.
  apply (unprintable_request_answered json_parse number_toString (Sample.config 2)
           Sample.echoing Sample.clock Sample.random
           (Sample.message (Some Scenario.unprintable) "tools/list")
           (Sample.request (Some Scenario.unprintable) "tools/list") new_proxy);
    by vm_compute.
Defined.

(** A [tools/list] request to a server that is never reached. *)
Lemma failed_fetch_not_cached_witness :
  fresh_entry (Sample.clock 5) "tools/list_{}"
    (handle Sample.refusing (Sample.message (Some (JNum 1)) "tools/list") new_proxy).2
  = None.
Proof.
  apply (failed_fetch_not_cached json_parse number_toString (Sample.config 2)
           Sample.refusing Sample.clock Sample.random
           (Sample.message (Some (JNum 1)) "tools/list")
           (Sample.request (Some (JNum 1)) "tools/list")
           (JsError "Error" "connect ECONNREFUSED") new_proxy);
    by vm_compute.
Defined.

(** Two [tools/list] requests in a row, with ids 7 and 9. *)
Lemma cached_reply_round_trip_witness :
  let p1 := (handle Sample.echoing (Sample.message (Some (JNum 7)) "tools/list")
               new_proxy).2 in
  let p2 := (handle Sample.echoing (Sample.message (Some (JNum 9)) "tools/list") p1).2 in
  posted p2 = posted p1
  ∧ stdout p2
    = stdout p1
      ++ [line (JObj [("jsonrpc", JStr "2.0"); ("id", JNum 9); ("result", Sample.tools)])].
Proof.
  intros p1 p2.
  apply (cached_reply_round_trip json_parse number_toString (Sample.config 2)
           Sample.echoing Sample.clock Sample.random
           (Sample.message (Some (JNum 7)) "tools/list")
           (Sample.message (Some (JNum 9)) "tools/list")
           (Sample.request (Some (JNum 7)) "tools/list")
           (Sample.request (Some (JNum 9)) "tools/list")
           (JObj [("jsonrpc", JStr "2.0"); ("id", JNum 7); ("result", Sample.tools)])
           new_proxy);
    by vm_compute.
Defined.

(** Two [tools/list] requests in a row under a clock that advances by
    400000 ms from one reading to the next: the first response is stored
    under the first reading, the second request finds it stale at the
    second reading and is sent to the server as well. *)
Lemma stale_entry_refetched :
  let slow :=
    handleIncomingMessage json_parse number_toString (Sample.config 2)
      Sample.echoing Scenario.slow_clock Sample.random in
  let p1 := (slow (Sample.message (Some (JNum 7)) "tools/list") new_proxy).2 in
  let p2 := (slow (Sample.message (Some (JNum 9)) "tools/list") p1).2 in
  cacheTimestamps p1 !! "tools/list_{}" = Some (Scenario.slow_clock 0)
  ∧ posted p2
    = [Sample.request (Some (JNum 7)) "tools/list";
       Sample.request (Some (JNum 9)) "tools/list"]
  ∧ cacheTimestamps p2 !! "tools/list_{}" = Some (Scenario.slow_clock 2).
Proof. split_and!; by vm_compute. Qed.

(** Two [tools/list] requests to a server whose stream carries [null]. *)
Lemma falsy_response_refetched_witness :
  let p1 := (handle Scenario.nulling (Sample.message (Some (JNum 7)) "tools/list")
               new_proxy).2 in
  ∃ n : nat,
    posted (handle Scenario.nulling (Sample.message (Some (JNum 9)) "tools/list") p1).2
    = posted p1 ++ replicate (S n) (Sample.request (Some (JNum 9)) "tools/list").
Proof.
  intros p1.
  apply (falsy_response_refetched json_parse number_toString (Sample.config 2)
           Scenario.nulling Sample.clock Sample.random
           (Sample.message (Some (JNum 7)) "tools/list")
           (Sample.message (Some (JNum 9)) "tools/list")
           (Sample.request (Some (JNum 7)) "tools/list")
           (Sample.request (Some (JNum 9)) "tools/list")
           JNull new_proxy);
    by vm_compute.
Defined.

(** [proxyRequest] on a request with id 5: the response as the server
    sent it. *)
Lemma entry_points_transparent_witness :
  (proxyRequest json_parse (Sample.config 2) Sample.echoing Sample.random
     (Sample.request (Some (JNum 5)) "tools/list") new_proxy).1
  = Fulfilled (JObj [("jsonrpc", JStr "2.0"); ("id", JNum 5); ("result", Sample.tools)]).
Proof.
  apply (entry_points_transparent json_parse (Sample.config 2) Sample.echoing
           Sample.random (Sample.request (Some (JNum 5)) "tools/list") new_proxy).
  by vm_compute.
Defined.

(** [--max-retries 0] gives the default of three retries. *)
Lemma parseArgs_settings_witness :
  ∃ rc,
    retry (Config.engine
             (Config.build "https://leantime.example.com/mcp" "abc123" "Bearer"
                false None 3 1000 false))
    = Some rc
    ∧ maxRetries rc ≠ 0.
Proof.
  destruct (parseArgs_settings Scenario.command_line (λ _, None)
              (Config.build "https://leantime.example.com/mcp" "abc123" "Bearer"
                 false None 3 1000 false))
    as (_ & _ & rc & H1 & H2 & _); [reflexivity|].
  by exists rc.
Defined.

(** The first positional argument wins over a later one and over the
    environment. *)
Lemma parseArgs_precedence_witness :
  Config.url <$> Config.parseArgs Scenario.command_line Scenario.environment
  = Some "https://leantime.example.com/mcp".
Proof.
  destruct (Config.parseArgs Scenario.command_line Scenario.environment) as [c|] eqn:E;
    [|by vm_compute in E].
  cbn. f_equal.
  apply (proj1 (parseArgs_precedence
                  ["--token"; "abc123"; "--max-retries"; "0";
                   "https://other.example.com/mcp"] Scenario.environment)
           "https://leantime.example.com/mcp" c);
    [reflexivity | apply (bool_decide_unpack _); by vm_compute | exact E].
Defined.

(** Once the session is initialized nothing more is sent for it. *)
Lemma session_handshake_witness :
  ensureLeantimeSession json_parse (Sample.config 2) Sample.echoing Sample.clock
    Sample.random {| leantimeSessionInitialized := true; instance := new_proxy |}
  = (Fulfilled tt, {| leantimeSessionInitialized := true; instance := new_proxy |}).
Proof.
  apply (session_handshake json_parse (Sample.config 2) Sample.echoing Sample.clock
           Sample.random); [apply echoing_settles | reflexivity].
Defined.

(** The tool listing against a server that answers. *)
Lemma listTools_total_witness :
  ∃ v,
    (listTools json_parse number_toString (Sample.config 2) Sample.echoing
       Sample.clock Sample.random
       {| leantimeSessionInitialized := false; instance := new_proxy |}).1
    = Fulfilled v.
Proof.
  apply (listTools_total json_parse number_toString (Sample.config 2) Sample.echoing
           Sample.clock Sample.random), echoing_settles.
Defined.
